(** * threejs-zelda: physics stepper and character locomotion controller

    A shallow embedding of [src/physics/PhysicsManager.ts], of the
    [KeyboardManager] and [CharacterController] classes (both stored in
    [src/input/KeyboardManager.ts]), of the particle pool
    [src/effects/FootstepParticles.ts] the controller drives, and of the
    calls [GameScene.animate] makes on them.

    Conventions of the embedding.
    - JavaScript numbers are modelled as rationals [Q] with exact arithmetic;
      NaN and infinities are outside the model.  Decimal literals of the
      source are kept as they are written ([0.25], [0.01], ...).  Rounding
      is modelled where the behaviour of the code turns on it: in
      [normalizeAngle] and [lerpAngle], whose loops end or not by it, every
      operation is rounded to binary64, and an entry of a [Float32Array]
      holds the number stored rounded to float32 (module [Floats]).
    - Objects of the external collaborators (the Rapier world, the THREE
      scene graph, the audio element) are represented by what the controller
      observes of them: a world is its ray-cast answers, a rigid body its
      translation and linear velocity, a collider its capsule profile.
    - [setTimeout], [console.warn], audio playback and particle spawning are
      recorded, in program order, in an effect log. *)

From Stdlib Require Import QArith Qabs Qminmax Lia Lqa List String Bool Arith.
From Stdlib Require Import ZArith Qround Qpower.
From Equations Require Import Equations.
Import ListNotations.
Open Scope Q_scope.

(** ** Comparisons of numbers as booleans *)

Definition Qleb (a b : Q) : bool := Qle_bool a b.
Definition Qltb (a b : Q) : bool := negb (Qle_bool b a).
Definition Qgtb (a b : Q) : bool := Qltb b a.
Definition Qgeb (a b : Q) : bool := Qleb b a.

(** ** PhysicsManager (src/physics/PhysicsManager.ts) *)

Module Physics.

(** The Rapier world, seen from the stepper: the number of fixed
    increments [world.step()] has advanced it by. *)
Record World := { ticks : nat }.

Definition world_step (w : World) : World := {| ticks := S (ticks w) |}.

Record PhysicsManager := {
  world : option World;
  initialized : bool;
  accumulator : Q;
  warnings : list string   (* console.warn output, oldest first *)
}.

Definition fixedTimeStep : Q := 1 / 60.

(** Constructor state, and the state [init()] leaves. *)
Definition create : PhysicsManager :=
  {| world := None; initialized := false; accumulator := 0; warnings := [] |}.

Definition init (pm : PhysicsManager) : PhysicsManager :=
  if initialized pm then pm
  else {| world := Some {| ticks := 0 |}; initialized := true;
          accumulator := accumulator pm; warnings := warnings pm |}.

Definition dispose (pm : PhysicsManager) : PhysicsManager :=
  match world pm with
  | Some _ => {| world := None; initialized := false;
                 accumulator := accumulator pm; warnings := warnings pm |}
  | None => pm
  end.

(** The variables the [while] loop of [step] works on. *)
Record LoopState := {
  l_world : World;
  l_acc : Q;
  l_steps : nat;
  l_warn : list string
}.

Definition limit_warning : string :=
  "Physics step limit reached, clamping accumulator".

(** [while (accumulator >= fixedTimeStep) { world.step(); accumulator -=
    fixedTimeStep; steps++; if (steps > 10) { warn; accumulator = 0;
    break; } }].  The [break] bounds the loop: [11 - steps] decreases. *)
Equations? stepLoop (s : LoopState) : LoopState by wf (11 - l_steps s)%nat lt :=
  stepLoop s with Qleb fixedTimeStep (l_acc s) => {
    | false := s;
    | true with le_lt_dec (S (l_steps s)) 10 => {
        | right _ (* steps > 10 *) :=
            {| l_world := world_step (l_world s);
               l_acc := 0;
               l_steps := S (l_steps s);
               l_warn := l_warn s ++ [limit_warning] |};
        | left _ :=
            stepLoop {| l_world := world_step (l_world s);
                        l_acc := l_acc s - fixedTimeStep;
                        l_steps := S (l_steps s);
                        l_warn := l_warn s |} } }.
Proof.
  clear stepLoop. destruct s as [w a n ws]; simpl in *.
  do 11 (destruct n as [|n]; [lia|]). lia.
Qed.

(** [step(deltaTime)]: the manager afterwards and the returned alpha. *)
Definition step (pm : PhysicsManager) (deltaTime : Q) : PhysicsManager * Q :=
  match world pm with
  | None => (pm, 0)
  | Some w =>
      let clampedDelta := Qmin deltaTime 0.25 in
      let s := stepLoop {| l_world := w;
                           l_acc := accumulator pm + clampedDelta;
                           l_steps := 0;
                           l_warn := warnings pm |} in
      ({| world := Some (l_world s); initialized := initialized pm;
          accumulator := l_acc s; warnings := l_warn s |},
       l_acc s / fixedTimeStep)
  end.

(** Number of fixed steps the world of [pm'] is ahead of the world of [pm]. *)
Definition stepsBetween (pm pm' : PhysicsManager) : nat :=
  match world pm, world pm' with
  | Some w, Some w' => ticks w' - ticks w
  | _, _ => 0
  end.

(** A run of frames: the managers and alphas of successive [step] calls. *)
Fixpoint run (pm : PhysicsManager) (dts : list Q) : PhysicsManager * list Q :=
  match dts with
  | [] => (pm, [])
  | dt :: rest =>
      let (pm1, a) := step pm dt in
      let (pm2, al) := run pm1 rest in
      (pm2, a :: al)
  end.

End Physics.

(** ** CharacterController (src/input/KeyboardManager.ts, second part) *)

Module Character.

(** What a call into the physics binding can do: return, or throw. *)
Inductive Result (A : Type) : Type :=
| Returns (a : A)
| Throws.
Arguments Returns {A} a.
Arguments Throws {A}.

Record Vec3 := { v_x : Q; v_y : Q; v_z : Q }.

(** [Math.sin], [Math.cos], [Math.atan2], [Math.sqrt] and
    [THREE.MathUtils.degToRad] have no rational counterpart; the controller
    is parameterised by them. *)
Record MathLib := {
  Msin : Q -> Q;
  Mcos : Q -> Q;
  Matan2 : Q -> Q -> Q;
  Msqrt : Q -> Q;
  MdegToRad : Q -> Q
}.

(** [this.keys] *)
Record Keys := {
  key_forward : bool;
  key_backward : bool;
  key_left : bool;
  key_right : bool;
  key_run : bool;
  key_jump : bool;
  key_crouch : bool;
  key_dance : bool;
  key_roll : bool;
  key_walkBackward : bool
}.

(** [this.config], without the camera entries. *)
Record Config := {
  WALK_SPEED : Q;
  RUN_SPEED : Q;
  ROTATION_SPEED : Q;
  JUMP_FORCE : Q;
  capsuleHeight : Q;
  capsuleRadius : Q;
  yPosition : Q;
  enableFootstepAudio : bool;
  enableFootstepParticles : bool
}.

(** ['none' | 'start' | 'loop' | 'land'] *)
Inductive JumpPhase := phaseNone | phaseStart | phaseLoop | phaseLand.

Definition JumpPhase_eqb (a b : JumpPhase) : bool :=
  match a, b with
  | phaseNone, phaseNone | phaseStart, phaseStart
  | phaseLoop, phaseLoop | phaseLand, phaseLand => true
  | _, _ => false
  end.

(** The keys of [this.animationMap]. *)
Inductive Anim :=
| idle | walk | run | walkBackwards | leftTurn | rightTurn | dance
| jumpStart | jumpLoop | jumpLand | crouchIdle | crouchWalk
| swordIdle | swordAttack | swordAttackAlt | roll.

Definition Anim_eqb (a b : Anim) : bool :=
  match a, b with
  | idle, idle | walk, walk | run, run | walkBackwards, walkBackwards
  | leftTurn, leftTurn | rightTurn, rightTurn | dance, dance
  | jumpStart, jumpStart | jumpLoop, jumpLoop | jumpLand, jumpLand
  | crouchIdle, crouchIdle | crouchWalk, crouchWalk
  | swordIdle, swordIdle | swordAttack, swordAttack
  | swordAttackAlt, swordAttackAlt | roll, roll => true
  | _, _ => false
  end.

Definition animationMap (a : Anim) : string :=
  match a with
  | idle => "Idle_Loop"
  | walk => "Walk_Loop"
  | run => "Sprint_Loop"
  | walkBackwards => "Walk_Loop"
  | leftTurn => "Walk_Loop"
  | rightTurn => "Walk_Loop"
  | dance => "Dance_Loop"
  | jumpStart => "Jump_Start"
  | jumpLoop => "Jump_Loop"
  | jumpLand => "Jump_Land"
  | crouchIdle => "Crouch_Idle_Loop"
  | crouchWalk => "Crouch_Fwd_Loop"
  | swordIdle => "Sword_Idle"
  | swordAttack => "Sword_Attack"
  | swordAttackAlt => "Sword_Attack_RM"
  | roll => "Roll"
  end.

(** [this.footstepAnimations] *)
Definition footstepAnimations (a : Anim) : bool :=
  match a with
  | walk | run | walkBackwards | crouchWalk => true
  | _ => false
  end.

(** A hit object of the physics binding.  The time of impact and the
    normal are looked up under several field names; an absent field is
    [None]. *)
Record RawHit := {
  toi : option Q;
  timeOfImpact : option Q;
  time_of_impact : option Q;
  normal : option Vec3;
  normal1 : option Vec3;
  normal2 : option Vec3
}.

(** [a ?? b] *)
Definition nullish {A} (a b : option A) : option A :=
  match a with Some _ => a | None => b end.

(** The world as the controller queries it: [castRay(ray, maxToi, ...)]
    and [castRayAndGetNormal(ray, maxToi, ...)], given the ray's origin
    and direction.  The excluded body is always the controller's own. *)
Record World := {
  castRay : Vec3 -> Vec3 -> Q -> Result (option RawHit);
  castRayAndGetNormal : Vec3 -> Vec3 -> Q -> Result (option RawHit)
}.

Record RigidBody := { translation : Vec3; linvel : Vec3 }.

(** [ColliderDesc.capsule(halfHeight, radius).setFriction(..).setRestitution(..)] *)
Record Collider := {
  halfHeight : Q;
  radius : Q;
  friction : Q;
  restitution : Q
}.

(** The object [castFootRay] returns on a hit. *)
Record FootHit := {
  hitToi : Q;
  slopeFactor : Q;
  point : Vec3;
  hitNormal : Vec3
}.

(** The deferred callbacks handed to [setTimeout]. *)
Inductive Callback :=
| AttackEnd          (* handleMouseDown, 600 ms *)
| LandToNone         (* landing detection, 300 ms *)
| RollEnd            (* roll input, 800 ms *)
| CrouchUnlock       (* crouch state change, 200 ms *)
| JumpStartToLoop.   (* both jump triggers, 200 ms *)

Inductive Effect :=
| SetTimeout (cb : Callback) (ms : nat)
| PlayFootstepSound (volume : Q)
| SpawnParticle (position nrm : Vec3) (slope : Q)
| ConsoleWarn (msg : string).

(** The per-foot fields [xFootBone] (is a bone known), [prevXFootPosition],
    [xFootInitialized], [xFootWasGrounded] and [xFootPrevToi], for x = left
    and x = right. *)
Record FootTrack := {
  ft_bone : bool;
  ft_prevPosition : Vec3;
  ft_initialized : bool;
  ft_wasGrounded : bool;
  ft_prevToi : Q
}.

Record CharacterController := {
  config : Config;
  world : option World;
  rigidBody : option RigidBody;
  collider : option Collider;
  currentCapsuleHalfHeight : Q;
  currentCharacterYOffset : Q;
  animationGroupY : Q;
  actions : list string;
  currentAnimation : Anim;
  currentAction : option string;
  animationChangeCooldown : Q;
  isGrounded : bool;
  wasGrounded : bool;
  jumpPhase : JumpPhase;
  combatMode : bool;
  isAttacking : bool;
  isRolling : bool;
  isCrouching : bool;
  crouchTransitioning : bool;
  ceilingClearanceTimer : Q;
  rollDirection : option Q;
  rollSpeed : option Q;
  characterRotationTarget : Q;
  rotationTarget : Q;
  keys : Keys;
  jumpPressed : bool;
  rollPressed : bool;
  leftFoot : FootTrack;
  rightFoot : FootTrack;
  footstepCooldown : Q;
  footstepParticles : bool;
  effects : list Effect
}.

Definition set_world (v : option World) (c : CharacterController) :=
  Build_CharacterController (config c) v (rigidBody c) (collider c)
    (currentCapsuleHalfHeight c) (currentCharacterYOffset c)
    (animationGroupY c) (actions c) (currentAnimation c) (currentAction c)
    (animationChangeCooldown c) (isGrounded c) (wasGrounded c) (jumpPhase c)
    (combatMode c) (isAttacking c) (isRolling c) (isCrouching c)
    (crouchTransitioning c) (ceilingClearanceTimer c) (rollDirection c)
    (rollSpeed c) (characterRotationTarget c) (rotationTarget c) (keys c)
    (jumpPressed c) (rollPressed c) (leftFoot c) (rightFoot c)
    (footstepCooldown c) (footstepParticles c) (effects c).

Definition set_rigidBody (v : option RigidBody) (c : CharacterController) :=
  Build_CharacterController (config c) (world c) v (collider c)
    (currentCapsuleHalfHeight c) (currentCharacterYOffset c)
    (animationGroupY c) (actions c) (currentAnimation c) (currentAction c)
    (animationChangeCooldown c) (isGrounded c) (wasGrounded c) (jumpPhase c)
    (combatMode c) (isAttacking c) (isRolling c) (isCrouching c)
    (crouchTransitioning c) (ceilingClearanceTimer c) (rollDirection c)
    (rollSpeed c) (characterRotationTarget c) (rotationTarget c) (keys c)
    (jumpPressed c) (rollPressed c) (leftFoot c) (rightFoot c)
    (footstepCooldown c) (footstepParticles c) (effects c).

Definition set_collider (v : option Collider) (c : CharacterController) :=
  Build_CharacterController (config c) (world c) (rigidBody c) v
    (currentCapsuleHalfHeight c) (currentCharacterYOffset c)
    (animationGroupY c) (actions c) (currentAnimation c) (currentAction c)
    (animationChangeCooldown c) (isGrounded c) (wasGrounded c) (jumpPhase c)
    (combatMode c) (isAttacking c) (isRolling c) (isCrouching c)
    (crouchTransitioning c) (ceilingClearanceTimer c) (rollDirection c)
    (rollSpeed c) (characterRotationTarget c) (rotationTarget c) (keys c)
    (jumpPressed c) (rollPressed c) (leftFoot c) (rightFoot c)
    (footstepCooldown c) (footstepParticles c) (effects c).

Definition set_currentCapsuleHalfHeight (v : Q) (c : CharacterController) :=
  Build_CharacterController (config c) (world c) (rigidBody c) (collider c)
    v (currentCharacterYOffset c) (animationGroupY c) (actions c)
    (currentAnimation c) (currentAction c) (animationChangeCooldown c)
    (isGrounded c) (wasGrounded c) (jumpPhase c) (combatMode c) (isAttacking
    c) (isRolling c) (isCrouching c) (crouchTransitioning c)
    (ceilingClearanceTimer c) (rollDirection c) (rollSpeed c)
    (characterRotationTarget c) (rotationTarget c) (keys c) (jumpPressed c)
    (rollPressed c) (leftFoot c) (rightFoot c) (footstepCooldown c)
    (footstepParticles c) (effects c).

Definition set_currentCharacterYOffset (v : Q) (c : CharacterController) :=
  Build_CharacterController (config c) (world c) (rigidBody c) (collider c)
    (currentCapsuleHalfHeight c) v (animationGroupY c) (actions c)
    (currentAnimation c) (currentAction c) (animationChangeCooldown c)
    (isGrounded c) (wasGrounded c) (jumpPhase c) (combatMode c) (isAttacking
    c) (isRolling c) (isCrouching c) (crouchTransitioning c)
    (ceilingClearanceTimer c) (rollDirection c) (rollSpeed c)
    (characterRotationTarget c) (rotationTarget c) (keys c) (jumpPressed c)
    (rollPressed c) (leftFoot c) (rightFoot c) (footstepCooldown c)
    (footstepParticles c) (effects c).

Definition set_animationGroupY (v : Q) (c : CharacterController) :=
  Build_CharacterController (config c) (world c) (rigidBody c) (collider c)
    (currentCapsuleHalfHeight c) (currentCharacterYOffset c) v (actions c)
    (currentAnimation c) (currentAction c) (animationChangeCooldown c)
    (isGrounded c) (wasGrounded c) (jumpPhase c) (combatMode c) (isAttacking
    c) (isRolling c) (isCrouching c) (crouchTransitioning c)
    (ceilingClearanceTimer c) (rollDirection c) (rollSpeed c)
    (characterRotationTarget c) (rotationTarget c) (keys c) (jumpPressed c)
    (rollPressed c) (leftFoot c) (rightFoot c) (footstepCooldown c)
    (footstepParticles c) (effects c).

Definition set_actions (v : list string) (c : CharacterController) :=
  Build_CharacterController (config c) (world c) (rigidBody c) (collider c)
    (currentCapsuleHalfHeight c) (currentCharacterYOffset c)
    (animationGroupY c) v (currentAnimation c) (currentAction c)
    (animationChangeCooldown c) (isGrounded c) (wasGrounded c) (jumpPhase c)
    (combatMode c) (isAttacking c) (isRolling c) (isCrouching c)
    (crouchTransitioning c) (ceilingClearanceTimer c) (rollDirection c)
    (rollSpeed c) (characterRotationTarget c) (rotationTarget c) (keys c)
    (jumpPressed c) (rollPressed c) (leftFoot c) (rightFoot c)
    (footstepCooldown c) (footstepParticles c) (effects c).

Definition set_currentAnimation (v : Anim) (c : CharacterController) :=
  Build_CharacterController (config c) (world c) (rigidBody c) (collider c)
    (currentCapsuleHalfHeight c) (currentCharacterYOffset c)
    (animationGroupY c) (actions c) v (currentAction c)
    (animationChangeCooldown c) (isGrounded c) (wasGrounded c) (jumpPhase c)
    (combatMode c) (isAttacking c) (isRolling c) (isCrouching c)
    (crouchTransitioning c) (ceilingClearanceTimer c) (rollDirection c)
    (rollSpeed c) (characterRotationTarget c) (rotationTarget c) (keys c)
    (jumpPressed c) (rollPressed c) (leftFoot c) (rightFoot c)
    (footstepCooldown c) (footstepParticles c) (effects c).

Definition set_currentAction (v : option string) (c : CharacterController) :=
  Build_CharacterController (config c) (world c) (rigidBody c) (collider c)
    (currentCapsuleHalfHeight c) (currentCharacterYOffset c)
    (animationGroupY c) (actions c) (currentAnimation c) v
    (animationChangeCooldown c) (isGrounded c) (wasGrounded c) (jumpPhase c)
    (combatMode c) (isAttacking c) (isRolling c) (isCrouching c)
    (crouchTransitioning c) (ceilingClearanceTimer c) (rollDirection c)
    (rollSpeed c) (characterRotationTarget c) (rotationTarget c) (keys c)
    (jumpPressed c) (rollPressed c) (leftFoot c) (rightFoot c)
    (footstepCooldown c) (footstepParticles c) (effects c).

Definition set_animationChangeCooldown (v : Q) (c : CharacterController) :=
  Build_CharacterController (config c) (world c) (rigidBody c) (collider c)
    (currentCapsuleHalfHeight c) (currentCharacterYOffset c)
    (animationGroupY c) (actions c) (currentAnimation c) (currentAction c) v
    (isGrounded c) (wasGrounded c) (jumpPhase c) (combatMode c) (isAttacking
    c) (isRolling c) (isCrouching c) (crouchTransitioning c)
    (ceilingClearanceTimer c) (rollDirection c) (rollSpeed c)
    (characterRotationTarget c) (rotationTarget c) (keys c) (jumpPressed c)
    (rollPressed c) (leftFoot c) (rightFoot c) (footstepCooldown c)
    (footstepParticles c) (effects c).

Definition set_isGrounded (v : bool) (c : CharacterController) :=
  Build_CharacterController (config c) (world c) (rigidBody c) (collider c)
    (currentCapsuleHalfHeight c) (currentCharacterYOffset c)
    (animationGroupY c) (actions c) (currentAnimation c) (currentAction c)
    (animationChangeCooldown c) v (wasGrounded c) (jumpPhase c) (combatMode
    c) (isAttacking c) (isRolling c) (isCrouching c) (crouchTransitioning c)
    (ceilingClearanceTimer c) (rollDirection c) (rollSpeed c)
    (characterRotationTarget c) (rotationTarget c) (keys c) (jumpPressed c)
    (rollPressed c) (leftFoot c) (rightFoot c) (footstepCooldown c)
    (footstepParticles c) (effects c).

Definition set_wasGrounded (v : bool) (c : CharacterController) :=
  Build_CharacterController (config c) (world c) (rigidBody c) (collider c)
    (currentCapsuleHalfHeight c) (currentCharacterYOffset c)
    (animationGroupY c) (actions c) (currentAnimation c) (currentAction c)
    (animationChangeCooldown c) (isGrounded c) v (jumpPhase c) (combatMode
    c) (isAttacking c) (isRolling c) (isCrouching c) (crouchTransitioning c)
    (ceilingClearanceTimer c) (rollDirection c) (rollSpeed c)
    (characterRotationTarget c) (rotationTarget c) (keys c) (jumpPressed c)
    (rollPressed c) (leftFoot c) (rightFoot c) (footstepCooldown c)
    (footstepParticles c) (effects c).

Definition set_jumpPhase (v : JumpPhase) (c : CharacterController) :=
  Build_CharacterController (config c) (world c) (rigidBody c) (collider c)
    (currentCapsuleHalfHeight c) (currentCharacterYOffset c)
    (animationGroupY c) (actions c) (currentAnimation c) (currentAction c)
    (animationChangeCooldown c) (isGrounded c) (wasGrounded c) v (combatMode
    c) (isAttacking c) (isRolling c) (isCrouching c) (crouchTransitioning c)
    (ceilingClearanceTimer c) (rollDirection c) (rollSpeed c)
    (characterRotationTarget c) (rotationTarget c) (keys c) (jumpPressed c)
    (rollPressed c) (leftFoot c) (rightFoot c) (footstepCooldown c)
    (footstepParticles c) (effects c).

Definition set_combatMode (v : bool) (c : CharacterController) :=
  Build_CharacterController (config c) (world c) (rigidBody c) (collider c)
    (currentCapsuleHalfHeight c) (currentCharacterYOffset c)
    (animationGroupY c) (actions c) (currentAnimation c) (currentAction c)
    (animationChangeCooldown c) (isGrounded c) (wasGrounded c) (jumpPhase c)
    v (isAttacking c) (isRolling c) (isCrouching c) (crouchTransitioning c)
    (ceilingClearanceTimer c) (rollDirection c) (rollSpeed c)
    (characterRotationTarget c) (rotationTarget c) (keys c) (jumpPressed c)
    (rollPressed c) (leftFoot c) (rightFoot c) (footstepCooldown c)
    (footstepParticles c) (effects c).

Definition set_isAttacking (v : bool) (c : CharacterController) :=
  Build_CharacterController (config c) (world c) (rigidBody c) (collider c)
    (currentCapsuleHalfHeight c) (currentCharacterYOffset c)
    (animationGroupY c) (actions c) (currentAnimation c) (currentAction c)
    (animationChangeCooldown c) (isGrounded c) (wasGrounded c) (jumpPhase c)
    (combatMode c) v (isRolling c) (isCrouching c) (crouchTransitioning c)
    (ceilingClearanceTimer c) (rollDirection c) (rollSpeed c)
    (characterRotationTarget c) (rotationTarget c) (keys c) (jumpPressed c)
    (rollPressed c) (leftFoot c) (rightFoot c) (footstepCooldown c)
    (footstepParticles c) (effects c).

Definition set_isRolling (v : bool) (c : CharacterController) :=
  Build_CharacterController (config c) (world c) (rigidBody c) (collider c)
    (currentCapsuleHalfHeight c) (currentCharacterYOffset c)
    (animationGroupY c) (actions c) (currentAnimation c) (currentAction c)
    (animationChangeCooldown c) (isGrounded c) (wasGrounded c) (jumpPhase c)
    (combatMode c) (isAttacking c) v (isCrouching c) (crouchTransitioning c)
    (ceilingClearanceTimer c) (rollDirection c) (rollSpeed c)
    (characterRotationTarget c) (rotationTarget c) (keys c) (jumpPressed c)
    (rollPressed c) (leftFoot c) (rightFoot c) (footstepCooldown c)
    (footstepParticles c) (effects c).

Definition set_isCrouching (v : bool) (c : CharacterController) :=
  Build_CharacterController (config c) (world c) (rigidBody c) (collider c)
    (currentCapsuleHalfHeight c) (currentCharacterYOffset c)
    (animationGroupY c) (actions c) (currentAnimation c) (currentAction c)
    (animationChangeCooldown c) (isGrounded c) (wasGrounded c) (jumpPhase c)
    (combatMode c) (isAttacking c) (isRolling c) v (crouchTransitioning c)
    (ceilingClearanceTimer c) (rollDirection c) (rollSpeed c)
    (characterRotationTarget c) (rotationTarget c) (keys c) (jumpPressed c)
    (rollPressed c) (leftFoot c) (rightFoot c) (footstepCooldown c)
    (footstepParticles c) (effects c).

Definition set_crouchTransitioning (v : bool) (c : CharacterController) :=
  Build_CharacterController (config c) (world c) (rigidBody c) (collider c)
    (currentCapsuleHalfHeight c) (currentCharacterYOffset c)
    (animationGroupY c) (actions c) (currentAnimation c) (currentAction c)
    (animationChangeCooldown c) (isGrounded c) (wasGrounded c) (jumpPhase c)
    (combatMode c) (isAttacking c) (isRolling c) (isCrouching c) v
    (ceilingClearanceTimer c) (rollDirection c) (rollSpeed c)
    (characterRotationTarget c) (rotationTarget c) (keys c) (jumpPressed c)
    (rollPressed c) (leftFoot c) (rightFoot c) (footstepCooldown c)
    (footstepParticles c) (effects c).

Definition set_ceilingClearanceTimer (v : Q) (c : CharacterController) :=
  Build_CharacterController (config c) (world c) (rigidBody c) (collider c)
    (currentCapsuleHalfHeight c) (currentCharacterYOffset c)
    (animationGroupY c) (actions c) (currentAnimation c) (currentAction c)
    (animationChangeCooldown c) (isGrounded c) (wasGrounded c) (jumpPhase c)
    (combatMode c) (isAttacking c) (isRolling c) (isCrouching c)
    (crouchTransitioning c) v (rollDirection c) (rollSpeed c)
    (characterRotationTarget c) (rotationTarget c) (keys c) (jumpPressed c)
    (rollPressed c) (leftFoot c) (rightFoot c) (footstepCooldown c)
    (footstepParticles c) (effects c).

Definition set_rollDirection (v : option Q) (c : CharacterController) :=
  Build_CharacterController (config c) (world c) (rigidBody c) (collider c)
    (currentCapsuleHalfHeight c) (currentCharacterYOffset c)
    (animationGroupY c) (actions c) (currentAnimation c) (currentAction c)
    (animationChangeCooldown c) (isGrounded c) (wasGrounded c) (jumpPhase c)
    (combatMode c) (isAttacking c) (isRolling c) (isCrouching c)
    (crouchTransitioning c) (ceilingClearanceTimer c) v (rollSpeed c)
    (characterRotationTarget c) (rotationTarget c) (keys c) (jumpPressed c)
    (rollPressed c) (leftFoot c) (rightFoot c) (footstepCooldown c)
    (footstepParticles c) (effects c).

Definition set_rollSpeed (v : option Q) (c : CharacterController) :=
  Build_CharacterController (config c) (world c) (rigidBody c) (collider c)
    (currentCapsuleHalfHeight c) (currentCharacterYOffset c)
    (animationGroupY c) (actions c) (currentAnimation c) (currentAction c)
    (animationChangeCooldown c) (isGrounded c) (wasGrounded c) (jumpPhase c)
    (combatMode c) (isAttacking c) (isRolling c) (isCrouching c)
    (crouchTransitioning c) (ceilingClearanceTimer c) (rollDirection c) v
    (characterRotationTarget c) (rotationTarget c) (keys c) (jumpPressed c)
    (rollPressed c) (leftFoot c) (rightFoot c) (footstepCooldown c)
    (footstepParticles c) (effects c).

Definition set_characterRotationTarget (v : Q) (c : CharacterController) :=
  Build_CharacterController (config c) (world c) (rigidBody c) (collider c)
    (currentCapsuleHalfHeight c) (currentCharacterYOffset c)
    (animationGroupY c) (actions c) (currentAnimation c) (currentAction c)
    (animationChangeCooldown c) (isGrounded c) (wasGrounded c) (jumpPhase c)
    (combatMode c) (isAttacking c) (isRolling c) (isCrouching c)
    (crouchTransitioning c) (ceilingClearanceTimer c) (rollDirection c)
    (rollSpeed c) v (rotationTarget c) (keys c) (jumpPressed c) (rollPressed
    c) (leftFoot c) (rightFoot c) (footstepCooldown c) (footstepParticles c)
    (effects c).

Definition set_rotationTarget (v : Q) (c : CharacterController) :=
  Build_CharacterController (config c) (world c) (rigidBody c) (collider c)
    (currentCapsuleHalfHeight c) (currentCharacterYOffset c)
    (animationGroupY c) (actions c) (currentAnimation c) (currentAction c)
    (animationChangeCooldown c) (isGrounded c) (wasGrounded c) (jumpPhase c)
    (combatMode c) (isAttacking c) (isRolling c) (isCrouching c)
    (crouchTransitioning c) (ceilingClearanceTimer c) (rollDirection c)
    (rollSpeed c) (characterRotationTarget c) v (keys c) (jumpPressed c)
    (rollPressed c) (leftFoot c) (rightFoot c) (footstepCooldown c)
    (footstepParticles c) (effects c).

Definition set_keys (v : Keys) (c : CharacterController) :=
  Build_CharacterController (config c) (world c) (rigidBody c) (collider c)
    (currentCapsuleHalfHeight c) (currentCharacterYOffset c)
    (animationGroupY c) (actions c) (currentAnimation c) (currentAction c)
    (animationChangeCooldown c) (isGrounded c) (wasGrounded c) (jumpPhase c)
    (combatMode c) (isAttacking c) (isRolling c) (isCrouching c)
    (crouchTransitioning c) (ceilingClearanceTimer c) (rollDirection c)
    (rollSpeed c) (characterRotationTarget c) (rotationTarget c) v
    (jumpPressed c) (rollPressed c) (leftFoot c) (rightFoot c)
    (footstepCooldown c) (footstepParticles c) (effects c).

Definition set_jumpPressed (v : bool) (c : CharacterController) :=
  Build_CharacterController (config c) (world c) (rigidBody c) (collider c)
    (currentCapsuleHalfHeight c) (currentCharacterYOffset c)
    (animationGroupY c) (actions c) (currentAnimation c) (currentAction c)
    (animationChangeCooldown c) (isGrounded c) (wasGrounded c) (jumpPhase c)
    (combatMode c) (isAttacking c) (isRolling c) (isCrouching c)
    (crouchTransitioning c) (ceilingClearanceTimer c) (rollDirection c)
    (rollSpeed c) (characterRotationTarget c) (rotationTarget c) (keys c) v
    (rollPressed c) (leftFoot c) (rightFoot c) (footstepCooldown c)
    (footstepParticles c) (effects c).

Definition set_rollPressed (v : bool) (c : CharacterController) :=
  Build_CharacterController (config c) (world c) (rigidBody c) (collider c)
    (currentCapsuleHalfHeight c) (currentCharacterYOffset c)
    (animationGroupY c) (actions c) (currentAnimation c) (currentAction c)
    (animationChangeCooldown c) (isGrounded c) (wasGrounded c) (jumpPhase c)
    (combatMode c) (isAttacking c) (isRolling c) (isCrouching c)
    (crouchTransitioning c) (ceilingClearanceTimer c) (rollDirection c)
    (rollSpeed c) (characterRotationTarget c) (rotationTarget c) (keys c)
    (jumpPressed c) v (leftFoot c) (rightFoot c) (footstepCooldown c)
    (footstepParticles c) (effects c).

Definition set_leftFoot (v : FootTrack) (c : CharacterController) :=
  Build_CharacterController (config c) (world c) (rigidBody c) (collider c)
    (currentCapsuleHalfHeight c) (currentCharacterYOffset c)
    (animationGroupY c) (actions c) (currentAnimation c) (currentAction c)
    (animationChangeCooldown c) (isGrounded c) (wasGrounded c) (jumpPhase c)
    (combatMode c) (isAttacking c) (isRolling c) (isCrouching c)
    (crouchTransitioning c) (ceilingClearanceTimer c) (rollDirection c)
    (rollSpeed c) (characterRotationTarget c) (rotationTarget c) (keys c)
    (jumpPressed c) (rollPressed c) v (rightFoot c) (footstepCooldown c)
    (footstepParticles c) (effects c).

Definition set_rightFoot (v : FootTrack) (c : CharacterController) :=
  Build_CharacterController (config c) (world c) (rigidBody c) (collider c)
    (currentCapsuleHalfHeight c) (currentCharacterYOffset c)
    (animationGroupY c) (actions c) (currentAnimation c) (currentAction c)
    (animationChangeCooldown c) (isGrounded c) (wasGrounded c) (jumpPhase c)
    (combatMode c) (isAttacking c) (isRolling c) (isCrouching c)
    (crouchTransitioning c) (ceilingClearanceTimer c) (rollDirection c)
    (rollSpeed c) (characterRotationTarget c) (rotationTarget c) (keys c)
    (jumpPressed c) (rollPressed c) (leftFoot c) v (footstepCooldown c)
    (footstepParticles c) (effects c).

Definition set_footstepCooldown (v : Q) (c : CharacterController) :=
  Build_CharacterController (config c) (world c) (rigidBody c) (collider c)
    (currentCapsuleHalfHeight c) (currentCharacterYOffset c)
    (animationGroupY c) (actions c) (currentAnimation c) (currentAction c)
    (animationChangeCooldown c) (isGrounded c) (wasGrounded c) (jumpPhase c)
    (combatMode c) (isAttacking c) (isRolling c) (isCrouching c)
    (crouchTransitioning c) (ceilingClearanceTimer c) (rollDirection c)
    (rollSpeed c) (characterRotationTarget c) (rotationTarget c) (keys c)
    (jumpPressed c) (rollPressed c) (leftFoot c) (rightFoot c) v
    (footstepParticles c) (effects c).

Definition set_footstepParticles (v : bool) (c : CharacterController) :=
  Build_CharacterController (config c) (world c) (rigidBody c) (collider c)
    (currentCapsuleHalfHeight c) (currentCharacterYOffset c)
    (animationGroupY c) (actions c) (currentAnimation c) (currentAction c)
    (animationChangeCooldown c) (isGrounded c) (wasGrounded c) (jumpPhase c)
    (combatMode c) (isAttacking c) (isRolling c) (isCrouching c)
    (crouchTransitioning c) (ceilingClearanceTimer c) (rollDirection c)
    (rollSpeed c) (characterRotationTarget c) (rotationTarget c) (keys c)
    (jumpPressed c) (rollPressed c) (leftFoot c) (rightFoot c)
    (footstepCooldown c) v (effects c).

Definition set_effects (v : list Effect) (c : CharacterController) :=
  Build_CharacterController (config c) (world c) (rigidBody c) (collider c)
    (currentCapsuleHalfHeight c) (currentCharacterYOffset c)
    (animationGroupY c) (actions c) (currentAnimation c) (currentAction c)
    (animationChangeCooldown c) (isGrounded c) (wasGrounded c) (jumpPhase c)
    (combatMode c) (isAttacking c) (isRolling c) (isCrouching c)
    (crouchTransitioning c) (ceilingClearanceTimer c) (rollDirection c)
    (rollSpeed c) (characterRotationTarget c) (rotationTarget c) (keys c)
    (jumpPressed c) (rollPressed c) (leftFoot c) (rightFoot c)
    (footstepCooldown c) (footstepParticles c) v.

Definition emit (e : Effect) (c : CharacterController) : CharacterController :=
  set_effects (effects c ++ [e]) c.

Definition emits (es : list Effect) (c : CharacterController) : CharacterController :=
  set_effects (effects c ++ es) c.

Definition zeroVec : Vec3 := {| v_x := 0; v_y := 0; v_z := 0 |}.

Definition noKeys : Keys :=
  {| key_forward := false; key_backward := false; key_left := false;
     key_right := false; key_run := false; key_jump := false;
     key_crouch := false; key_dance := false; key_roll := false;
     key_walkBackward := false |}.

Definition defaultConfig (M : MathLib) : Config :=
  {| WALK_SPEED := 1.8;
     RUN_SPEED := 4;
     ROTATION_SPEED := MdegToRad M 0.5;
     JUMP_FORCE := 6;
     capsuleHeight := 1.4;
     capsuleRadius := 0.3;
     yPosition := -0.99;
     enableFootstepAudio := true;
     enableFootstepParticles := true |}.

Definition newFootTrack : FootTrack :=
  {| ft_bone := false; ft_prevPosition := zeroVec; ft_initialized := false;
     ft_wasGrounded := false; ft_prevToi := 1 |}.

(** The fields the constructor leaves, for a given world handle. *)
Definition constructor (M : MathLib) (w : option World) : CharacterController :=
  {| config := defaultConfig M;
     world := w;
     rigidBody := None;
     collider := None;
     currentCapsuleHalfHeight := capsuleHeight (defaultConfig M) / 2;
     currentCharacterYOffset := yPosition (defaultConfig M);
     animationGroupY := 0;
     actions := [];
     currentAnimation := idle;
     currentAction := None;
     animationChangeCooldown := 0;
     isGrounded := true;
     wasGrounded := false;
     jumpPhase := phaseNone;
     combatMode := false;
     isAttacking := false;
     isRolling := false;
     isCrouching := false;
     crouchTransitioning := false;
     ceilingClearanceTimer := -1;
     rollDirection := None;
     rollSpeed := None;
     characterRotationTarget := 0;
     rotationTarget := 0;
     keys := noKeys;
     jumpPressed := false;
     rollPressed := false;
     leftFoot := newFootTrack;
     rightFoot := newFootTrack;
     footstepCooldown := 0;
     footstepParticles := false;
     effects := [] |}.

Definition notFoundMessage (clip : string) : string :=
  "Animation " ++ clip ++ " not found".

(** [setAnimation(animName)] *)
Definition priorityAnimations (a : Anim) : bool :=
  match a with
  | jumpStart | jumpLoop | jumpLand | roll => true
  | _ => false
  end.

Definition hasAction (c : CharacterController) (clip : string) : bool :=
  existsb (String.eqb clip) (actions c).

Definition setAnimation (animName : Anim) (c : CharacterController)
  : CharacterController :=
  if Anim_eqb (currentAnimation c) animName then c
  else
    let isPriority := priorityAnimations animName in
    if negb isPriority && Qgtb (animationChangeCooldown c) 0 then c
    else
      let mappedName := animationMap animName in
      if negb (hasAction c mappedName) then
        emit (ConsoleWarn (notFoundMessage mappedName)) c
      else
        let c := set_currentAction (Some mappedName) c in
        let c := set_currentAnimation animName c in
        if negb isPriority then set_animationChangeCooldown 0.1 c else c.

(** The end of a successful [loadModel()]: the clips of the file become
    [this.actions], the foot bones found are recorded, the idle animation
    starts and the particle system is created. *)
Definition loadModel (clips : list string) (leftBone rightBone : bool)
    (c : CharacterController) : CharacterController :=
  let c := set_animationGroupY (yPosition (config c)) c in
  let c := set_actions clips c in
  let c := set_leftFoot
             {| ft_bone := leftBone;
                ft_prevPosition := ft_prevPosition (leftFoot c);
                ft_initialized := ft_initialized (leftFoot c);
                ft_wasGrounded := ft_wasGrounded (leftFoot c);
                ft_prevToi := ft_prevToi (leftFoot c) |} c in
  let c := set_rightFoot
             {| ft_bone := rightBone;
                ft_prevPosition := ft_prevPosition (rightFoot c);
                ft_initialized := ft_initialized (rightFoot c);
                ft_wasGrounded := ft_wasGrounded (rightFoot c);
                ft_prevToi := ft_prevToi (rightFoot c) |} c in
  let c := setAnimation idle c in
  if enableFootstepParticles (config c) then set_footstepParticles true c
  else c.

Definition capsule (hh r : Q) : Collider :=
  {| halfHeight := hh; radius := r; friction := 0.5; restitution := 0 |}.

(** [createPhysicsBody(position)] *)
Definition createPhysicsBody (position : Vec3) (c : CharacterController)
  : CharacterController :=
  match world c with
  | None => c
  | Some _ =>
      let c := set_rigidBody
                 (Some {| translation := position; linvel := zeroVec |}) c in
      let halfHeight := capsuleHeight (config c) / 2 in
      set_collider (Some (capsule halfHeight (capsuleRadius (config c)))) c
  end.

(** [updateCapsuleCollider(targetHalfHeight)] *)
Definition updateCapsuleCollider (targetHalfHeight : Q) (c : CharacterController)
  : CharacterController :=
  match rigidBody c, world c, collider c with
  | Some rb, Some _, Some _ =>
      let currentPos := translation rb in
      let currentHalfHeight := currentCapsuleHalfHeight c in
      if Qltb (Qabs (currentHalfHeight - targetHalfHeight)) 0.01 then c
      else
        (* removeCollider, createCollider *)
        let c := set_collider
                   (Some (capsule targetHalfHeight (capsuleRadius (config c)))) c in
        let c := set_currentCapsuleHalfHeight targetHalfHeight c in
        let heightDiff := currentHalfHeight - targetHalfHeight in
        let c := set_rigidBody
                   (Some {| translation :=
                              {| v_x := v_x currentPos;
                                 v_y := v_y currentPos - heightDiff;
                                 v_z := v_z currentPos |};
                            linvel := linvel rb |}) c in
        let heightChange := currentHalfHeight - targetHalfHeight in
        let c := set_currentCharacterYOffset
                   (currentCharacterYOffset c + heightChange) c in
        set_animationGroupY (currentCharacterYOffset c) c
  | _, _, _ => c
  end.

(** World-space height of the lowest point of the capsule, computed as
    the controller itself computes it (ground ray, landing fallback):
    [translation.y - currentCapsuleHalfHeight - capsuleRadius]. *)
Definition capsuleBottom (c : CharacterController) : option Q :=
  match rigidBody c with
  | Some rb =>
      Some (v_y (translation rb) - currentCapsuleHalfHeight c
            - capsuleRadius (config c))
  | None => None
  end.

(** [hit.toi ?? hit.timeOfImpact ?? hit.time_of_impact] *)
Definition hitToiOf (hit : RawHit) : option Q :=
  nullish (nullish (toi hit) (timeOfImpact hit)) (time_of_impact hit).

Definition down : Vec3 := {| v_x := 0; v_y := -1; v_z := 0 |}.
Definition up : Vec3 := {| v_x := 0; v_y := 1; v_z := 0 |}.

(** [checkGroundedRapier()] *)
Definition checkGroundedRapier (c : CharacterController) : Result bool :=
  match rigidBody c, world c with
  | Some rb, Some w =>
      let position := translation rb in
      let currentHalfHeight := currentCapsuleHalfHeight c in
      let rayOrigin :=
        {| v_x := v_x position;
           v_y := v_y position - currentHalfHeight
                  - capsuleRadius (config c) + 0.05;
           v_z := v_z position |} in
      let rayLength := 0.2 in
      match castRay w rayOrigin down rayLength with
      | Throws => Throws
      | Returns (Some hit) =>
          match hitToiOf hit with
          | Some t => Returns (Qleb t rayLength)
          | None => Returns false
          end
      | Returns None => Returns false
      end
  | _, _ => Returns false
  end.

(** [checkCeilingClearance()] *)
Definition checkCeilingClearance (c : CharacterController) : Result bool :=
  match rigidBody c, world c with
  | Some rb, Some w =>
      let position := translation rb in
      let crouchHalfHeight := (capsuleHeight (config c) * 0.5) / 2 in
      let standingHalfHeight := capsuleHeight (config c) / 2 in
      let rayOrigin :=
        {| v_x := v_x position;
           v_y := v_y position + crouchHalfHeight + capsuleRadius (config c);
           v_z := v_z position |} in
      let safetyBuffer := 0.5 in
      let rayLength := standingHalfHeight - crouchHalfHeight + safetyBuffer in
      match castRay w rayOrigin up rayLength with
      | Throws => Throws
      | Returns (Some _) => Returns false
      | Returns None => Returns true
      end
  | _, _ => Returns true
  end.

Definition footRayWarning : string := "Footstep raycast error:".

(** [castFootRay(position)]: the result, and what the [catch] block logs. *)
Definition castFootRay (c : CharacterController) (position : Vec3)
  : option FootHit * list Effect :=
  match world c, rigidBody c with
  | Some w, Some _ =>
      let rayOrigin :=
        {| v_x := v_x position; v_y := v_y position + 0.05;
           v_z := v_z position |} in
      let rayDirection := down in
      let rayLength := 0.35 in
      match castRayAndGetNormal w rayOrigin rayDirection rayLength with
      | Throws => (None, [ConsoleWarn footRayWarning])
      | Returns None => (None, [])
      | Returns (Some hit) =>
          match hitToiOf hit with
          | Some hitToi =>
              if Qleb hitToi rayLength then
                let point :=
                  {| v_x := v_x rayOrigin + v_x rayDirection * hitToi;
                     v_y := v_y rayOrigin + v_y rayDirection * hitToi;
                     v_z := v_z rayOrigin + v_z rayDirection * hitToi |} in
                let nrm :=
                  match nullish (nullish (normal hit) (normal1 hit))
                                (normal2 hit) with
                  | Some n => n
                  | None => up
                  end in
                let slopeFactor := 1 - Qmax 0 (Qmin 1 (v_y nrm)) in
                (Some {| hitToi := hitToi; slopeFactor := slopeFactor;
                         point := point; hitNormal := nrm |}, [])
              else (None, [])
          | None => (None, [])
          end
      end
  | _, _ => (None, [])
  end.

(** [playFootstepSound(volumeMultiplier)].  The clip is drawn at random
    among the four of [footstepSoundPaths]; the log keeps the volume. *)
Definition playFootstepSound (volumeMultiplier : Q) (c : CharacterController)
  : CharacterController :=
  if negb (enableFootstepAudio (config c)) then c
  else emit (PlayFootstepSound (0.3 * volumeMultiplier)) c.

(** Where the skeleton is in a frame: the world positions
    [getWorldPosition] reads from the two foot bones and from
    [this.character]. *)
Record Pose := {
  leftFootWorldPosition : Vec3;
  rightFootWorldPosition : Vec3;
  characterWorldPosition : Vec3
}.

Definition spawn (hit : FootHit) : Effect :=
  SpawnParticle (point hit) (hitNormal hit) (slopeFactor hit).

(** The four motion heuristics of a footstep, from the foot's previous
    and current world position, the frame time and the slope factor of
    the hit. *)
Definition footMotion (M : MathLib) (prev worldPosition : Vec3)
    (delta slope : Q) : bool :=
  let verticalVelocity :=
    (v_y worldPosition - v_y prev) / Qmax delta 1e-4 in
  let verticalDelta := v_y prev - v_y worldPosition in
  let movementDelta :=
    Msqrt M ((v_x worldPosition - v_x prev) ^ 2
             + (v_z worldPosition - v_z prev) ^ 2) in
  Qltb verticalVelocity (-0.02) || Qgtb verticalDelta 0.006
  || Qgtb slope 0.35 || Qgtb movementDelta 0.02.

(** [groundedFoot]: a numeric time of impact below the slope-adjusted
    threshold. *)
Definition groundedFoot (hit : option FootHit) : bool :=
  match hit with
  | Some h => Qltb (hitToi h) (if Qgtb (slopeFactor h) 0.4 then 0.28 else 0.23)
  | None => false
  end.

(** What one foot's block of [updateFootsteps] produces. *)
Record FootResult := {
  fr_track : FootTrack;          (* the foot's fields afterwards *)
  fr_hit : option FootHit;       (* leftHit / rightHit *)
  fr_cooldown : Q;               (* this.footstepCooldown afterwards *)
  fr_log : list Effect           (* warnings of the foot ray *)
}.

(** The block "Process left foot" / "Process right foot" of
    [updateFootsteps]; the two blocks differ in the foot's name only. *)
Definition processFoot (M : MathLib) (c : CharacterController) (ft : FootTrack)
    (worldPosition : Vec3) (delta finalCooldown cooldown : Q) : FootResult :=
  if negb (ft_bone ft) then
    {| fr_track := ft; fr_hit := None; fr_cooldown := cooldown; fr_log := [] |}
  else if negb (ft_initialized ft) then
    {| fr_track := {| ft_bone := ft_bone ft;
                      ft_prevPosition := worldPosition;
                      ft_initialized := true;
                      ft_wasGrounded := ft_wasGrounded ft;
                      ft_prevToi := ft_prevToi ft |};
       fr_hit := None; fr_cooldown := cooldown; fr_log := [] |}
  else
    let (hit, log) := castFootRay c worldPosition in
    let slope := match hit with Some h => slopeFactor h | None => 0 end in
    let grounded := groundedFoot hit in
    let triggered :=
      grounded && negb (ft_wasGrounded ft) && Qleb cooldown 0
      && footMotion M (ft_prevPosition ft) worldPosition delta slope in
    {| fr_track := {| ft_bone := ft_bone ft;
                      ft_prevPosition := worldPosition;
                      ft_initialized := ft_initialized ft;
                      ft_wasGrounded := grounded;
                      ft_prevToi :=
                        match hit with
                        | Some h => if grounded then hitToi h else 1
                        | None => 1
                        end |};
       fr_hit := if triggered then hit else None;
       fr_cooldown := if triggered then finalCooldown else cooldown;
       fr_log := log |}.

Definition isSome {A} (o : option A) : bool :=
  match o with Some _ => true | None => false end.

Definition optList {A} (o : option A) : list A :=
  match o with Some a => [a] | None => [] end.

(** [updateFootsteps(delta)].  [this.rigidBody.linvel()] throws when
    there is no rigid body. *)
Definition updateFootsteps (M : MathLib) (delta : Q) (pose : Pose)
    (c : CharacterController) : Result CharacterController :=
  if negb (footstepAnimations (currentAnimation c))
     || negb (isGrounded c)
     || negb (JumpPhase_eqb (jumpPhase c) phaseNone)
     || isRolling c
  then Returns c
  else
    match rigidBody c with
    | None => Throws
    | Some rb =>
        let vel := linvel rb in
        let horizontalSpeed :=
          Msqrt M (v_x vel * v_x vel + v_z vel * v_z vel) in
        let isRunning := Qgtb horizontalSpeed (WALK_SPEED (config c) * 1.5) in
        let baseCooldown := if isRunning then 0.2 else 0.25 in
        let speedFactor := Qmin (horizontalSpeed / RUN_SPEED (config c)) 1.5 in
        let adjustedCooldown := baseCooldown / Qmax speedFactor 0.5 in
        let minCooldown := if isRunning then 0.12 else 0.18 in
        let finalCooldown := Qmax adjustedCooldown minCooldown in
        (* left foot *)
        let l := processFoot M c (leftFoot c) (leftFootWorldPosition pose)
                   delta finalCooldown (footstepCooldown c) in
        let c := emits (fr_log l)
                   (set_footstepCooldown (fr_cooldown l)
                      (set_leftFoot (fr_track l) c)) in
        (* right foot *)
        let r := processFoot M c (rightFoot c) (rightFootWorldPosition pose)
                   delta finalCooldown (footstepCooldown c) in
        let c := emits (fr_log r)
                   (set_footstepCooldown (fr_cooldown r)
                      (set_rightFoot (fr_track r) c)) in
        let leftHit := fr_hit l in
        let rightHit := fr_hit r in
        if isSome leftHit || isSome rightHit then
          let volumeMultiplier :=
            if isRunning then 1.2
            else if Anim_eqb (currentAnimation c) crouchWalk then 0.7
            else 1.0 in
          let c := playFootstepSound volumeMultiplier c in
          if enableFootstepParticles (config c) && footstepParticles c then
            let hitsToProcess := optList leftHit ++ optList rightHit in
            Returns (emits (map spawn hitsToProcess) c)
          else Returns c
        else Returns c
    end.

(** *** The frame update, section by section *)

(** "Crouch logic", first conditional: the clearance timer. *)
Definition crouchTimer (hasCeilingClearance : bool) (delta : Q)
    (c : CharacterController) : CharacterController :=
  if key_crouch (keys c) then set_ceilingClearanceTimer (-1) c
  else if negb hasCeilingClearance && isCrouching c then
    set_ceilingClearanceTimer 0 c
  else if hasCeilingClearance && isCrouching c
          && Qgeb (ceilingClearanceTimer c) 0 then
    set_ceilingClearanceTimer (ceilingClearanceTimer c + delta) c
  else if negb (isCrouching c) then set_ceilingClearanceTimer (-1) c
  else c.

Definition standUpDelay : Q := 0.5.

(** "Crouch logic", second conditional: [shouldBeCrouched]. *)
Definition crouchDecision (hasCeilingClearance : bool) (c : CharacterController)
  : CharacterController * bool :=
  if key_crouch (keys c) then (set_ceilingClearanceTimer (-1) c, true)
  else if negb hasCeilingClearance then (c, true)
  else if Qgeb (ceilingClearanceTimer c) 0
          && Qltb (ceilingClearanceTimer c) standUpDelay then (c, true)
  else (c, false).

(** The hits the landing burst spawns particles at. *)
Definition landingHits (pose : Pose) (c : CharacterController)
  : list FootHit * list Effect :=
  let (lh, llog) :=
    if ft_bone (leftFoot c) then castFootRay c (leftFootWorldPosition pose)
    else (None, []) in
  let (rh, rlog) :=
    if ft_bone (rightFoot c) then castFootRay c (rightFootWorldPosition pose)
    else (None, []) in
  let hits := optList lh ++ optList rh in
  let (hits, clog) :=
    if (List.length hits =? 0)%nat then
      let (ch, clog) := castFootRay c (characterWorldPosition pose) in
      (hits ++ optList ch, clog)
    else (hits, []) in
  let hits :=
    if (List.length hits =? 0)%nat then
      match rigidBody c with
      | Some rb =>
          let position := translation rb in
          let bottomPos :=
            {| v_x := v_x position;
               v_y := v_y position - currentCapsuleHalfHeight c
                      - capsuleRadius (config c);
               v_z := v_z position |} in
          [ {| hitToi := 0; slopeFactor := 0; point := bottomPos;
               hitNormal := up |} ]
      | None => hits
      end
    else hits in
  (hits, llog ++ rlog ++ clog).

Definition scaleXZ (k : Q) (vel : Vec3) : Vec3 :=
  {| v_x := v_x vel * k; v_y := v_y vel; v_z := v_z vel * k |}.

(** "Landing detection" *)
Definition landingDetection (grounded : bool) (pose : Pose)
    (cv : CharacterController * Vec3) : CharacterController * Vec3 :=
  let c := fst cv in
  let vel := snd cv in
  if negb (wasGrounded c) && grounded then
    let c := set_jumpPhase phaseLand c in
    let c := setAnimation jumpLand c in
    let vel := scaleXZ 0.2 vel in
    let c :=
      if Qleb (footstepCooldown c) 0.05 then
        set_footstepCooldown 0.25 (playFootstepSound 1.0 c)
      else c in
    let c :=
      if enableFootstepParticles (config c) && footstepParticles c then
        let (hits, log) := landingHits pose c in
        emits (map spawn hits) (emits log c)
      else c in
    (emit (SetTimeout LandToNone 300) c, vel)
  else (c, vel).

(** "Roll input" *)
Definition rollInput (M : MathLib) (grounded shouldBeCrouched : bool)
    (cv : CharacterController * Vec3) : CharacterController * Vec3 :=
  let c := fst cv in
  let vel := snd cv in
  if key_roll (keys c) && negb (rollPressed c) && grounded
     && negb shouldBeCrouched && negb (key_dance (keys c))
     && negb (isAttacking c) && negb (isRolling c)
  then
    let c := set_rollPressed true c in
    let c := set_isRolling true c in
    let c := set_jumpPhase phaseNone c in
    let c := setAnimation roll c in
    let rollHalfHeight := capsuleRadius (config c) in
    let c := updateCapsuleCollider rollHalfHeight c in
    let rollSpeed := RUN_SPEED (config c) * 1.2 in
    let facingRotation := rotationTarget c + characterRotationTarget c in
    let c := set_rollDirection (Some facingRotation) c in
    let c := set_rollSpeed (Some rollSpeed) c in
    let vel := {| v_x := Msin M facingRotation * rollSpeed;
                  v_y := v_y vel;
                  v_z := Mcos M facingRotation * rollSpeed |} in
    (emit (SetTimeout RollEnd 800) c, vel)
  else if negb (key_roll (keys c)) then (set_rollPressed false c, vel)
  else (c, vel).

(** "Falling detection", then [this.wasGrounded = grounded]. *)
Definition fallingDetection (grounded shouldBeCrouched : bool)
    (c : CharacterController) : CharacterController :=
  let c :=
    if negb grounded && JumpPhase_eqb (jumpPhase c) phaseNone
       && negb shouldBeCrouched && negb (crouchTransitioning c)
       && negb (isRolling c)
    then setAnimation jumpLoop (set_jumpPhase phaseLoop c)
    else c in
  set_wasGrounded grounded c.

(** "Dance" *)
Definition danceInput (c : CharacterController) : CharacterController :=
  if key_dance (keys c) then setAnimation dance c else c.

(** "Update capsule on crouch state change" *)
Definition crouchChange (shouldBeCrouched : bool) (c : CharacterController)
  : CharacterController :=
  if negb (Bool.eqb shouldBeCrouched (isCrouching c)) then
    let standingHalfHeight := capsuleHeight (config c) / 2 in
    let crouchHalfHeight := (capsuleHeight (config c) * 0.5) / 2 in
    let c := set_crouchTransitioning true c in
    let c := set_jumpPhase phaseNone c in
    let c := emit (SetTimeout CrouchUnlock 200) c in
    let c :=
      if shouldBeCrouched then updateCapsuleCollider crouchHalfHeight c
      else setAnimation idle (updateCapsuleCollider standingHalfHeight c) in
    set_isCrouching shouldBeCrouched c
  else c.

(** The jump trigger shared by the two branches of the movement code;
    [intended] is the velocity the moving branch also assigns. *)
Definition jumpTrigger (grounded : bool) (intended : option (Q * Q))
    (cv : CharacterController * Vec3) : CharacterController * Vec3 :=
  let c := fst cv in
  let vel := snd cv in
  if key_jump (keys c) && grounded && negb (jumpPressed c) then
    let c := set_jumpPressed true c in
    let vel :=
      match intended with
      | Some (ix, iz) =>
          {| v_x := ix; v_y := JUMP_FORCE (config c); v_z := iz |}
      | None =>
          {| v_x := v_x vel; v_y := JUMP_FORCE (config c); v_z := v_z vel |}
      end in
    let c := set_jumpPhase phaseStart c in
    let c := setAnimation jumpStart c in
    (emit (SetTimeout JumpStartToLoop 200) c, vel)
  else if negb (key_jump (keys c)) then (set_jumpPressed false c, vel)
  else (c, vel).

(** [if (Math.abs(v) < 0.01) v = 0] *)
Definition snap (v : Q) : Q := if Qltb (Qabs v) 0.01 then 0 else v.

(** [movement.x] and [movement.z] after the four key tests: a later
    assignment overrides an earlier one. *)
Definition movementX (k : Keys) : Q :=
  if key_right k then -1 else if key_left k then 1 else 0.

Definition movementZ (k : Keys) : Q :=
  if key_backward k then -1 else if key_forward k then 1 else 0.

(** "Speed" *)
Definition speedOf (shouldBeCrouched : bool) (c : CharacterController) : Q :=
  if shouldBeCrouched then WALK_SPEED (config c) * 0.5
  else if key_run (keys c) then RUN_SPEED (config c)
  else WALK_SPEED (config c).

(** [movement.walkBackwardMode] is initialised to [false] and never
    assigned. *)
Definition walkBackwardMode : bool := false.

(** [intendedVelX], [intendedVelZ] *)
Definition intendedVelocity (M : MathLib) (movement_x movement_z speed : Q)
    (c : CharacterController) : Q * Q :=
  let baseMovementAngle :=
    if walkBackwardMode then Matan2 M movement_x 1
    else Matan2 M movement_x movement_z in
  let movementRotation := rotationTarget c + baseMovementAngle in
  let intendedVelX := Msin M movementRotation * speed in
  let intendedVelZ := Mcos M movementRotation * speed in
  if walkBackwardMode && Qltb movement_z 0
  then (- intendedVelX, - intendedVelZ)
  else (intendedVelX, intendedVelZ).

(** "Movement animations" *)
Definition movementAnimation (grounded shouldBeCrouched : bool) (speed : Q)
    (c : CharacterController) : CharacterController :=
  let isInJumpPhase := negb (JumpPhase_eqb (jumpPhase c) phaseNone) in
  if grounded && negb isInJumpPhase && negb (key_dance (keys c))
     && negb (isAttacking c) && negb (isRolling c)
  then
    if shouldBeCrouched then setAnimation crouchWalk c
    else if combatMode c then setAnimation swordIdle c
    else if Qeq_bool speed (RUN_SPEED (config c)) then setAnimation run c
    else if walkBackwardMode then setAnimation walkBackwards c
    else setAnimation walk c
  else c.

(** "Idle animations" *)
Definition idleAnimation (grounded shouldBeCrouched : bool)
    (c : CharacterController) : CharacterController :=
  let isInJumpPhaseIdle := negb (JumpPhase_eqb (jumpPhase c) phaseNone) in
  if grounded && negb isInJumpPhaseIdle && negb (key_dance (keys c))
     && negb (isAttacking c) && negb (isRolling c)
  then
    if shouldBeCrouched then setAnimation crouchIdle c
    else if combatMode c then setAnimation swordIdle c
    else setAnimation idle c
  else c.

(** The branch taken when a movement key is held. *)
Definition movingBranch (M : MathLib) (grounded shouldBeCrouched : bool)
    (movement_x movement_z speed : Q)
    (cv : CharacterController * Vec3) : CharacterController * Vec3 :=
  let intended :=
    intendedVelocity M movement_x movement_z speed (fst cv) in
  let c :=
    set_characterRotationTarget
      (if walkBackwardMode then Matan2 M movement_x 1
       else Matan2 M movement_x movement_z) (fst cv) in
  let vel :=
    if grounded && negb (JumpPhase_eqb (jumpPhase c) phaseLand)
       && negb (isRolling c)
    then {| v_x := fst intended; v_y := v_y (snd cv); v_z := snd intended |}
    else snd cv in
  let cv := jumpTrigger grounded (Some intended) (c, vel) in
  (movementAnimation grounded shouldBeCrouched speed (fst cv), snd cv).

(** [vel.x *= 0.85; vel.z *= 0.85], each snapped to 0 below 0.01. *)
Definition damp (vel : Vec3) : Vec3 :=
  {| v_x := snap (v_x vel * 0.85); v_y := v_y vel;
     v_z := snap (v_z vel * 0.85) |}.

(** The branch "No movement". *)
Definition idleBranch (grounded shouldBeCrouched : bool)
    (cv : CharacterController * Vec3) : CharacterController * Vec3 :=
  let vel :=
    if grounded && negb (isRolling (fst cv)) then damp (snd cv)
    else snd cv in
  let cv := jumpTrigger grounded None (fst cv, vel) in
  (idleAnimation grounded shouldBeCrouched (fst cv), snd cv).

(** "Movement input" up to the end of the movement / no-movement
    conditional. *)
Definition movementInput (M : MathLib) (grounded shouldBeCrouched : bool)
    (cv : CharacterController * Vec3) : CharacterController * Vec3 :=
  let movement_x := movementX (keys (fst cv)) in
  let movement_z := movementZ (keys (fst cv)) in
  let c :=
    if negb (Qeq_bool movement_x 0) then
      set_rotationTarget
        (rotationTarget (fst cv)
         + ROTATION_SPEED (config (fst cv)) * movement_x) (fst cv)
    else fst cv in
  let speed := speedOf shouldBeCrouched c in
  if negb (Qeq_bool movement_x 0) || negb (Qeq_bool movement_z 0) then
    movingBranch M grounded shouldBeCrouched movement_x movement_z speed
      (c, snd cv)
  else idleBranch grounded shouldBeCrouched (c, snd cv).

(** "Maintain roll velocity during roll" *)
Definition rollOverride (M : MathLib) (grounded : bool)
    (cv : CharacterController * Vec3) : CharacterController * Vec3 :=
  let c := fst cv in
  let vel := snd cv in
  match rollDirection c, rollSpeed c with
  | Some d, Some s =>
      if isRolling c && grounded then
        (c, {| v_x := Msin M d * s; v_y := v_y vel; v_z := Mcos M d * s |})
      else (c, vel)
  | _, _ => (c, vel)
  end.

(** [this.rigidBody.setLinvel(vel, true)] *)
Definition setLinvel (cv : CharacterController * Vec3) : CharacterController :=
  let c := fst cv in
  let vel := snd cv in
  match rigidBody c with
  | Some rb =>
      set_rigidBody (Some {| translation := translation rb; linvel := vel |}) c
  | None => c
  end.

(** How a call of [update] ends: normally, or with an exception of the
    physics binding escaping; either way with the fields as they are then. *)
Inductive Outcome :=
| Done (c : CharacterController)
| Threw (c : CharacterController).

(** The part of [update] before the ray casts: the visual offset is
    re-applied and the two cooldowns run down. *)
Definition tickCooldowns (delta : Q) (c : CharacterController)
  : CharacterController :=
  let c := set_animationGroupY (currentCharacterYOffset c) c in
  let c := set_animationChangeCooldown
             (Qmax (animationChangeCooldown c - delta) 0) c in
  set_footstepCooldown (Qmax (footstepCooldown c - delta) 0) c.

(** A section of [update] that does not touch the local [vel]. *)
Definition onState (F : CharacterController -> CharacterController)
    (cv : CharacterController * Vec3) : CharacterController * Vec3 :=
  (F (fst cv), snd cv).

(** The sections from "Landing detection" to "Update capsule on crouch
    state change", in program order. *)
Definition transitions (M : MathLib) (pose : Pose)
    (grounded shouldBeCrouched : bool)
    (cv : CharacterController * Vec3) : CharacterController * Vec3 :=
  let cv := landingDetection grounded pose cv in
  let cv := rollInput M grounded shouldBeCrouched cv in
  let cv := onState (fallingDetection grounded shouldBeCrouched) cv in
  let cv := onState danceInput cv in
  onState (crouchChange shouldBeCrouched) cv.

(** The part of [update] after the two ray casts, from "Crouch logic" to
    [setLinvel]. *)
Definition applyFrame (M : MathLib) (delta : Q) (pose : Pose)
    (grounded hasCeilingClearance : bool) (vel : Vec3)
    (c : CharacterController) : CharacterController :=
  let c := crouchTimer hasCeilingClearance delta c in
  let shouldBeCrouched := snd (crouchDecision hasCeilingClearance c) in
  let c := fst (crouchDecision hasCeilingClearance c) in
  let cv := transitions M pose grounded shouldBeCrouched (c, vel) in
  let cv := movementInput M grounded shouldBeCrouched cv in
  let cv := rollOverride M grounded cv in
  setLinvel cv.

(** [update(delta)].  The mixer, the particle system, the character's
    visual rotation, the render interpolation and the camera are driven
    from here too; they read the fields below and write none of them. *)
Definition update (M : MathLib) (delta : Q) (pose : Pose)
    (c : CharacterController) : Outcome :=
  match rigidBody c with
  | None => Done c
  | Some rb =>
      let c := tickCooldowns delta c in
      let vel := linvel rb in
      match updateFootsteps M delta pose c with
      | Throws => Threw c
      | Returns c =>
          match checkGroundedRapier c with
          | Throws => Threw c
          | Returns hit =>
              let grounded := if crouchTransitioning c then true else hit in
              let c := set_isGrounded grounded c in
              match (if isCrouching c then checkCeilingClearance c
                     else Returns true) with
              | Throws => Threw c
              | Returns hasCeilingClearance =>
                  Done (applyFrame M delta pose grounded hasCeilingClearance
                          vel c)
              end
          end
      end
  end.

(** *** Deferred callbacks *)

(** The body of each function handed to [setTimeout]. *)
Definition fire (cb : Callback) (c : CharacterController) : CharacterController :=
  match cb with
  | AttackEnd => set_isAttacking false c
  | LandToNone =>
      if JumpPhase_eqb (jumpPhase c) phaseLand then set_jumpPhase phaseNone c
      else c
  | RollEnd =>
      let c := set_isRolling false c in
      let c := set_rollDirection None c in
      let c := set_rollSpeed None c in
      let standingHalfHeight := capsuleHeight (config c) / 2 in
      updateCapsuleCollider standingHalfHeight c
  | CrouchUnlock => set_crouchTransitioning false c
  | JumpStartToLoop =>
      if JumpPhase_eqb (jumpPhase c) phaseStart then
        setAnimation jumpLoop (set_jumpPhase phaseLoop c)
      else c
  end.

(** *** Input handlers *)

Definition set_key (f : Keys -> Keys) (c : CharacterController) :=
  set_keys (f (keys c)) c.

Definition isOneOf (key : string) (l : list string) : bool :=
  existsb (String.eqb key) l.

(** The switch shared by [handleKeyDown] ([v = true]) and [handleKeyUp]
    ([v = false]); [key] is [e.key.toLowerCase()]. *)
Definition keySwitch (v : bool) (key : string) (k : Keys) : Keys :=
  if isOneOf key ["w"; "z"; "arrowup"]%string then
    Build_Keys v (key_backward k) (key_left k) (key_right k) (key_run k)
      (key_jump k) (key_crouch k) (key_dance k) (key_roll k)
      (key_walkBackward k)
  else if isOneOf key ["s"; "arrowdown"]%string then
    Build_Keys (key_forward k) v (key_left k) (key_right k) (key_run k)
      (key_jump k) (key_crouch k) (key_dance k) (key_roll k)
      (key_walkBackward k)
  else if isOneOf key ["a"; "q"; "arrowleft"]%string then
    Build_Keys (key_forward k) (key_backward k) v (key_right k) (key_run k)
      (key_jump k) (key_crouch k) (key_dance k) (key_roll k)
      (key_walkBackward k)
  else if isOneOf key ["d"; "arrowright"]%string then
    Build_Keys (key_forward k) (key_backward k) (key_left k) v (key_run k)
      (key_jump k) (key_crouch k) (key_dance k) (key_roll k)
      (key_walkBackward k)
  else if isOneOf key ["shift"]%string then
    Build_Keys (key_forward k) (key_backward k) (key_left k) (key_right k) v
      (key_jump k) (key_crouch k) (key_dance k) (key_roll k)
      (key_walkBackward k)
  else if isOneOf key [" "]%string then
    Build_Keys (key_forward k) (key_backward k) (key_left k) (key_right k)
      (key_run k) v (key_crouch k) (key_dance k) (key_roll k)
      (key_walkBackward k)
  else if isOneOf key ["control"]%string then
    Build_Keys (key_forward k) (key_backward k) (key_left k) (key_right k)
      (key_run k) (key_jump k) v (key_dance k) (key_roll k)
      (key_walkBackward k)
  else if isOneOf key ["e"]%string then
    Build_Keys (key_forward k) (key_backward k) (key_left k) (key_right k)
      (key_run k) (key_jump k) (key_crouch k) v (key_roll k)
      (key_walkBackward k)
  else if isOneOf key ["alt"; "f"]%string then
    Build_Keys (key_forward k) (key_backward k) (key_left k) (key_right k)
      (key_run k) (key_jump k) (key_crouch k) (key_dance k) v
      (key_walkBackward k)
  else k.

Definition handleKeyDown (key : string) (c : CharacterController)
  : CharacterController :=
  if isOneOf key ["r"]%string then set_combatMode (negb (combatMode c)) c
  else set_key (keySwitch true key) c.

Definition handleKeyUp (key : string) (c : CharacterController)
  : CharacterController :=
  set_key (keySwitch false key) c.

(** [handleMouseDown(e)], given [e.button]. *)
Definition handleMouseDown (button : nat) (c : CharacterController)
  : CharacterController :=
  if negb (combatMode c) || isAttacking c then c
  else
    let c := set_isAttacking true c in
    if (button =? 0)%nat then
      emit (SetTimeout AttackEnd 600) (setAnimation swordAttack c)
    else if (button =? 2)%nat then
      emit (SetTimeout AttackEnd 600) (setAnimation swordAttackAlt c)
    else c.

(** *** Views and footprints used to state what a section leaves alone *)

(** Writing the four fields [setAnimation] may write. *)
Definition animWrite (ca : option string) (cn : Anim) (cd : Q)
    (e : list Effect) (c : CharacterController) : CharacterController :=
  set_effects e (set_animationChangeCooldown cd
    (set_currentAnimation cn (set_currentAction ca c))).

(** Writing the five fields [updateCapsuleCollider] may write. *)
Definition capsuleWrite (col : option Collider) (hh : Q)
    (rb : option RigidBody) (off ag : Q) (c : CharacterController)
  : CharacterController :=
  set_animationGroupY ag (set_currentCharacterYOffset off
    (set_rigidBody rb (set_currentCapsuleHalfHeight hh (set_collider col c)))).

(** Writing the fields the part of [update] before "Crouch logic" may
    write. *)
Definition preludeWrite (g : bool) (ag acd fc : Q) (l r : FootTrack)
    (e : list Effect) (c : CharacterController) : CharacterController :=
  set_isGrounded g (set_effects e (set_footstepCooldown fc
    (set_rightFoot r (set_leftFoot l
      (set_animationChangeCooldown acd (set_animationGroupY ag c)))))).

(** The fields no section of the frame update writes. *)
Definition inputs (c : CharacterController) :=
  (keys c, config c, world c, isAttacking c, combatMode c).

(** The fields the roll trigger alone writes. *)
Definition rollState (c : CharacterController) :=
  (isRolling c, rollDirection c, rollSpeed c).

Definition hasBody (c : CharacterController) : bool := isSome (rigidBody c).

Definition kept (c : CharacterController) :=
  (inputs c, rollState c, hasBody c).

(** The linear velocity of the rigid body, when there is one. *)
Definition velocityOf (c : CharacterController) : option Vec3 :=
  option_map linvel (rigidBody c).

(** The effect log of [c'] extends that of [c]; and it does so with [e]
    among the new entries. *)
Definition grows (c c' : CharacterController) : Prop :=
  exists l, effects c' = effects c ++ l.

Definition emitted (e : Effect) (c c' : CharacterController) : Prop :=
  exists pre post, effects c' = effects c ++ pre ++ e :: post.

(** The fields the jump trigger reads, and those a landing frame carries
    to "Movement input". *)
Definition jumpInputs (c : CharacterController) :=
  (keys c, config c, jumpPressed c, isSome (rigidBody c)).

Definition landingInputs (c : CharacterController) :=
  (keys c, jumpPressed c, isRolling c, isSome (rigidBody c)).

(** Is a movement key held: [movement.x !== 0 || movement.z !== 0]. *)
Definition moving (k : Keys) : bool :=
  negb (Qeq_bool (movementX k) 0) || negb (Qeq_bool (movementZ k) 0).

End Character.

(** ** Sample environments and runs *)

Module Scenario.
Import Character.

(** The character of the concrete runs below never turns: it faces along
    +z, where [sin 0 = 0], [cos 0 = 1] and [atan2(0, 1) = 0]; square roots
    are taken of 0 and 1 only.  This table gives the functions there. *)
Definition facingZ : MathLib :=
  {| Msin := fun _ => 0;
     Mcos := fun _ => 1;
     Matan2 := fun _ _ => 0;
     Msqrt := fun x => x;
     MdegToRad := fun d => d * (355 / 113) / 180 |}.

Definition hitAt (t : Q) (n : option Vec3) : RawHit :=
  {| toi := None; timeOfImpact := Some t; time_of_impact := None;
     normal := n; normal1 := None; normal2 := None |}.

(** A vertical ray against a horizontal plane at distance [t] ahead. *)
Definition planeHit (t maxToi : Q) (n : option Vec3)
  : Result (option RawHit) :=
  if Qleb 0 t && Qleb t maxToi then Returns (Some (hitAt t n))
  else Returns None.

(** A world made of a floor at height 0 and, when given, a ceiling. *)
Definition planeRay (ceiling : option Q) (n : option Vec3)
    (origin dir : Vec3) (maxToi : Q) : Result (option RawHit) :=
  if Qltb (v_y dir) 0 then planeHit (v_y origin) maxToi n
  else match ceiling with
       | Some h => planeHit (h - v_y origin) maxToi n
       | None => Returns None
       end.

Definition planeWorld (ceiling : option Q) : World :=
  {| castRay := planeRay ceiling None;
     castRayAndGetNormal := planeRay ceiling (Some up) |}.

(** A world whose ray casts throw. *)
Definition throwingWorld : World :=
  {| castRay := fun _ _ _ => Throws;
     castRayAndGetNormal := fun _ _ _ => Throws |}.

Definition clips : list string :=
  map animationMap
    [idle; walk; run; dance; jumpStart; jumpLoop; jumpLand; crouchIdle;
     crouchWalk; swordIdle; swordAttack; swordAttackAlt; roll].

(** A character with its model loaded, spawned at height [y0]. *)
Definition spawned (w : World) (y0 : Q) : CharacterController :=
  loadModel clips true true
    (createPhysicsBody {| v_x := 0; v_y := y0; v_z := 0 |}
       (constructor facingZ (Some w))).

(** Both feet just above the floor. *)
Definition standingPose : Pose :=
  {| leftFootWorldPosition := {| v_x := 0; v_y := 0.1; v_z := 0 |};
     rightFootWorldPosition := {| v_x := 0; v_y := 0.1; v_z := 0 |};
     characterWorldPosition := {| v_x := 0; v_y := 1; v_z := 0 |} |}.

Definition frame : Q := 1 / 60.

(** The fields [update] leaves, however it ended. *)
Definition after (o : Outcome) : CharacterController :=
  match o with Done c => c | Threw c => c end.

Definition completed (o : Outcome) : bool :=
  match o with Done _ => true | Threw _ => false end.

(** One frame of a sixtieth of a second, or of [delta] seconds. *)
Definition next (delta : Q) (c : CharacterController) : CharacterController :=
  after (update facingZ delta standingPose c).

(** What a physics step may do between two frames: move the body and
    change its velocity. *)
Definition moveBody (pos vel : Vec3) (c : CharacterController)
  : CharacterController :=
  set_rigidBody (Some {| translation := pos; linvel := vel |}) c.

Definition vec (a b c : Q) : Vec3 := {| v_x := a; v_y := b; v_z := c |}.

(** Standing on the floor, after the first frame and its landing timer. *)
Definition standing : CharacterController :=
  fire LandToNone (next frame (spawned (planeWorld None) 1)).

(** Standing under a ceiling at height 2.2, within reach of the ceiling
    ray. *)
Definition underCeiling : CharacterController :=
  fire LandToNone (next frame (spawned (planeWorld (Some 2.2)) 1)).

(** Crouched with the key, then under a ceiling at height 1.5 with the
    key released, then out in the open again. *)
Definition crouched : CharacterController :=
  fire CrouchUnlock (next frame (handleKeyDown "control" standing)).

Definition enteringTunnel : CharacterController :=
  set_world (Some (planeWorld (Some 1.5))) (handleKeyUp "control" crouched).

Definition inTunnel : CharacterController := next frame enteringTunnel.

Definition outOfTunnel : CharacterController :=
  set_world (Some (planeWorld None)) inTunnel.

(** A roll started on the floor. *)
Definition rolling : CharacterController :=
  next frame (handleKeyDown "f" standing).

(** The rolling character has left the floor: one metre further and
    three metres up, slowed to 2 along z and sinking. *)
Definition rollingOffLedge : CharacterController :=
  moveBody (vec 0 3 1) (vec 0 (-1) 2) rolling.

(** In the air with velocity [(1, -3, 2)], then back on the floor with
    that velocity. *)
Definition airborne : CharacterController :=
  next frame (moveBody (vec 0 3 0) (vec 1 (-3) 2) standing).

Definition touchdown : CharacterController :=
  moveBody (vec 0 1 0) (vec 1 (-3) 2) airborne.

(** A foot that was half a step above the floor and not grounded, its
    bone already tracked. *)
Definition liftedFoot : FootTrack :=
  {| ft_bone := true; ft_prevPosition := vec 0 0.3 0; ft_initialized := true;
     ft_wasGrounded := false; ft_prevToi := 1 |}.

(** The body of a controller that is known to have one. *)
Definition bodyOf (c : CharacterController) : RigidBody :=
  match rigidBody c with
  | Some rb => rb
  | None => {| translation := zeroVec; linvel := zeroVec |}
  end.

(** Roll and jump pressed before the same frame. *)
Definition rollAndJump : CharacterController :=
  next frame (handleKeyDown " " (handleKeyDown "f" standing)).

(** Jump pressed during a roll. *)
Definition jumpDuringRoll : CharacterController :=
  next frame (handleKeyDown " " rolling).

(** Crouch pressed during a roll. *)
Definition crouchedInRoll : CharacterController :=
  next frame (handleKeyDown "control" rolling).

End Scenario.


(** ** Views of the stepper's clock *)

Module Timeline.

(** A number of steps as a number. *)
Definition count (n : nat) : Q := inject_Z (Z.of_nat n).

(** The time a run of frames feeds to the accumulator: each frame time
    clamped to a quarter of a second. *)
Definition clampedTotal (dts : list Q) : Q :=
  fold_right (fun dt acc => Qmin dt 0.25 + acc) 0 dts.

End Timeline.

(** ** PhysicsManager: life cycle and accessors *)

Module Lifecycle.
Import Physics.
Import Character (Result, Returns, Throws).

(** The manager with its [RAPIER] module handle: [true] once the dynamic
    import of [init()] has completed. *)
Record Manager := {
  physics : PhysicsManager;
  RAPIER : bool
}.

Definition create : Manager := {| physics := Physics.create; RAPIER := false |}.

(** [init()], once the import has resolved. *)
Definition init (m : Manager) : Manager :=
  if initialized (physics m) then m
  else {| physics := Physics.init (physics m); RAPIER := true |}.

(** [getWorld()] *)
Definition getWorld (m : Manager) : Result World :=
  match world (physics m), RAPIER m with
  | Some w, true => Returns w
  | _, _ => Throws
  end.

(** [getRAPIER()] *)
Definition getRAPIER (m : Manager) : Result unit :=
  if RAPIER m then Returns tt else Throws.

Definition step (m : Manager) (deltaTime : Q) : Manager * Q :=
  ({| physics := fst (Physics.step (physics m) deltaTime); RAPIER := RAPIER m |},
   snd (Physics.step (physics m) deltaTime)).

Definition dispose (m : Manager) : Manager :=
  {| physics := Physics.dispose (physics m); RAPIER := RAPIER m |}.

Definition isInitialized (m : Manager) : bool := initialized (physics m).

(** The calls a scene makes on its manager. *)
Inductive Call :=
| CallInit
| CallStep (deltaTime : Q)
| CallDispose.

Definition call (m : Manager) (c : Call) : Manager :=
  match c with
  | CallInit => init m
  | CallStep dt => fst (step m dt)
  | CallDispose => dispose m
  end.

Definition calls (cs : list Call) : Manager := fold_left call cs create.

(** The physics part of [GameScene.animate]: under [isInitialized()], a
    step and then [getWorld()] for the debug renderer. *)
Definition animatePhysics (m : Manager) (deltaTime : Q) : Result Manager :=
  if isInitialized m then
    let m' := fst (step m deltaTime) in
    match getWorld m' with
    | Returns _ => Returns m'
    | Throws => Throws
    end
  else Returns m.

(** A manager whose flag, world and module handle agree. *)
Definition consistent (m : Manager) : Prop :=
  (initialized (physics m) = true <-> world (physics m) <> None) /\
  (world (physics m) <> None -> RAPIER m = true).

End Lifecycle.

(** ** KeyboardManager (src/input/KeyboardManager.ts, first part) *)

Module Keyboard.

(** [interface KeyboardState] *)
Record KeyboardState := {
  forward : bool;
  backward : bool;
  left : bool;
  right : bool;
  run : bool;
  jump : bool;
  crouch : bool;
  dance : bool;
  walkBackward : bool;
  roll : bool
}.

(** A [Map<string, boolean>]: the entries in insertion order, a key at
    most once. *)
Definition KeyMap := list (string * bool).

(** [map.set(code, v)]: an existing entry keeps its place. *)
Fixpoint mapSet (code : string) (v : bool) (m : KeyMap) : KeyMap :=
  match m with
  | [] => [(code, v)]
  | (k, b) :: rest =>
      if String.eqb k code then (k, v) :: rest
      else (k, b) :: mapSet code v rest
  end.

(** [map.get(code)]; [None] is [undefined]. *)
Fixpoint mapGet (code : string) (m : KeyMap) : option bool :=
  match m with
  | [] => None
  | (k, b) :: rest => if String.eqb k code then Some b else mapGet code rest
  end.

(** [x === true] *)
Definition isTrue (x : option bool) : bool :=
  match x with Some true => true | _ => false end.

Record KeyboardManager := {
  keys : KeyMap;
  state : KeyboardState
}.

Definition create : KeyboardManager :=
  {| keys := [];
     state := {| forward := false; backward := false; left := false;
                 right := false; run := false; jump := false;
                 crouch := false; dance := false; walkBackward := false;
                 roll := false |} |}.

(** [updateState()] *)
Definition updateState (m : KeyboardManager) : KeyboardManager :=
  let get code := isTrue (mapGet code (keys m)) in
  {| keys := keys m;
     state :=
       {| forward := get "KeyW"%string || get "ArrowUp"%string;
          backward := get "KeyS"%string || get "ArrowDown"%string;
          left := get "KeyA"%string || get "ArrowLeft"%string;
          right := get "KeyD"%string || get "ArrowRight"%string;
          run := get "ShiftLeft"%string || get "ShiftRight"%string;
          jump := get "Space"%string;
          crouch := get "ControlLeft"%string || get "ControlRight"%string;
          dance := get "KeyE"%string;
          walkBackward := get "KeyQ"%string;
          roll := get "KeyF"%string |} |}.

(** The two listeners of [setupEventListeners], given [event.code].  Both
    also call [event.preventDefault()] when the code is ["Space"]. *)
Definition preventsDefault (code : string) : bool := String.eqb code "Space".

Definition onKeyDown (code : string) (m : KeyboardManager) : KeyboardManager :=
  updateState {| keys := mapSet code true (keys m); state := state m |}.

Definition onKeyUp (code : string) (m : KeyboardManager) : KeyboardManager :=
  updateState {| keys := mapSet code false (keys m); state := state m |}.

(** [getState()]: a copy of the state. *)
Definition getState (m : KeyboardManager) : KeyboardState := state m.

(** [isKeyPressed(code)] *)
Definition isKeyPressed (code : string) (m : KeyboardManager) : bool :=
  isTrue (mapGet code (keys m)).

(** [dispose()]: [this.keys.clear()]. *)
Definition dispose (m : KeyboardManager) : KeyboardManager :=
  {| keys := []; state := state m |}.

(** A key event, and the manager after a sequence of them. *)
Inductive KeyEvent :=
| KeyDown (code : string)
| KeyUp (code : string).

Definition dispatch (m : KeyboardManager) (e : KeyEvent) : KeyboardManager :=
  match e with
  | KeyDown code => onKeyDown code m
  | KeyUp code => onKeyUp code m
  end.

Definition replay (es : list KeyEvent) : KeyboardManager :=
  fold_left dispatch es create.

End Keyboard.

(** ** Rounding of binary floating-point numbers *)

Module Floats.

(** The exponent of the binade of [x], a number other than 0: the [e]
    with [2^e <= |x| < 2^(e+1)]. *)
Definition ilog2 (x : Q) : Z :=
  let e := (Z.log2 (Z.abs (Qnum x)) - Z.log2 (Zpos (Qden x)))%Z in
  if Qle_bool (2 ^ e) (Qabs x) then e else (e - 1)%Z.

(** The integer nearest to [y], the even one of two that are as near. *)
Definition roundHalfEven (y : Q) : Z :=
  let f := Qfloor y in
  match Qcompare (y - inject_Z f) (1 # 2) with
  | Lt => f
  | Gt => (f + 1)%Z
  | Eq => if Z.even f then f else (f + 1)%Z
  end.

(** The multiple of [2^s] nearest to [x]. *)
Definition roundAt (s : Z) (x : Q) : Q :=
  inject_Z (roundHalfEven (x / 2 ^ s)) * 2 ^ s.

(** Rounding to nearest, ties to even, in a binary format with [prec]
    digits whose smallest positive number is [2^emin].  A result beyond
    the largest number of the format, an infinity there, is not
    represented. *)
Definition roundFloat (prec emin : Z) (x : Q) : Q :=
  if Qeq_bool x 0 then 0
  else roundAt (Z.max (ilog2 x - (prec - 1)) emin) x.

(** A JavaScript number: what an arithmetic operation returns for the
    exact result [x]. *)
Definition binary64 : Q -> Q := roundFloat 53 (-1074).

(** An entry of a [Float32Array]: what storing the number [x] leaves. *)
Definition float32 : Q -> Q := roundFloat 24 (-149).

End Floats.

(** ** CharacterController: angles *)

Module Angles.
Import Floats.

(** [Math.PI]: the double nearest to pi, which is this rational. *)
Definition Math_PI : Q := 884279719003555 # 281474976710656.

(** [while (angle > Math.PI) angle -= 2 * Math.PI], for at most [fuel]
    turns of the loop: [None] when the loop is still running after them.
    The product [2 * Math.PI] is exact in binary64; the difference is
    rounded. *)
Fixpoint wrapDown (fuel : nat) (angle : Q) : option Q :=
  if Qgtb angle Math_PI then
    match fuel with
    | O => None
    | S fuel => wrapDown fuel (binary64 (angle - 2 * Math_PI))
    end
  else Some angle.

(** [while (angle < -Math.PI) angle += 2 * Math.PI] *)
Fixpoint wrapUp (fuel : nat) (angle : Q) : option Q :=
  if Qltb angle (- Math_PI) then
    match fuel with
    | O => None
    | S fuel => wrapUp fuel (binary64 (angle + 2 * Math_PI))
    end
  else Some angle.

(** [normalizeAngle(angle)], each of its loops running for at most
    [fuel] turns. *)
Definition normalizeAngle (fuel : nat) (angle : Q) : option Q :=
  match wrapDown fuel angle with
  | Some angle => wrapUp fuel angle
  | None => None
  end.

(** [lerpAngle(start, end, t)], every operation rounded to binary64. *)
Definition lerpAngle (fuel : nat) (start end_ t : Q) : option Q :=
  match normalizeAngle fuel start with
  | None => None
  | Some start =>
      match normalizeAngle fuel end_ with
      | None => None
      | Some end_ =>
          let (start, end_) :=
            if Qgtb (Qabs (binary64 (end_ - start))) Math_PI then
              if Qgtb end_ start then (binary64 (start + 2 * Math_PI), end_)
              else (start, binary64 (end_ + 2 * Math_PI))
            else (start, end_) in
          normalizeAngle fuel
            (binary64 (start + binary64 (binary64 (end_ - start) * t)))
      end
  end.

(** The turns of the loops [fuel] allows for, as a number. *)
Definition turns (fuel : nat) : Q := inject_Z (Z.of_nat fuel).

(** [r] is [x] less [k] whole turns, up to [slack]. *)
Definition turnedBy (k : Z) (slack r x : Q) : Prop :=
  Qabs (r - (x - inject_Z k * (2 * Math_PI))) <= slack.

End Angles.

(** ** CharacterController: pointer, camera mode and render position *)

Module View.
Import Character.
Import Angles.

(** ['follow' | 'follow-orbit' | 'orbit'] *)
Inductive CameraMode := follow | followOrbit | orbit.

Definition CameraMode_eqb (a b : CameraMode) : bool :=
  match a, b with
  | follow, follow | followOrbit, followOrbit | orbit, orbit => true
  | _, _ => false
  end.

(** The camera fields of the controller the mouse handlers work on, with
    [config.mouseSensitivity]. *)
Record Pointer := {
  cameraMode : CameraMode;
  isPointerLocked : bool;
  mouseSensitivity : Q;
  mouseOrbitOffset : Q;
  mouseVerticalOffset : Q
}.

(** As the constructor leaves them. *)
Definition newPointer : Pointer :=
  {| cameraMode := followOrbit; isPointerLocked := false;
     mouseSensitivity := 0.003; mouseOrbitOffset := 0;
     mouseVerticalOffset := 0 |}.

(** [THREE.MathUtils.clamp(value, min, max)] *)
Definition clamp (value min max : Q) : Q := Qmax min (Qmin max value).

(** [x || 0] for a number that may be missing. *)
Definition orZero (x : option Q) : Q :=
  match x with Some v => v | None => 0 end.

(** [handleMouseMove(e)], given [e.movementX] and [e.movementY]. *)
Definition handleMouseMove (movementX movementY : option Q) (p : Pointer)
  : Pointer :=
  if negb (CameraMode_eqb (cameraMode p) followOrbit)
     || negb (isPointerLocked p) then p
  else
    let deltaX := orZero movementX in
    let deltaY := orZero movementY in
    {| cameraMode := cameraMode p;
       isPointerLocked := isPointerLocked p;
       mouseSensitivity := mouseSensitivity p;
       mouseOrbitOffset := mouseOrbitOffset p - deltaX * mouseSensitivity p;
       mouseVerticalOffset :=
         clamp (mouseVerticalOffset p - deltaY * mouseSensitivity p)
               (- Math_PI / 3) (Math_PI / 3) |}.

(** [handleClick()]: is [canvas.requestPointerLock()] called, given
    whether the document has a canvas. *)
Definition handleClick (canvas : bool) (p : Pointer) : bool :=
  CameraMode_eqb (cameraMode p) followOrbit && negb (isPointerLocked p)
  && canvas.

(** [handlePointerLockChange()], given
    [document.pointerLockElement === canvas]. *)
Definition handlePointerLockChange (onCanvas : bool) (p : Pointer) : Pointer :=
  {| cameraMode := cameraMode p;
     isPointerLocked := onCanvas;
     mouseSensitivity := mouseSensitivity p;
     mouseOrbitOffset := mouseOrbitOffset p;
     mouseVerticalOffset := mouseVerticalOffset p |}.

(** [GameScene.animate] and [updateCameraMode] assign the scene's camera
    mode to the controller. *)
Definition setCameraMode (m : CameraMode) (p : Pointer) : Pointer :=
  {| cameraMode := m;
     isPointerLocked := isPointerLocked p;
     mouseSensitivity := mouseSensitivity p;
     mouseOrbitOffset := mouseOrbitOffset p;
     mouseVerticalOffset := mouseVerticalOffset p |}.

(** The events that reach the pointer fields after construction. *)
Inductive PointerEvent :=
| MouseMove (movementX movementY : option Q)
| PointerLockChange (onCanvas : bool)
| CameraModeChange (m : CameraMode).

Definition pointerEvent (p : Pointer) (e : PointerEvent) : Pointer :=
  match e with
  | MouseMove dx dy => handleMouseMove dx dy p
  | PointerLockChange b => handlePointerLockChange b p
  | CameraModeChange m => setCameraMode m p
  end.

(** *** Render interpolation: the end of [update] *)

Record RenderState := {
  prevPosition : Vec3;
  currentPosition : Vec3;
  containerPosition : Vec3
}.

(** [v.lengthSq()] *)
Definition lengthSq (v : Vec3) : Q :=
  v_x v * v_x v + v_y v * v_y v + v_z v * v_z v.

(** [lerpVectors(v1, v2, alpha)] *)
Definition lerpVectors (v1 v2 : Vec3) (alpha : Q) : Vec3 :=
  {| v_x := v_x v1 + (v_x v2 - v_x v1) * alpha;
     v_y := v_y v1 + (v_y v2 - v_y v1) * alpha;
     v_z := v_z v1 + (v_z v2 - v_z v1) * alpha |}.

(** "Update position with interpolation for smooth rendering", given
    [this.rigidBody.translation()]. *)
Definition interpolate (position : Vec3) (interpolationAlpha : Q)
    (r : RenderState) : RenderState :=
  let current := position in
  let container :=
    if Qeq_bool (lengthSq (prevPosition r)) 0 then current
    else lerpVectors (prevPosition r) current interpolationAlpha in
  {| prevPosition := current; currentPosition := current;
     containerPosition := container |}.

(** [GameScene.animate] calls [update(deltaTime)]: the parameter
    [interpolationAlpha] takes its default, 0. *)
Definition renderFrame (position : Vec3) (r : RenderState) : RenderState :=
  interpolate position 0 r.

Definition sameVec (a b : Vec3) : Prop :=
  v_x a == v_x b /\ v_y a == v_y b /\ v_z a == v_z b.

Definition between (a b x : Q) : Prop := Qmin a b <= x <= Qmax a b.

End View.

(** ** FootstepParticles (src/effects/FootstepParticles.ts) *)

Module Particles.
Import Character.
Import View (lengthSq).
Import Floats.

Definition MAX_PARTICLES : nat := 48.
Definition PARTICLE_LIFETIME : Q := 0.45.

(** What the pool sets on a [THREE.Sprite] and its material. *)
Record Sprite := {
  visible : bool;
  position : Vec3;
  scale : Q;
  opacity : Q
}.

(** The arrays of the pool.  [sprites], [velocities] and [active] are
    JavaScript arrays; [lifetimes] and [initialScales] are
    [Float32Array]s, whose entries hold what [float32] leaves of the
    number stored.  All are built with [MAX_PARTICLES] entries. *)
Record FootstepParticles := {
  sprites : list Sprite;
  velocities : list Vec3;
  lifetimes : list Q;
  initialScales : list Q;
  active : list bool;
  cursor : nat
}.

(** [a[i] = v] for an index of the array. *)
Fixpoint setAt {A} (i : nat) (v : A) (l : list A) : list A :=
  match l, i with
  | [], _ => []
  | _ :: t, O => v :: t
  | h :: t, S j => h :: setAt j v t
  end.

Definition newSprite : Sprite :=
  {| visible := false; position := zeroVec; scale := 0.1; opacity := 0 |}.

Definition create : FootstepParticles :=
  {| sprites := repeat newSprite MAX_PARTICLES;
     velocities := repeat zeroVec MAX_PARTICLES;
     lifetimes := repeat 0 MAX_PARTICLES;
     initialScales := repeat 0 MAX_PARTICLES;
     active := repeat false MAX_PARTICLES;
     cursor := 0 |}.

(** [FootstepParticleSpawnOptions] *)
Record SpawnOptions := {
  o_position : Vec3;
  o_normal : option Vec3;
  o_slopeFactor : option Q
}.

(** The four values [Math.random()] returns during one [spawn], in call
    order. *)
Record Random := {
  rand_x : Q;
  rand_z : Q;
  rand_speed : Q;
  rand_scale : Q
}.

(** [THREE.MathUtils.lerp(x, y, t)] *)
Definition lerp (x y t : Q) : Q := (1 - t) * x + t * y.

(** [new Vector3(x, 0, z).normalize().multiplyScalar(k)]; [normalize]
    divides by [length() || 1]. *)
Definition randomDir (M : MathLib) (rnd : Random) : Vec3 :=
  let x := rand_x rnd - 0.5 in
  let z := rand_z rnd - 0.5 in
  let len := Msqrt M (x * x + 0 * 0 + z * z) in
  let len := if Qeq_bool len 0 then 1 else len in
  let k := 0.25 + rand_speed rnd * 0.45 in
  {| v_x := x / len * k; v_y := 0 / len * k; v_z := z / len * k |}.

(** [spawn(options)] *)
Definition spawn (M : MathLib) (rnd : Random) (options : SpawnOptions)
    (s : FootstepParticles) : FootstepParticles :=
  if (List.length (sprites s) =? 0)%nat then s
  else
    let index := cursor s in
    let cursor' := ((cursor s + 1) mod MAX_PARTICLES)%nat in
    match nth_error (sprites s) index, nth_error (velocities s) index with
    | Some sprite, Some _ =>
        let up :=
          match o_normal options with
          | Some n => if Qgtb (lengthSq n) 0 then Some n else None
          | None => None
          end in
        let slopeFactor :=
          match o_slopeFactor options with Some x => x | None => 0 end in
        let lateralStrength := lerp 0.4 1.1 slopeFactor in
        let upwardStrength := lerp 0.55 0.8 (1 - slopeFactor) in
        let dir := randomDir M rnd in
        let velocity :=
          {| v_x := v_x dir * lateralStrength;
             v_y := v_y dir * lateralStrength;
             v_z := v_z dir * lateralStrength |} in
        let velocity :=
          match up with
          | Some u =>
              {| v_x := v_x velocity + v_x u * upwardStrength;
                 v_y := v_y velocity + v_y u * upwardStrength;
                 v_z := v_z velocity + v_z u * upwardStrength |}
          | None =>
              {| v_x := v_x velocity;
                 v_y := v_y velocity + upwardStrength;
                 v_z := v_z velocity |}
          end in
        let initialScale := 0.35 + rand_scale rnd * 0.2 in
        {| sprites :=
             setAt index {| visible := true; position := o_position options;
                            scale := initialScale; opacity := 0.55 |}
                   (sprites s);
           velocities := setAt index velocity (velocities s);
           lifetimes := setAt index (float32 PARTICLE_LIFETIME) (lifetimes s);
           initialScales :=
             setAt index (float32 initialScale) (initialScales s);
           active := setAt index true (active s);
           cursor := cursor' |}
    | _, _ =>
        {| sprites := sprites s; velocities := velocities s;
           lifetimes := lifetimes s; initialScales := initialScales s;
           active := active s; cursor := cursor' |}
    end.

(** One turn of the loop of [update(delta)], for index [i]; [pow] is
    [Math.pow]. *)
Definition updateAt (pow : Q -> Q -> Q) (delta : Q) (s : FootstepParticles)
    (i : nat) : FootstepParticles :=
  match nth_error (active s) i, nth_error (lifetimes s) i,
        nth_error (initialScales s) i with
  | Some true, Some life, Some baseScale =>
      let life := float32 (life - delta) in
      let lifetimes' := setAt i life (lifetimes s) in
      match nth_error (sprites s) i, nth_error (velocities s) i with
      | Some sprite, Some velocity =>
          if Qleb life 0 then
            {| sprites :=
                 setAt i {| visible := false; position := position sprite;
                            scale := scale sprite; opacity := 0 |} (sprites s);
               velocities := velocities s;
               lifetimes := lifetimes';
               initialScales := initialScales s;
               active := setAt i false (active s);
               cursor := cursor s |}
          else
            let position' :=
              {| v_x := v_x (position sprite) + v_x velocity * delta;
                 v_y := v_y (position sprite) + v_y velocity * delta;
                 v_z := v_z (position sprite) + v_z velocity * delta |} in
            let velocity' :=
              {| v_x := v_x velocity * 0.84; v_y := v_y velocity * 0.84;
                 v_z := v_z velocity * 0.84 |} in
            let t := life / PARTICLE_LIFETIME in
            let currentScale := baseScale * (1 + (1 - t) * 0.45) in
            {| sprites :=
                 setAt i {| visible := visible sprite; position := position';
                            scale := currentScale;
                            opacity := 0.55 * pow t 0.6 |} (sprites s);
               velocities := setAt i velocity' (velocities s);
               lifetimes := lifetimes';
               initialScales := initialScales s;
               active := active s;
               cursor := cursor s |}
      | _, _ =>
          {| sprites := sprites s; velocities := velocities s;
             lifetimes := lifetimes'; initialScales := initialScales s;
             active := active s; cursor := cursor s |}
      end
  | _, _, _ => s
  end.

(** [update(delta)] *)
Definition update (pow : Q -> Q -> Q) (delta : Q) (s : FootstepParticles)
  : FootstepParticles :=
  fold_left (updateAt pow delta) (seq 0 MAX_PARTICLES) s.

(** [dispose()] *)
Definition dispose (s : FootstepParticles) : FootstepParticles :=
  {| sprites := []; velocities := velocities s; lifetimes := lifetimes s;
     initialScales := initialScales s; active := active s;
     cursor := cursor s |}.


(** Every array has its [MAX_PARTICLES] entries, unless the sprites have
    been disposed of, and the cursor is an index. *)
Definition shaped (s : FootstepParticles) : Prop :=
  (List.length (sprites s) = MAX_PARTICLES \/ sprites s = []) /\
  List.length (velocities s) = MAX_PARTICLES /\
  List.length (lifetimes s) = MAX_PARTICLES /\
  List.length (initialScales s) = MAX_PARTICLES /\
  List.length (active s) = MAX_PARTICLES /\
  (cursor s < MAX_PARTICLES)%nat.

(** What a scene does with the pool. *)
Inductive PoolCall :=
| Spawn (rnd : Random) (options : SpawnOptions)
| Update (delta : Q)
| Dispose.

Definition poolCall (M : MathLib) (pow : Q -> Q -> Q) (s : FootstepParticles)
    (c : PoolCall) : FootstepParticles :=
  match c with
  | Spawn rnd options => spawn M rnd options s
  | Update delta => update pow delta s
  | Dispose => dispose s
  end.






End Particles.

(** ** Footsteps observed in the effect log *)

Module Footfalls.
Import Character Scenario.

Definition isSound (e : Effect) : bool :=
  match e with PlayFootstepSound _ => true | _ => false end.

Definition isParticle (e : Effect) : bool :=
  match e with SpawnParticle _ _ _ => true | _ => false end.

(** Walking forward on the floor, and a frame of the walk in which both
    feet come down from half a step up with the cooldown run out. *)
Definition walking : CharacterController :=
  next frame (handleKeyDown "w" standing).

Definition stepping : CharacterController :=
  set_footstepCooldown 0
    (set_rightFoot liftedFoot (set_leftFoot liftedFoot (next frame walking))).

End Footfalls.

(** ** CharacterController: the clip of a footstep sound *)

Module Clips.

(** [this.footstepSoundPaths] *)
Definition footstepSoundPaths : list string :=
  ["/sounds/steps.mp3"; "/sounds/steps (2).mp3"; "/sounds/steps (3).mp3";
   "/sounds/steps (5).mp3"]%string.

(** [Math.floor(Math.random() * length)], given the value of
    [Math.random()]. *)
Definition pick (length : nat) (random : Q) : nat :=
  Z.to_nat (Qfloor (random * inject_Z (Z.of_nat length))).

(** [chosenIndex === this.lastFootstepIndex]; the field is [null] until a
    first sound has played. *)
Definition sameIndex (last : option nat) (chosen : nat) : bool :=
  match last with Some i => (i =? chosen)%nat | None => false end.

(** [do { chosenIndex = ...; attempts++; } while (chosenIndex ===
    this.lastFootstepIndex && attempts < 5)], entered with [attempts]
    draws made; [draws k] is what the call number [k] of [Math.random()]
    returns.  The result is [chosenIndex] and [attempts]. *)
Equations? chooseLoop (length : nat) (last : option nat) (draws : nat -> Q)
    (attempts : nat) : nat * nat by wf (5 - attempts)%nat lt :=
  chooseLoop length last draws attempts
    with sameIndex last (pick length (draws attempts)),
         lt_dec (S attempts) 5 => {
    | true, left _ := chooseLoop length last draws (S attempts);
    | _, _ := (pick length (draws attempts), S attempts) }.
Proof.
  clear chooseLoop. do 5 (destruct attempts as [|attempts]; [cbn; lia|]). lia.
Qed.

(** The index [playFootstepSound] chooses, if it plays at all. *)
Definition chooseIndex (enableFootstepAudio : bool) (paths : list string)
    (last : option nat) (draws : nat -> Q) : option nat :=
  if negb enableFootstepAudio || (List.length paths =? 0)%nat then None
  else if (List.length paths =? 1)%nat then Some 0%nat
  else Some (fst (chooseLoop (List.length paths) last draws 0)).

End Clips.


(** * Properties *)

(** ** Boolean comparisons and their meaning *)

Lemma Qleb_le a b : Qleb a b = true <-> a <= b.
Proof. apply Qle_bool_iff. Qed.

Lemma Qltb_lt a b : Qltb a b = true <-> a < b.
Proof.
  unfold Qltb. rewrite negb_true_iff. split; intro H.
  - apply Qnot_le_lt. intro L. apply Qle_bool_iff in L. congruence.
  - destruct (Qle_bool b a) eqn:E; [|reflexivity].
    apply Qle_bool_iff in E. exfalso. revert H. apply Qle_not_lt, E.
Qed.

Lemma Qltb_ge a b : Qltb a b = false <-> b <= a.
Proof.
  unfold Qltb. rewrite negb_false_iff. apply Qle_bool_iff.
Qed.

Lemma Qleb_gt a b : Qleb a b = false <-> b < a.
Proof.
  rewrite <- Qltb_lt. unfold Qltb, Qleb.
  destruct (Qle_bool a b); simpl; intuition congruence.
Qed.

(** ** The fixed-timestep stepper *)

Module PhysicsProofs.
Import Physics.

Lemma fixedTimeStep_pos : 0 < fixedTimeStep.
Proof. reflexivity. Qed.

(** The loop leaves an accumulator in [[0, fixedTimeStep)] when it starts
    from a non-negative one. *)
Lemma stepLoop_acc s :
  0 <= l_acc s -> 0 <= l_acc (stepLoop s) < fixedTimeStep.
Proof.
  funelim (stepLoop s); intro Hs.
  - split; [assumption|]. apply Qleb_gt. assumption.
  - apply H. cbn [l_acc]. apply Qleb_le in Heq0.
    revert Heq0. generalize fixedTimeStep. intros f Hf. lra.
  - simpl. split; [apply Qle_refl | reflexivity].
Qed.

(** What the loop does to the counters: it stops normally within the
    limit, or it stops at the [break] with the accumulator zeroed and the
    warning logged. *)
Lemma stepLoop_steps s :
  let s' := stepLoop s in
  ticks (l_world s') = (ticks (l_world s) + (l_steps s' - l_steps s))%nat /\
  (l_steps s <= l_steps s')%nat /\
  ((l_warn s' = l_warn s /\ (l_steps s' <= Nat.max 10 (l_steps s))%nat) \/
   (l_warn s' = l_warn s ++ [limit_warning] /\ l_acc s' = 0 /\
    (l_steps s' = Nat.max 11 (S (l_steps s)))%nat)).
Proof.
  funelim (stepLoop s); cbn zeta.
  - repeat split; try lia. left. split; [reflexivity | lia].
  - cbn zeta in H. cbn [l_world l_acc l_steps l_warn world_step ticks] in H.
    destruct H as (Ht & Hle & Hc).
    repeat split; try lia.
    destruct Hc as [[Hw Hb] | (Hw & Ha & Hb)].
    + left. split; [assumption | lia].
    + right. repeat split; [assumption | assumption | lia].
  - cbn [l_world l_acc l_steps l_warn world_step ticks].
    repeat split; try lia. right. repeat split; lia.
Qed.

(** No call advances the world by more than eleven fixed steps. *)
Lemma step_at_most_eleven pm dt :
  (stepsBetween pm (fst (step pm dt)) <= 11)%nat.
Proof.
  unfold stepsBetween, step. destruct (world pm) as [w|]; simpl; [|lia].
  match goal with |- context [stepLoop ?s] =>
    pose proof (stepLoop_steps s) as H end.
  cbn zeta in H. cbn [l_world l_acc l_steps l_warn] in H.
  destruct H as (Ht & _ & [[_ Hb] | (_ & _ & Hb)]); lia.
Qed.

(** One call re-establishes the accumulator invariant and returns an
    alpha in [[0, 1)]. *)
Lemma step_invariant pm dt :
  0 <= dt ->
  0 <= accumulator pm < fixedTimeStep ->
  (0 <= snd (step pm dt) < 1) /\
  (0 <= accumulator (fst (step pm dt)) < fixedTimeStep).
Proof.
  intros Hdt Hacc. unfold step.
  destruct (world pm) as [w|] eqn:Hw; simpl.
  - match goal with |- context [stepLoop ?s] =>
      pose proof (stepLoop_acc s) as Ha;
      set (s' := stepLoop s) in * end.
    cbn [l_acc] in Ha.
    assert (Hmin : 0 <= Qmin dt 0.25).
    { apply Q.min_glb; [assumption | discriminate]. }
    assert (H0 : 0 <= accumulator pm + Qmin dt 0.25) by lra.
    specialize (Ha H0). pose proof fixedTimeStep_pos as Hf.
    revert Ha Hf. generalize fixedTimeStep. intros f Ha Hf.
    repeat split; try tauto.
    + apply Qle_shift_div_l; [assumption | lra].
    + apply Qlt_shift_div_r; [assumption | lra].
  - repeat split; try tauto; discriminate.
Qed.

(** C1 -- the code at the failing input: from an empty accumulator a
    frame of a quarter of a second advances the world by eleven fixed
    steps, one more than the stated cap of ten, before the accumulator
    is discarded and the warning is logged. *)
Theorem step_quarter_second_advances_eleven :
  let pm := init create in
  let pm' := fst (step pm 0.25) in
  stepsBetween pm pm' = 11%nat /\
  accumulator pm' = 0 /\
  warnings pm' = [limit_warning].
Proof. vm_compute. repeat split. Qed.

(** For a frame time [dt >= 0] and an accumulator in
    [[0, fixedTimeStep)], as it is initially, [step] returns an alpha in
    [[0, 1)] and leaves the accumulator in [[0, fixedTimeStep)]; when the
    step limit was hit (eleven world steps taken) the accumulator is 0.
    Without a world the call returns 0 and changes nothing. *)
Theorem step_alpha_bounds pm dt :
  0 <= dt ->
  0 <= accumulator pm < fixedTimeStep ->
  let pm' := fst (step pm dt) in
  let alpha := snd (step pm dt) in
  (0 <= alpha < 1) /\
  (0 <= accumulator pm' < fixedTimeStep) /\
  ((11 <= stepsBetween pm pm')%nat -> accumulator pm' = 0) /\
  (world pm = None -> pm' = pm /\ alpha = 0).
Proof.
  intros Hdt Hacc. unfold step, stepsBetween.
  destruct (world pm) as [w|] eqn:Hw; simpl.
  - match goal with |- context [stepLoop ?s] =>
      pose proof (stepLoop_acc s) as Ha;
      pose proof (stepLoop_steps s) as Hs;
      set (s' := stepLoop s) in * end.
    cbn zeta in Hs. cbn [l_world l_acc l_steps l_warn] in Ha, Hs.
    assert (Hmin : 0 <= Qmin dt 0.25).
    { apply Q.min_glb; [assumption | discriminate]. }
    assert (H0 : 0 <= accumulator pm + Qmin dt 0.25) by lra.
    specialize (Ha H0). pose proof fixedTimeStep_pos as Hf.
    revert Ha Hf. generalize fixedTimeStep. intros f Ha Hf.
    repeat split; try tauto.
    + apply Qle_shift_div_l; [assumption | lra].
    + apply Qlt_shift_div_r; [assumption | lra].
    + intro H11. destruct Hs as (Ht & _ & [[_ Hb] | (_ & Hz & _)]);
        [lia | assumption].
    + discriminate.
    + discriminate.
  - repeat split; try tauto; try reflexivity; try discriminate.
    lia.
Qed.

Lemma step_alpha_bounds_witness :
  let pm := init create in
  (0 <= snd (step pm (1 / 30)) < 1) /\
  (0 <= accumulator (fst (step pm (1 / 30))) < fixedTimeStep).
Proof.
  assert (H0 : 0 <= 1 / 30) by discriminate.
  assert (H1 : 0 <= accumulator (init create) < fixedTimeStep)
    by (split; [discriminate | reflexivity]).
  pose proof (step_alpha_bounds (init create) (1 / 30) H0 H1) as H.
  simpl in H. destruct H as (Ha & Hb & _). split; assumption.
Defined.

(** The invariant carries over whole runs of frames: every alpha of a run
    of non-negative frame times lies in [[0, 1)]. *)
Lemma run_alpha_bounds dts : forall pm,
  Forall (fun dt => 0 <= dt) dts ->
  0 <= accumulator pm < fixedTimeStep ->
  Forall (fun a => 0 <= a < 1) (snd (run pm dts)) /\
  0 <= accumulator (fst (run pm dts)) < fixedTimeStep.
Proof.
  induction dts as [|dt rest IH]; intros pm Hd Hacc; simpl.
  - split; [constructor | assumption].
  - inversion Hd as [|? ? Hdt Hrest]; subst.
    pose proof (step_invariant pm dt Hdt Hacc) as (Ha & Hb).
    destruct (step pm dt) as [pm1 a] eqn:Es. simpl in Ha, Hb.
    specialize (IH pm1 Hrest Hb).
    destruct (run pm1 rest) as [pm2 al]. simpl in *.
    destruct IH as [IH1 IH2]. split; [constructor; assumption | assumption].
Qed.


End PhysicsProofs.

(** ** The character controller *)

Module CharacterProofs.
Import Character.
Import Scenario.

(** *** Reading fields through updates *)

Ltac record_norm :=
  cbn [set_world set_rigidBody set_collider set_currentCapsuleHalfHeight
       set_currentCharacterYOffset set_animationGroupY set_actions
       set_currentAnimation set_currentAction set_animationChangeCooldown
       set_isGrounded set_wasGrounded set_jumpPhase set_combatMode
       set_isAttacking set_isRolling set_isCrouching set_crouchTransitioning
       set_ceilingClearanceTimer set_rollDirection set_rollSpeed
       set_characterRotationTarget set_rotationTarget set_keys
       set_jumpPressed set_rollPressed set_leftFoot set_rightFoot
       set_footstepCooldown set_footstepParticles set_effects emit emits
       config world rigidBody collider currentCapsuleHalfHeight
       currentCharacterYOffset animationGroupY actions currentAnimation
       currentAction animationChangeCooldown isGrounded wasGrounded
       jumpPhase combatMode isAttacking isRolling isCrouching
       crouchTransitioning ceilingClearanceTimer rollDirection rollSpeed
       characterRotationTarget rotationTarget keys jumpPressed rollPressed
       leftFoot rightFoot footstepCooldown footstepParticles effects fst
       snd].

Ltac record_eval :=
  cbv [set_world set_rigidBody set_collider set_currentCapsuleHalfHeight
       set_currentCharacterYOffset set_animationGroupY set_actions
       set_currentAnimation set_currentAction set_animationChangeCooldown
       set_isGrounded set_wasGrounded set_jumpPhase set_combatMode
       set_isAttacking set_isRolling set_isCrouching set_crouchTransitioning
       set_ceilingClearanceTimer set_rollDirection set_rollSpeed
       set_characterRotationTarget set_rotationTarget set_keys
       set_jumpPressed set_rollPressed set_leftFoot set_rightFoot
       set_footstepCooldown set_footstepParticles set_effects emit emits
       config world rigidBody collider currentCapsuleHalfHeight
       currentCharacterYOffset animationGroupY actions currentAnimation
       currentAction animationChangeCooldown isGrounded wasGrounded
       jumpPhase combatMode isAttacking isRolling isCrouching
       crouchTransitioning ceilingClearanceTimer rollDirection rollSpeed
       characterRotationTarget rotationTarget keys jumpPressed rollPressed
       leftFoot rightFoot footstepCooldown footstepParticles effects fst snd
       animWrite capsuleWrite].

Ltac split_ifs :=
  repeat match goal with
         | |- context [match ?b with Some _ => _ | None => _ end] => destruct b
         | |- context [if ?b then _ else _] => destruct b
         end.

Lemma setAnimation_shape a c :
  exists ca cn cd e, setAnimation a c = animWrite ca cn cd e c.
Proof.
  destruct c. unfold setAnimation. record_norm.
  split_ifs; do 4 eexists; record_eval; reflexivity.
Qed.

Lemma setAnimation_keeps {A} (f : CharacterController -> A) a c :
  (forall ca cn cd e c, f (animWrite ca cn cd e c) = f c) ->
  f (setAnimation a c) = f c.
Proof.
  intro H. destruct (setAnimation_shape a c) as (ca & cn & cd & e & ->).
  apply H.
Qed.

Lemma capsule_shape t c :
  exists col hh rb off ag,
    updateCapsuleCollider t c = capsuleWrite col hh rb off ag c.
Proof.
  destruct c. unfold updateCapsuleCollider. record_norm.
  split_ifs; do 5 eexists; record_eval; reflexivity.
Qed.

Lemma capsule_keeps {A} (f : CharacterController -> A) t c :
  (forall col hh rb off ag c, f (capsuleWrite col hh rb off ag c) = f c) ->
  f (updateCapsuleCollider t c) = f c.
Proof.
  intro H. destruct (capsule_shape t c) as (col & hh & rb & off & ag & ->).
  apply H.
Qed.

Lemma capsule_hasBody t c :
  isSome (rigidBody (updateCapsuleCollider t c)) = isSome (rigidBody c).
Proof.
  unfold updateCapsuleCollider.
  destruct (rigidBody c) eqn:E; [|rewrite E; reflexivity].
  destruct (world c); [|rewrite E; reflexivity].
  destruct (collider c); [|rewrite E; reflexivity].
  destruct (Qltb _ _); [rewrite E; reflexivity | reflexivity].
Qed.

Lemma playFootstepSound_keeps {A} (f : CharacterController -> A) v c :
  (forall e c, f (set_effects e c) = f c) ->
  f (playFootstepSound v c) = f c.
Proof.
  intro H. unfold playFootstepSound, emit.
  destruct (negb _); [reflexivity | apply H].
Qed.

(** Push a field read through one helper call. *)
Ltac skip_helper :=
  match goal with
  | |- context [isSome (rigidBody (updateCapsuleCollider ?t ?c))] =>
      rewrite (capsule_hasBody t c)
  | |- context [?f (setAnimation ?a ?c)] =>
      rewrite (setAnimation_keeps f a c) by (intros; reflexivity)
  | |- context [?f (updateCapsuleCollider ?t ?c)] =>
      rewrite (capsule_keeps f t c) by (intros; reflexivity)
  | |- context [?f (playFootstepSound ?v ?c)] =>
      rewrite (playFootstepSound_keeps f v c) by (intros; reflexivity)
  end.

(** Case analysis on a conditional that selects between states. *)
Ltac split_state :=
  match goal with
  | |- context [if ?b then ?X else _] =>
      let T := type of X in
      lazymatch T with
      | CharacterController => destruct b eqn:?
      | (CharacterController * Vec3)%type => destruct b eqn:?
      | (CharacterController * bool)%type => destruct b eqn:?
      end
  | |- context [let (_, _) := ?p in _] =>
      lazymatch type of p with
      | (list FootHit * list Effect)%type => destruct p
      end
  end.

Ltac through :=
  repeat first [ progress record_norm | skip_helper | split_state ].

Ltac phase_lemma :=
  intros; unfold kept, inputs, rollState, hasBody; through;
  try solve [reflexivity | congruence].


(** *** Capsule resize *)

(** C2 -- with the body, world and collider in place,
    [updateCapsuleCollider] changes nothing when the half heights differ
    by less than 0.01; otherwise it installs the target profile, leaves
    the world height of the capsule's bottom point where it was (whether
    the capsule grows or shrinks), moves the body by
    [-(current - target)] and the visual offset by [+(current - target)]. *)
Theorem updateCapsuleCollider_keeps_bottom c target rb w col :
  rigidBody c = Some rb -> world c = Some w -> collider c = Some col ->
  let c' := updateCapsuleCollider target c in
  let diff := currentCapsuleHalfHeight c - target in
  (Qabs diff < 0.01 -> c' = c) /\
  (0.01 <= Qabs diff ->
   exists rb' b b',
     rigidBody c' = Some rb' /\
     collider c' = Some (capsule target (capsuleRadius (config c))) /\
     currentCapsuleHalfHeight c' = target /\
     capsuleBottom c = Some b /\ capsuleBottom c' = Some b' /\ b' == b /\
     v_y (translation rb') - v_y (translation rb) == - diff /\
     currentCharacterYOffset c' - currentCharacterYOffset c == diff /\
     animationGroupY c' = currentCharacterYOffset c' /\
     v_x (translation rb') = v_x (translation rb) /\
     v_z (translation rb') = v_z (translation rb) /\
     linvel rb' = linvel rb).
Proof.
  intros Hrb Hw Hcol. cbn zeta. unfold updateCapsuleCollider.
  rewrite Hrb, Hw, Hcol. split; intro H.
  - apply Qltb_lt in H. rewrite H. reflexivity.
  - apply Qltb_ge in H. rewrite H.
    unfold capsuleBottom. rewrite Hrb. cbn.
    eexists. eexists. eexists.
    split; [reflexivity|]. split; [reflexivity|]. split; [reflexivity|].
    split; [reflexivity|]. split; [reflexivity|].
    cbn. repeat split; try reflexivity; ring.
Qed.

Lemma updateCapsuleCollider_keeps_bottom_witness :
  exists b b',
    capsuleBottom (spawned (planeWorld None) 1) = Some b /\
    capsuleBottom (updateCapsuleCollider 0.35 (spawned (planeWorld None) 1))
      = Some b' /\ b' == b.
Proof.
  destruct (updateCapsuleCollider_keeps_bottom
              (spawned (planeWorld None) 1) 0.35
              {| translation := {| v_x := 0; v_y := 1; v_z := 0 |};
                 linvel := zeroVec |}
              (planeWorld None) (capsule (1.4 / 2) 0.3)
              eq_refl eq_refl eq_refl) as [_ H].
  destruct H as (rb' & b & b' & _ & _ & _ & Hb & Hb' & Heq & _).
  - vm_compute. discriminate.
  - exists b, b'. repeat split; assumption.
Defined.

(** Without a rigid body, world or collider the call does nothing. *)
Lemma updateCapsuleCollider_without_body c target :
  rigidBody c = None \/ world c = None \/ collider c = None ->
  updateCapsuleCollider target c = c.
Proof.
  unfold updateCapsuleCollider. intros [H | [H | H]]; rewrite H;
    destruct (rigidBody c), (world c); reflexivity.
Qed.

(** *** Ray-cast exceptions *)

(** C8 -- the code at the failing input: when the world's ray casts
    throw, the foot ray catches the exception and reports no hit, but the
    grounded check and the ceiling check let it escape, and [update]
    ends with it. *)
Theorem ground_and_ceiling_checks_let_exceptions_escape :
  let c := spawned throwingWorld 1 in
  castFootRay c (leftFootWorldPosition standingPose)
    = (None, [ConsoleWarn footRayWarning]) /\
  checkGroundedRapier c = Throws /\
  checkCeilingClearance c = Throws /\
  completed (update facingZ frame standingPose c) = false.
Proof. vm_compute. repeat split. Qed.

(** The same for any controller that has a body and a world. *)
Lemma checks_propagate_throw c rb w :
  rigidBody c = Some rb -> world c = Some w ->
  (forall o d l, castRay w o d l = Throws) ->
  checkGroundedRapier c = Throws /\ checkCeilingClearance c = Throws.
Proof.
  intros Hrb Hw Ht. unfold checkGroundedRapier, checkCeilingClearance.
  rewrite Hrb, Hw. cbn zeta. rewrite !Ht. split; reflexivity.
Qed.

Lemma castFootRay_catches c pos w :
  world c = Some w ->
  (forall o d l, castRayAndGetNormal w o d l = Throws) ->
  fst (castFootRay c pos) = None.
Proof.
  intros Hw Ht. unfold castFootRay. rewrite Hw.
  destruct (rigidBody c); [|reflexivity]. cbn zeta. rewrite Ht. reflexivity.
Qed.

(** *** Footsteps *)

Lemma groundedFoot_spec hit :
  groundedFoot hit = true <->
  exists h, hit = Some h /\
    hitToi h < (if Qgtb (slopeFactor h) 0.4 then 0.28 else 0.23).
Proof.
  unfold groundedFoot. destruct hit as [h|].
  - rewrite Qltb_lt. split.
    + intro H. exists h. split; [reflexivity | assumption].
    + intros (h' & E & H). inversion E; subst. assumption.
  - split; [discriminate | intros (h & E & _); discriminate].
Qed.

(** [castFootRay] only reports hits within the ray length 0.35, which
    is above both thresholds: a foot is grounded exactly when the ray
    reports a time of impact below the threshold for its slope. *)
Lemma castFootRay_within_length c pos h :
  fst (castFootRay c pos) = Some h -> hitToi h <= 0.35.
Proof.
  unfold castFootRay.
  destruct (world c) as [w|]; [|discriminate].
  destruct (rigidBody c); [|discriminate]. cbn zeta.
  destruct (castRayAndGetNormal w _ _ _) as [[hit|]|]; try discriminate.
  destruct (hitToiOf hit) as [t|]; [|discriminate].
  destruct (Qleb t 0.35) eqn:E; [|discriminate].
  cbn. intro H. inversion H; subst. cbn. apply Qleb_le. assumption.
Qed.

(** C6 -- one foot's block of [updateFootsteps].  A footstep event (a
    non-null [leftHit] / [rightHit]) occurs only when the foot's grounded
    flag goes from false to true in this frame, the foot being grounded
    iff the foot ray's time of impact is below 0.28 for a slope factor
    above 0.4 and below 0.23 otherwise, the cooldown is non-positive and
    a motion heuristic holds.  There is no event when the flag was
    already true (sustained contact), none while the cooldown is positive,
    and none in the frame processed right after an event. *)
Theorem footstep_fires_on_rising_edge M c ft pos delta fc cd :
  let r := processFoot M c ft pos delta fc cd in
  let hit := fst (castFootRay c pos) in
  (fr_hit r <> None ->
     ft_wasGrounded ft = false /\
     ft_wasGrounded (fr_track r) = true /\
     (exists h, hit = Some h /\ fr_hit r = Some h /\
        hitToi h < (if Qgtb (slopeFactor h) 0.4 then 0.28 else 0.23) /\
        footMotion M (ft_prevPosition ft) pos delta (slopeFactor h) = true) /\
     cd <= 0 /\ fr_cooldown r = fc) /\
  (ft_bone ft = true -> ft_initialized ft = true ->
     ft_wasGrounded (fr_track r) = groundedFoot hit) /\
  (ft_wasGrounded ft = true -> fr_hit r = None /\ fr_cooldown r = cd) /\
  (0 < cd -> fr_hit r = None /\ fr_cooldown r = cd) /\
  (fr_hit r <> None ->
     forall M2 c2 pos2 delta2 fc2 cd2,
       fr_hit (processFoot M2 c2 (fr_track r) pos2 delta2 fc2 cd2) = None).
Proof.
  cbn zeta.
  assert (Hstill : forall M2 c2 t pos2 delta2 fc2 cd2,
            ft_wasGrounded t = true ->
            fr_hit (processFoot M2 c2 t pos2 delta2 fc2 cd2) = None /\
            fr_cooldown (processFoot M2 c2 t pos2 delta2 fc2 cd2) = cd2).
  { intros M2 c2 t pos2 delta2 fc2 cd2 Ht. unfold processFoot.
    destruct (ft_bone t); [|split; reflexivity].
    destruct (ft_initialized t); [|split; reflexivity]. cbn [negb].
    destruct (castFootRay c2 pos2) as [hit2 log2]. rewrite Ht.
    rewrite andb_false_r. cbn. split; reflexivity. }
  assert (Hfire : fr_hit (processFoot M c ft pos delta fc cd) <> None ->
     ft_wasGrounded ft = false /\
     ft_wasGrounded (fr_track (processFoot M c ft pos delta fc cd)) = true /\
     (exists h, fst (castFootRay c pos) = Some h /\
        fr_hit (processFoot M c ft pos delta fc cd) = Some h /\
        hitToi h < (if Qgtb (slopeFactor h) 0.4 then 0.28 else 0.23) /\
        footMotion M (ft_prevPosition ft) pos delta (slopeFactor h) = true) /\
     cd <= 0 /\ fr_cooldown (processFoot M c ft pos delta fc cd) = fc).
  { unfold processFoot.
    destruct (ft_bone ft); [|intro H; exfalso; apply H; reflexivity].
    destruct (ft_initialized ft); [|intro H; exfalso; apply H; reflexivity].
    cbn [negb]. destruct (castFootRay c pos) as [hit log]. cbn [fst].
    destruct (groundedFoot hit) eqn:Hg;
      [|intro H; exfalso; apply H; reflexivity].
    destruct (ft_wasGrounded ft);
      [intro H; exfalso; apply H; reflexivity|].
    destruct (Qleb cd 0) eqn:Hcd;
      [|intro H; exfalso; apply H; reflexivity].
    cbn [andb negb fr_hit fr_track fr_cooldown ft_wasGrounded].
    apply groundedFoot_spec in Hg. destruct Hg as (h & -> & Hlt).
    destruct (footMotion M (ft_prevPosition ft) pos delta (slopeFactor h))
      eqn:Hm; [|intro H; exfalso; apply H; reflexivity].
    intros _. repeat split; try reflexivity.
    - exists h. repeat split; assumption.
    - apply Qleb_le. assumption. }
  split; [exact Hfire|]. split; [|split; [|split]].
  - intros Hb Hi. unfold processFoot. rewrite Hb, Hi. cbn [negb].
    destruct (castFootRay c pos) as [hit log]. reflexivity.
  - intro Hw. apply Hstill. assumption.
  - intro Hcd. unfold processFoot.
    destruct (ft_bone ft); [|split; reflexivity].
    destruct (ft_initialized ft); [|split; reflexivity]. cbn [negb].
    destruct (castFootRay c pos) as [hit log].
    apply Qleb_gt in Hcd. rewrite Hcd. rewrite andb_false_r. cbn.
    split; reflexivity.
  - intros Hf M2 c2 pos2 delta2 fc2 cd2. apply Hstill.
    apply Hfire in Hf. tauto.
Qed.

(** *** What the sections of the frame update leave alone *)

Lemma crouchTimer_kept h d c : kept (crouchTimer h d c) = kept c.
Proof. unfold crouchTimer. phase_lemma. Qed.

Lemma crouchDecision_kept h c : kept (fst (crouchDecision h c)) = kept c.
Proof. unfold crouchDecision. phase_lemma. Qed.

Lemma landingDetection_kept g p cv :
  kept (fst (landingDetection g p cv)) = kept (fst cv).
Proof. unfold landingDetection. phase_lemma. Qed.

Lemma rollInput_kept M g s cv :
  isRolling (fst cv) = true ->
  kept (fst (rollInput M g s cv)) = kept (fst cv).
Proof.
  intro H. unfold rollInput. rewrite H. rewrite !andb_false_r. phase_lemma.
Qed.

Lemma fallingDetection_kept g s c : kept (fallingDetection g s c) = kept c.
Proof. unfold fallingDetection. phase_lemma. Qed.

Lemma danceInput_kept c : kept (danceInput c) = kept c.
Proof. unfold danceInput. phase_lemma. Qed.

Lemma crouchChange_kept s c : kept (crouchChange s c) = kept c.
Proof. unfold crouchChange. phase_lemma. Qed.

Lemma jumpTrigger_kept g i cv :
  kept (fst (jumpTrigger g i cv)) = kept (fst cv).
Proof. unfold jumpTrigger. phase_lemma. Qed.

Lemma movementAnimation_kept g s sp c : kept (movementAnimation g s sp c) = kept c.
Proof. unfold movementAnimation, walkBackwardMode. phase_lemma. Qed.

Lemma idleAnimation_kept g s c : kept (idleAnimation g s c) = kept c.
Proof. unfold idleAnimation. phase_lemma. Qed.

Lemma movementInput_kept M g s cv :
  kept (fst (movementInput M g s cv)) = kept (fst cv).
Proof.
  unfold movementInput, movingBranch, idleBranch. cbn zeta.
  destruct (_ || _); cbn [fst snd];
    [rewrite movementAnimation_kept | rewrite idleAnimation_kept];
    rewrite jumpTrigger_kept; phase_lemma.
Qed.

(** *** The prelude of [update] *)

Lemma updateFootsteps_shape M d p c rb :
  rigidBody c = Some rb ->
  exists l r fc e,
    updateFootsteps M d p c
    = Returns (set_effects e (set_footstepCooldown fc
                 (set_rightFoot r (set_leftFoot l c)))).
Proof.
  intro Hrb. unfold updateFootsteps, playFootstepSound. rewrite Hrb.
  destruct c. record_norm.
  split_ifs; do 4 eexists; record_eval; reflexivity.
Qed.

Lemma update_runs M delta pose c rb g h :
  rigidBody c = Some rb ->
  checkGroundedRapier c = Returns g ->
  (if isCrouching c then checkCeilingClearance c else Returns true)
    = Returns h ->
  exists ag acd fc l r e,
    update M delta pose c
    = Done (applyFrame M delta pose
              (if crouchTransitioning c then true else g) h (linvel rb)
              (preludeWrite (if crouchTransitioning c then true else g)
                 ag acd fc l r e c)).
Proof.
  intros Hrb Hg Hh. unfold update. rewrite Hrb.
  destruct (updateFootsteps_shape M delta pose (tickCooldowns delta c) rb)
    as (l & r & fc & e & ->).
  { unfold tickCooldowns. record_norm. assumption. }
  match goal with |- context [checkGroundedRapier ?x] =>
    replace (checkGroundedRapier x) with (checkGroundedRapier c)
      by (unfold checkGroundedRapier, tickCooldowns; record_norm; reflexivity)
  end.
  rewrite Hg. unfold tickCooldowns. record_norm.
  match goal with |- context [checkCeilingClearance ?x] =>
    replace (checkCeilingClearance x) with (checkCeilingClearance c)
      by (unfold checkCeilingClearance; record_norm; reflexivity)
  end.
  rewrite Hh.
  exists (currentCharacterYOffset c),
         (Qmax (animationChangeCooldown c - delta) 0), fc, l, r, e.
  reflexivity.
Qed.


(** *** Roll velocity *)

Lemma kept_prelude g ag acd fc l r e c :
  kept (preludeWrite g ag acd fc l r e c) = kept c.
Proof. reflexivity. Qed.

Lemma transitions_kept M pose g s cv :
  isRolling (fst cv) = true ->
  kept (fst (transitions M pose g s cv)) = kept (fst cv).
Proof.
  intro Hr. unfold transitions, onState. cbn [fst snd].
  rewrite crouchChange_kept, danceInput_kept, fallingDetection_kept.
  rewrite rollInput_kept.
  - apply landingDetection_kept.
  - pose proof (landingDetection_kept g pose cv) as H.
    unfold kept, rollState in H. congruence.
Qed.

Lemma beforeOverride_kept M delta pose g h vel c :
  isRolling c = true ->
  let c1 := crouchTimer h delta c in
  let s := snd (crouchDecision h c1) in
  kept (fst (movementInput M g s
          (transitions M pose g s (fst (crouchDecision h c1), vel))))
  = kept c.
Proof.
  intros Hr c1 s. subst c1 s. rewrite movementInput_kept.
  assert (Hk : kept (fst (crouchDecision h (crouchTimer h delta c))) = kept c)
    by (rewrite crouchDecision_kept; apply crouchTimer_kept).
  rewrite transitions_kept; cbn [fst]; [exact Hk|].
  unfold kept, rollState in Hk. congruence.
Qed.

Lemma beforeOverride_rolling M delta pose c rb d s g h vel :
  rigidBody c = Some rb ->
  isRolling c = true -> rollDirection c = Some d -> rollSpeed c = Some s ->
  exists c7 v7 rb7,
    applyFrame M delta pose g h vel c = setLinvel (rollOverride M g (c7, v7)) /\
    isRolling c7 = true /\ rollDirection c7 = Some d /\ rollSpeed c7 = Some s /\
    rigidBody c7 = Some rb7.
Proof.
  intros Hrb Hroll Hd Hs.
  unfold applyFrame. cbn zeta.
  match goal with |- context [rollOverride M g ?cv] =>
    set (cv7 := cv) end.
  assert (Hk : kept (fst cv7) = kept c).
  { unfold cv7. rewrite beforeOverride_kept; [reflexivity | exact Hroll]. }
  unfold kept, rollState, hasBody in Hk.
  assert (Hr7 : isRolling (fst cv7) = true) by congruence.
  assert (Hd7 : rollDirection (fst cv7) = Some d) by congruence.
  assert (Hs7 : rollSpeed (fst cv7) = Some s) by congruence.
  assert (Hb7 : isSome (rigidBody (fst cv7)) = true).
  { replace (isSome (rigidBody (fst cv7))) with (isSome (rigidBody c)) by congruence.
    rewrite Hrb. reflexivity. }
  clearbody cv7. destruct cv7 as [c7 v7]. cbn [fst snd] in *.
  destruct (rigidBody c7) as [rb7|] eqn:Hrb7; [|discriminate].
  exists c7, v7, rb7. repeat split; assumption.
Qed.

Lemma rollOverride_grounded M c7 v7 rb7 d s :
  isRolling c7 = true -> rollDirection c7 = Some d -> rollSpeed c7 = Some s ->
  rigidBody c7 = Some rb7 ->
  setLinvel (rollOverride M true (c7, v7))
  = set_rigidBody
      (Some {| translation := translation rb7;
               linvel := {| v_x := Msin M d * s; v_y := v_y v7;
                            v_z := Mcos M d * s |} |}) c7.
Proof.
  intros Hr Hd Hs Hrb. unfold rollOverride, setLinvel. cbn [fst snd].
  rewrite Hd, Hs, Hr. cbn [andb fst snd]. rewrite Hrb. reflexivity.
Qed.

(** C4 -- while a roll is active and the character is grounded (the
    ground ray hits, or a crouch transition forces the flag), [update]
    writes to the rigid body the horizontal velocity
    [(sin d * s, cos d * s)] of the direction [d] and speed [s] stored at
    roll start, whatever keys are held, and leaves the stored roll vector
    and the rolling flag as they are. *)
Theorem roll_velocity_locked_while_grounded M delta pose c rb d s g h :
  rigidBody c = Some rb ->
  isRolling c = true -> rollDirection c = Some d -> rollSpeed c = Some s ->
  checkGroundedRapier c = Returns g ->
  (g = true \/ crouchTransitioning c = true) ->
  (if isCrouching c then checkCeilingClearance c else Returns true)
    = Returns h ->
  exists c' v,
    update M delta pose c = Done c' /\
    velocityOf c' = Some v /\
    v_x v = Msin M d * s /\ v_z v = Mcos M d * s /\
    isRolling c' = true /\ rollDirection c' = Some d /\ rollSpeed c' = Some s.
Proof.
  intros Hrb Hroll Hd Hs Hg Hgr Hh.
  destruct (update_runs M delta pose c rb g h Hrb Hg Hh)
    as (ag & acd & fc & l & r & e & Hu).
  assert (Hgrounded : (if crouchTransitioning c then true else g) = true).
  { destruct Hgr as [-> | ->]; [destruct (crouchTransitioning c)|]; reflexivity. }
  rewrite Hgrounded in Hu.
  destruct (beforeOverride_rolling M delta pose
              (preludeWrite true ag acd fc l r e c) rb d s true h (linvel rb))
    as (c7 & v7 & rb7 & Hf & Hr7 & Hd7 & Hs7 & Hrb7); try assumption.
  rewrite Hf in Hu.
  rewrite (rollOverride_grounded M c7 v7 rb7 d s Hr7 Hd7 Hs7 Hrb7) in Hu.
  eexists. eexists. split; [exact Hu|].
  unfold velocityOf. cbn [rigidBody set_rigidBody option_map linvel v_x v_z
                          isRolling rollDirection rollSpeed].
  repeat split; assumption.
Qed.

(** *** Crouching *)

Lemma rollOverride_fst M g cv : fst (rollOverride M g cv) = fst cv.
Proof.
  unfold rollOverride. destruct (rollDirection (fst cv)); [|reflexivity].
  destruct (rollSpeed (fst cv)); [|reflexivity].
  destruct (_ && _); reflexivity.
Qed.

Ltac close_read := intros; through; solve [reflexivity | congruence].

(** Push a field read through one section of the frame update that does
    not write the field. *)
Ltac peel_inner :=
  match goal with
  | |- context [?f (fst (jumpTrigger ?g ?i ?cv))] =>
      let H := fresh in
      assert (H : forall g' i' cv',
                 f (fst (jumpTrigger g' i' cv')) = f (fst cv'))
        by (unfold jumpTrigger; close_read);
      rewrite (H g i cv); clear H
  | |- context [?f (movementAnimation ?g ?s ?sp ?c)] =>
      let H := fresh in
      assert (H : forall g' s' sp' c',
                 f (movementAnimation g' s' sp' c') = f c')
        by (unfold movementAnimation, walkBackwardMode; close_read);
      rewrite (H g s sp c); clear H
  | |- context [?f (idleAnimation ?g ?s ?c)] =>
      let H := fresh in
      assert (H : forall g' s' c', f (idleAnimation g' s' c') = f c')
        by (unfold idleAnimation; close_read);
      rewrite (H g s c); clear H
  end.

Ltac peel :=
  match goal with
  | |- context [transitions ?M ?p ?g ?s ?cv] =>
      unfold transitions; cbn zeta
  | |- context [fst (onState ?F ?cv)] =>
      change (fst (onState F cv)) with (F (fst cv))
  | |- context [fst (rollOverride ?M ?g ?cv)] =>
      rewrite (rollOverride_fst M g cv)
  | |- context [?f (setLinvel ?cv)] =>
      let H := fresh in
      assert (H : forall cv', f (setLinvel cv') = f (fst cv'))
        by (intro; unfold setLinvel;
            match goal with |- context [rigidBody ?x] =>
              destruct (rigidBody x) end; record_norm; reflexivity);
      rewrite (H cv); clear H
  | |- context [?f (fst (movementInput ?M ?g ?s ?cv))] =>
      let H := fresh in
      assert (H : forall M' g' s' cv',
                 f (fst (movementInput M' g' s' cv')) = f (fst cv'))
        by (intros; unfold movementInput, movingBranch, idleBranch;
            cbn zeta; destruct (_ || _); cbn [fst snd];
            repeat peel_inner; close_read);
      rewrite (H M g s cv); clear H
  | |- context [?f (crouchChange ?s ?c)] =>
      let H := fresh in
      assert (H : forall s' c', f (crouchChange s' c') = f c')
        by (unfold crouchChange; close_read);
      rewrite (H s c); clear H
  | |- context [?f (danceInput ?c)] =>
      let H := fresh in
      assert (H : forall c', f (danceInput c') = f c')
        by (unfold danceInput; close_read);
      rewrite (H c); clear H
  | |- context [?f (fallingDetection ?g ?s ?c)] =>
      let H := fresh in
      assert (H : forall g' s' c', f (fallingDetection g' s' c') = f c')
        by (unfold fallingDetection; close_read);
      rewrite (H g s c); clear H
  | |- context [?f (fst (rollInput ?M ?g ?s ?cv))] =>
      let H := fresh in
      assert (H : forall M' g' s' cv',
                 f (fst (rollInput M' g' s' cv')) = f (fst cv'))
        by (unfold rollInput; close_read);
      rewrite (H M g s cv); clear H
  | |- context [?f (fst (landingDetection ?g ?p ?cv))] =>
      let H := fresh in
      assert (H : forall g' p' cv',
                 f (fst (landingDetection g' p' cv')) = f (fst cv'))
        by (unfold landingDetection; close_read);
      rewrite (H g p cv); clear H
  | |- context [?f (fst (crouchDecision ?h ?c))] =>
      let H := fresh in
      assert (H : forall h' c', f (fst (crouchDecision h' c')) = f c')
        by (unfold crouchDecision; close_read);
      rewrite (H h c); clear H
  | |- context [?f (crouchTimer ?h ?d ?c)] =>
      let H := fresh in
      assert (H : forall h' d' c', f (crouchTimer h' d' c') = f c')
        by (unfold crouchTimer; close_read);
      rewrite (H h d c); clear H
  | |- _ => progress cbn [fst snd]
  end.

Lemma crouchChange_sets s c : isCrouching (crouchChange s c) = s.
Proof.
  unfold crouchChange. destruct (Bool.eqb s (isCrouching c)) eqn:E; cbn [negb].
  - apply eqb_prop in E. congruence.
  - reflexivity.
Qed.

(** After a frame the crouch flag is the frame's [shouldBeCrouched], and
    the clearance timer is what "Crouch logic" left. *)
Lemma applyFrame_crouch M delta pose g h vel c :
  let d := crouchDecision h (crouchTimer h delta c) in
  isCrouching (applyFrame M delta pose g h vel c) = snd d /\
  ceilingClearanceTimer (applyFrame M delta pose g h vel c)
  = ceilingClearanceTimer (fst d).
Proof.
  cbn zeta. unfold applyFrame. cbn zeta. split.
  - do 5 peel. apply crouchChange_sets.
  - repeat peel. reflexivity.
Qed.


Lemma Qgeb_le a b : Qgeb a b = true <-> b <= a.
Proof. unfold Qgeb. apply Qleb_le. Qed.


(** "Crouch logic" by cases. *)
Lemma crouchLogic_cases h delta c :
  0 <= delta ->
  let d := crouchDecision h (crouchTimer h delta c) in
  (key_crouch (keys c) = true -> snd d = true) /\
  (key_crouch (keys c) = false -> isCrouching c = false -> h = true ->
     snd d = false) /\
  (key_crouch (keys c) = false -> isCrouching c = true -> h = false ->
     snd d = true /\ ceilingClearanceTimer (fst d) = 0) /\
  (key_crouch (keys c) = false -> isCrouching c = true -> h = true ->
   0 <= ceilingClearanceTimer c ->
     ceilingClearanceTimer (fst d) = ceilingClearanceTimer c + delta /\
     (ceilingClearanceTimer c + delta < standUpDelay -> snd d = true) /\
     (standUpDelay <= ceilingClearanceTimer c + delta -> snd d = false)) /\
  (key_crouch (keys c) = false -> isCrouching c = true -> h = true ->
   ceilingClearanceTimer c < 0 -> snd d = false).
Proof.
  intros Hdelta d. subst d. unfold crouchDecision, crouchTimer.
  split; [|split; [|split; [|split]]].
  - intros Hk. rewrite Hk. record_norm. rewrite Hk. reflexivity.
  - intros Hk Hc ->. rewrite Hk, Hc. cbn [negb andb]. record_norm.
    rewrite Hk. reflexivity.
  - intros Hk Hc ->. rewrite Hk, Hc. cbn [negb andb]. record_norm.
    rewrite Hk. split; reflexivity.
  - intros Hk Hc -> Ht. rewrite Hk, Hc. cbn [negb andb].
    pose proof Ht as Ht'. apply Qgeb_le in Ht'. rewrite Ht'.
    record_norm. rewrite Hk. cbn [negb].
    assert (Hge : Qgeb (ceilingClearanceTimer c + delta) 0 = true)
      by (apply Qgeb_le; lra).
    rewrite Hge. cbn [andb fst snd]. split; [|split].
    + destruct (Qltb _ _); reflexivity.
    + intro Hlt. apply Qltb_lt in Hlt. rewrite Hlt. reflexivity.
    + intro Hle. apply Qltb_ge in Hle. rewrite Hle. reflexivity.
  - intros Hk Hc -> Ht. rewrite Hk, Hc. cbn [negb andb].
    assert (Hn : Qgeb (ceilingClearanceTimer c) 0 = false)
      by (unfold Qgeb; apply Qleb_gt; assumption).
    rewrite Hn. record_norm. rewrite Hk, Hn. reflexivity.
Qed.

(** C3 -- what a completed frame does to the crouch flag.  A held
    crouch key crouches.  Without the key a standing character stays
    standing: the ceiling ray is not cast for it.  A crouching character
    whose ceiling ray reports a hit stays crouched and its clearance timer
    restarts at 0; once the ray reports no hit the timer advances by the
    frame time, and the character stays crouched while the timer is below
    [standUpDelay] and stands on the first frame where it has reached it.
    A crouching character that was never blocked (timer at -1) stands at
    once. *)
Theorem crouch_follows_key_and_ceiling M delta pose c rb g h :
  rigidBody c = Some rb ->
  checkGroundedRapier c = Returns g ->
  (if isCrouching c then checkCeilingClearance c else Returns true)
    = Returns h ->
  0 <= delta ->
  exists c',
    update M delta pose c = Done c' /\
    (key_crouch (keys c) = true -> isCrouching c' = true) /\
    (key_crouch (keys c) = false -> isCrouching c = false ->
       isCrouching c' = false) /\
    (key_crouch (keys c) = false -> isCrouching c = true -> h = false ->
       isCrouching c' = true /\ ceilingClearanceTimer c' = 0) /\
    (key_crouch (keys c) = false -> isCrouching c = true -> h = true ->
     0 <= ceilingClearanceTimer c ->
       ceilingClearanceTimer c' = ceilingClearanceTimer c + delta /\
       (ceilingClearanceTimer c + delta < standUpDelay ->
          isCrouching c' = true) /\
       (standUpDelay <= ceilingClearanceTimer c + delta ->
          isCrouching c' = false)) /\
    (key_crouch (keys c) = false -> isCrouching c = true -> h = true ->
     ceilingClearanceTimer c < 0 -> isCrouching c' = false).
Proof.
  intros Hrb Hg Hh Hdelta.
  destruct (update_runs M delta pose c rb g h Hrb Hg Hh)
    as (ag & acd & fc & l & r & e & Hu).
  match type of Hu with
  | _ = Done (applyFrame M delta pose ?g' h ?v ?c5) =>
      destruct (applyFrame_crouch M delta pose g' h v c5) as [Hc Ht];
      destruct (crouchLogic_cases h delta c5 Hdelta)
        as (L1 & L2 & L3 & L4 & L5)
  end.
  cbn zeta in Hc, Ht.
  eexists. split; [exact Hu|]. rewrite Hc, Ht.
  split; [exact L1|]. split; [|split; [exact L3|split; [exact L4|exact L5]]].
  intros Hk Hs. apply L2; try assumption.
  rewrite Hs in Hh. congruence.
Qed.

Ltac record_norm_in H :=
  cbn [set_world set_rigidBody set_collider set_currentCapsuleHalfHeight
       set_currentCharacterYOffset set_animationGroupY set_actions
       set_currentAnimation set_currentAction set_animationChangeCooldown
       set_isGrounded set_wasGrounded set_jumpPhase set_combatMode
       set_isAttacking set_isRolling set_isCrouching set_crouchTransitioning
       set_ceilingClearanceTimer set_rollDirection set_rollSpeed
       set_characterRotationTarget set_rotationTarget set_keys
       set_jumpPressed set_rollPressed set_leftFoot set_rightFoot
       set_footstepCooldown set_footstepParticles set_effects emit emits
       config world rigidBody collider currentCapsuleHalfHeight
       currentCharacterYOffset animationGroupY actions currentAnimation
       currentAction animationChangeCooldown isGrounded wasGrounded
       jumpPhase combatMode isAttacking isRolling isCrouching
       crouchTransitioning ceilingClearanceTimer rollDirection rollSpeed
       characterRotationTarget rotationTarget keys jumpPressed rollPressed
       leftFoot rightFoot footstepCooldown footstepParticles effects fst
       snd] in H.

(** *** The effect log only grows *)

Lemma grows_refl c : grows c c.
Proof. exists []. rewrite app_nil_r. reflexivity. Qed.

Lemma grows_trans c1 c2 c3 : grows c1 c2 -> grows c2 c3 -> grows c1 c3.
Proof.
  intros [l1 H1] [l2 H2]. exists (l1 ++ l2).
  rewrite H2, H1, app_assoc. reflexivity.
Qed.

Lemma grows_same c c' : effects c' = effects c -> grows c c'.
Proof. intro H. exists []. rewrite app_nil_r. assumption. Qed.

Lemma emitted_after e c1 c2 c3 :
  grows c1 c2 -> emitted e c2 c3 -> emitted e c1 c3.
Proof.
  intros [l H1] (pre & post & H2). exists (l ++ pre), post.
  rewrite H2, H1, <- !app_assoc. reflexivity.
Qed.

Lemma emitted_before e c1 c2 c3 :
  emitted e c1 c2 -> grows c2 c3 -> emitted e c1 c3.
Proof.
  intros (pre & post & H1) [l H2]. exists pre, (post ++ l).
  rewrite H2, H1, <- !app_assoc. reflexivity.
Qed.

Lemma emit_emitted e c : emitted e c (emit e c).
Proof. exists [], []. reflexivity. Qed.

Lemma setAnimation_grows a c : grows c (setAnimation a c).
Proof.
  unfold grows, setAnimation. split_ifs; record_norm;
    first [ exists []; rewrite app_nil_r; reflexivity
          | eexists; reflexivity ].
Qed.

Lemma playFootstepSound_grows v c : grows c (playFootstepSound v c).
Proof.
  unfold grows, playFootstepSound. split_ifs; record_norm;
    first [ exists []; rewrite app_nil_r; reflexivity
          | eexists; reflexivity ].
Qed.

Lemma capsule_grows t c : grows c (updateCapsuleCollider t c).
Proof.
  apply grows_same. apply capsule_keeps. intros. reflexivity.
Qed.

(** Read the log through helper calls, collecting what they appended. *)
Ltac log_step :=
  match goal with
  | |- context [effects (setAnimation ?a ?c)] =>
      let l := fresh "l" in let H := fresh in
      destruct (setAnimation_grows a c) as [l H]; rewrite H; clear H
  | |- context [effects (playFootstepSound ?v ?c)] =>
      let l := fresh "l" in let H := fresh in
      destruct (playFootstepSound_grows v c) as [l H]; rewrite H; clear H
  | |- context [effects (updateCapsuleCollider ?t ?c)] =>
      rewrite (capsule_keeps effects t c) by (intros; reflexivity)
  end.

Ltac close_log :=
  first [ exists []; rewrite app_nil_r; reflexivity
        | eexists; rewrite <- ?app_assoc; reflexivity ].

Ltac grows_tac :=
  intros; unfold grows;
  repeat first [ progress record_norm | log_step | split_state ];
  close_log.

Lemma crouchTimer_grows h d c : grows c (crouchTimer h d c).
Proof. unfold crouchTimer. grows_tac. Qed.

Lemma crouchDecision_grows h c : grows c (fst (crouchDecision h c)).
Proof. unfold crouchDecision. grows_tac. Qed.

Lemma landingDetection_grows g p cv :
  grows (fst cv) (fst (landingDetection g p cv)).
Proof. unfold landingDetection. grows_tac. Qed.

Lemma rollInput_grows M g s cv : grows (fst cv) (fst (rollInput M g s cv)).
Proof. unfold rollInput. grows_tac. Qed.

Lemma fallingDetection_grows g s c : grows c (fallingDetection g s c).
Proof. unfold fallingDetection. grows_tac. Qed.

Lemma danceInput_grows c : grows c (danceInput c).
Proof. unfold danceInput. grows_tac. Qed.

Lemma crouchChange_grows s c : grows c (crouchChange s c).
Proof. unfold crouchChange. grows_tac. Qed.

Lemma jumpTrigger_grows g i cv : grows (fst cv) (fst (jumpTrigger g i cv)).
Proof. unfold jumpTrigger. grows_tac. Qed.

Lemma movementAnimation_grows g s sp c : grows c (movementAnimation g s sp c).
Proof. unfold movementAnimation, walkBackwardMode. grows_tac. Qed.

Lemma idleAnimation_grows g s c : grows c (idleAnimation g s c).
Proof. unfold idleAnimation. grows_tac. Qed.

Lemma setLinvel_grows cv : grows (fst cv) (setLinvel cv).
Proof. unfold setLinvel. destruct (rigidBody (fst cv)); grows_tac. Qed.


Lemma transitions_grows M pose g s cv :
  grows (fst cv) (fst (transitions M pose g s cv)).
Proof.
  unfold transitions, onState. cbn [fst snd].
  eapply grows_trans; [|apply crouchChange_grows].
  eapply grows_trans; [|apply danceInput_grows].
  eapply grows_trans; [|apply fallingDetection_grows].
  eapply grows_trans; [|apply rollInput_grows].
  apply landingDetection_grows.
Qed.

Lemma updateFootsteps_grows M d p c c' :
  updateFootsteps M d p c = Returns c' -> grows c c'.
Proof.
  unfold updateFootsteps, grows.
  destruct (_ || _).
  { intro H. injection H as <-. close_log. }
  destruct (rigidBody c); [|discriminate]. cbn zeta.
  destruct (_ || _); [destruct (_ && _)|]; intro H; injection H as <-;
    repeat first [ progress record_norm | log_step ]; close_log.
Qed.

(** *** Jumping *)

Lemma rollOverride_vy M g cv : v_y (snd (rollOverride M g cv)) = v_y (snd cv).
Proof.
  unfold rollOverride. destruct (rollDirection (fst cv)); [|reflexivity].
  destruct (rollSpeed (fst cv)); [|reflexivity].
  destruct (_ && _); reflexivity.
Qed.

Lemma setLinvel_velocity cv :
  hasBody (fst cv) = true -> velocityOf (setLinvel cv) = Some (snd cv).
Proof.
  unfold hasBody, setLinvel, velocityOf.
  destruct (rigidBody (fst cv)); [reflexivity | discriminate].
Qed.

(** The jump trigger, when it fires. *)
Lemma jumpTrigger_fires i cv :
  key_jump (keys (fst cv)) = true -> jumpPressed (fst cv) = false ->
  let r := jumpTrigger true i cv in
  jumpPhase (fst r) = phaseStart /\ jumpPressed (fst r) = true /\
  v_y (snd r) = JUMP_FORCE (config (fst cv)) /\
  hasBody (fst r) = hasBody (fst cv) /\
  emitted (SetTimeout JumpStartToLoop 200) (fst cv) (fst r).
Proof.
  intros Hk Hp. cbn zeta. unfold jumpTrigger. rewrite Hk, Hp.
  cbn [andb negb fst snd]. unfold hasBody.
  split; [through; reflexivity|]. split; [through; reflexivity|].
  split; [destruct i as [[ix iz]|]; reflexivity|].
  split; [through; reflexivity|].
  eapply emitted_after; [|apply emit_emitted].
  eapply grows_trans; [|apply setAnimation_grows].
  apply grows_same. reflexivity.
Qed.

Lemma movementInput_jump M s cv :
  key_jump (keys (fst cv)) = true -> jumpPressed (fst cv) = false ->
  let r := movementInput M true s cv in
  jumpPhase (fst r) = phaseStart /\ jumpPressed (fst r) = true /\
  v_y (snd r) = JUMP_FORCE (config (fst cv)) /\
  hasBody (fst r) = hasBody (fst cv) /\
  emitted (SetTimeout JumpStartToLoop 200) (fst cv) (fst r).
Proof.
  intros Hk Hp. cbn zeta.
  unfold movementInput, movingBranch, idleBranch. cbn zeta.
  set (c1 := if negb (Qeq_bool (movementX (keys (fst cv))) 0)
             then set_rotationTarget _ (fst cv) else fst cv).
  assert (Hc1 : keys c1 = keys (fst cv) /\ jumpPressed c1 = jumpPressed (fst cv)
                /\ config c1 = config (fst cv) /\ hasBody c1 = hasBody (fst cv)
                /\ effects c1 = effects (fst cv)).
  { unfold c1.
    destruct (negb (Qeq_bool (movementX (keys (fst cv))) 0));
      repeat split; reflexivity. }
  destruct Hc1 as (Hk1 & Hp1 & Hcf1 & Hb1 & He1).
  clearbody c1.
  destruct (_ || _); cbn [fst snd].
  - match goal with |- context [jumpTrigger true ?i ?x] =>
      pose proof (jumpTrigger_fires i x) as HJ;
      set (r := jumpTrigger true i x) in *
    end.
    unfold hasBody in *. record_norm_in HJ.
    destruct HJ as (J1 & J2 & J3 & J4 & J5); [congruence | congruence |].
    clearbody r. repeat peel_inner.
    split; [assumption|]. split; [assumption|].
    split; [congruence|]. split; [congruence|].
    eapply emitted_before; [|apply movementAnimation_grows].
    eapply emitted_after; [|exact J5].
    apply grows_same. record_norm. congruence.
  - match goal with |- context [jumpTrigger true ?i ?x] =>
      pose proof (jumpTrigger_fires i x) as HJ;
      set (r := jumpTrigger true i x) in *
    end.
    unfold hasBody in *. record_norm_in HJ.
    destruct HJ as (J1 & J2 & J3 & J4 & J5); [congruence | congruence |].
    clearbody r. repeat peel_inner.
    split; [assumption|]. split; [assumption|].
    split; [congruence|]. split; [congruence|].
    eapply emitted_before; [|apply idleAnimation_grows].
    eapply emitted_after; [|exact J5].
    apply grows_same. congruence.
Qed.

Ltac peel_body :=
  match goal with
  | |- context [isSome (rigidBody (crouchChange ?s ?c))] =>
      let H := fresh in
      assert (H : forall s' c',
                 isSome (rigidBody (crouchChange s' c'))
                 = isSome (rigidBody c'))
        by (unfold crouchChange; close_read);
      rewrite (H s c); clear H
  | |- context [isSome (rigidBody (fst (rollInput ?M ?g ?s ?cv)))] =>
      let H := fresh in
      assert (H : forall M' g' s' cv',
                 isSome (rigidBody (fst (rollInput M' g' s' cv')))
                 = isSome (rigidBody (fst cv')))
        by (unfold rollInput; close_read);
      rewrite (H M g s cv); clear H
  end.

Ltac reads := repeat first [ peel_body | peel ].

Lemma transitions_jumpInputs M pose g s cv :
  jumpInputs (fst (transitions M pose g s cv)) = jumpInputs (fst cv).
Proof. unfold jumpInputs. reads. reflexivity. Qed.

Lemma crouchLogic_jumpInputs h delta c :
  jumpInputs (fst (crouchDecision h (crouchTimer h delta c))) = jumpInputs c.
Proof. unfold jumpInputs. reads. reflexivity. Qed.

Lemma beforeMovement_inputs M delta pose g h vel c :
  let c1 := crouchTimer h delta c in
  let s := snd (crouchDecision h c1) in
  let cv := transitions M pose g s (fst (crouchDecision h c1), vel) in
  keys (fst cv) = keys c /\ config (fst cv) = config c /\
  jumpPressed (fst cv) = jumpPressed c /\ hasBody (fst cv) = hasBody c /\
  grows c (fst cv).
Proof.
  cbn zeta.
  match goal with |- context [transitions M pose g ?s' ?cv'] =>
    pose proof (transitions_jumpInputs M pose g s' cv') as H1;
    pose proof (transitions_grows M pose g s' cv') as G1
  end.
  pose proof (crouchLogic_jumpInputs h delta c) as H2.
  cbn [fst] in H1, G1. rewrite H2 in H1. unfold jumpInputs, hasBody in *.
  repeat split; try congruence.
  eapply grows_trans; [|exact G1].
  eapply grows_trans; [|apply crouchDecision_grows].
  apply crouchTimer_grows.
Qed.

Lemma applyFrame_jump M delta pose h vel c :
  key_jump (keys c) = true -> jumpPressed c = false -> hasBody c = true ->
  let c' := applyFrame M delta pose true h vel c in
  jumpPhase c' = phaseStart /\ jumpPressed c' = true /\
  (exists v, velocityOf c' = Some v /\ v_y v = JUMP_FORCE (config c)) /\
  emitted (SetTimeout JumpStartToLoop 200) c c'.
Proof.
  intros Hk Hp Hb. cbn zeta. unfold applyFrame. cbn zeta.
  destruct (beforeMovement_inputs M delta pose true h vel c)
    as (Ik & Ic & Ip & Ib & Ig).
  cbn zeta in Ik, Ic, Ip, Ib, Ig.
  match type of Ik with keys (fst ?x) = _ => set (cv := x) in * end.
  match goal with |- context [movementInput M true ?s' cv] =>
    generalize s'; intro s end.
  clearbody cv.
  destruct (movementInput_jump M s cv) as (J1 & J2 & J3 & J4 & J5);
    [congruence | congruence |].
  set (r := movementInput M true s cv) in *. clearbody r.
  split; [|split; [|split]].
  - do 2 peel. assumption.
  - do 2 peel. assumption.
  - exists (snd (rollOverride M true r)). split.
    + apply setLinvel_velocity. rewrite rollOverride_fst. congruence.
    + rewrite rollOverride_vy. congruence.
  - eapply emitted_before; [|apply setLinvel_grows].
    rewrite rollOverride_fst.
    eapply emitted_after; [exact Ig | exact J5].
Qed.

(** *** Landing *)

Lemma landing_fires pose cv :
  wasGrounded (fst cv) = false ->
  let r := landingDetection true pose cv in
  jumpPhase (fst r) = phaseLand /\ snd r = scaleXZ 0.2 (snd cv) /\
  emitted (SetTimeout LandToNone 300) (fst cv) (fst r).
Proof.
  intro Hw. cbn zeta. unfold landingDetection. cbn zeta. rewrite Hw.
  cbn [negb andb fst snd].
  split; [through; reflexivity|]. split; [reflexivity|].
  eapply emitted_after; [|apply emit_emitted].
  unfold grows.
  repeat first [ progress record_norm | log_step | split_state ];
    close_log.
Qed.

Lemma rollInput_no_key M g s cv :
  key_roll (keys (fst cv)) = false ->
  rollInput M g s cv = (set_rollPressed false (fst cv), snd cv).
Proof. intro H. unfold rollInput. rewrite H. reflexivity. Qed.

Lemma fallingDetection_grounded s c :
  fallingDetection true s c = set_wasGrounded true c.
Proof. reflexivity. Qed.

Lemma crouchChange_same s c : isCrouching c = s -> crouchChange s c = c.
Proof.
  intros <-. unfold crouchChange. rewrite eqb_reflx. reflexivity.
Qed.

Lemma transitions_landing M pose cv :
  wasGrounded (fst cv) = false ->
  key_roll (keys (fst cv)) = false ->
  isCrouching (fst cv) = false ->
  let r := transitions M pose true false cv in
  jumpPhase (fst r) = phaseLand /\ snd r = scaleXZ 0.2 (snd cv) /\
  landingInputs (fst r) = landingInputs (fst cv) /\
  emitted (SetTimeout LandToNone 300) (fst cv) (fst r).
Proof.
  intros Hw Hk Hc. cbn zeta. unfold transitions. cbn zeta.
  destruct (landing_fires pose cv Hw) as (L1 & L2 & L3). cbn zeta in *.
  assert (LI : landingInputs (fst (landingDetection true pose cv))
               = landingInputs (fst cv))
    by (unfold landingInputs; reads; reflexivity).
  assert (LC : isCrouching (fst (landingDetection true pose cv)) = false)
    by (reads; assumption).
  set (r1 := landingDetection true pose cv) in *. clearbody r1.
  rewrite rollInput_no_key
    by (unfold landingInputs in LI; congruence).
  unfold onState. cbn [fst snd]. rewrite fallingDetection_grounded.
  rewrite crouchChange_same by (reads; assumption).
  split; [reads; assumption|]. split; [assumption|].
  split.
  - rewrite <- LI. unfold landingInputs. reads. reflexivity.
  - eapply emitted_before; [exact L3|].
    eapply grows_trans; [|apply danceInput_grows].
    apply grows_same. reflexivity.
Qed.

Lemma jumpTrigger_idle g i cv :
  key_jump (keys (fst cv)) && negb (jumpPressed (fst cv)) = false ->
  let r := jumpTrigger g i cv in
  snd r = snd cv /\ jumpPhase (fst r) = jumpPhase (fst cv) /\
  isRolling (fst r) = isRolling (fst cv) /\
  isSome (rigidBody (fst r)) = isSome (rigidBody (fst cv)) /\
  effects (fst r) = effects (fst cv).
Proof.
  intro H. cbn zeta. unfold jumpTrigger. cbn zeta.
  replace (key_jump (keys (fst cv)) && g && negb (jumpPressed (fst cv)))
    with false
    by (destruct (key_jump _), g, (jumpPressed _); simpl in *; congruence).
  destruct (negb (key_jump (keys (fst cv)))); repeat split; reflexivity.
Qed.

Lemma movementInput_landed M s cv :
  jumpPhase (fst cv) = phaseLand -> isRolling (fst cv) = false ->
  key_jump (keys (fst cv)) && negb (jumpPressed (fst cv)) = false ->
  let r := movementInput M true s cv in
  jumpPhase (fst r) = phaseLand /\ isRolling (fst r) = false /\
  isSome (rigidBody (fst r)) = isSome (rigidBody (fst cv)) /\
  grows (fst cv) (fst r) /\
  snd r = if moving (keys (fst cv)) then snd cv else damp (snd cv).
Proof.
  intros Hl Hr Hj. cbn zeta.
  unfold movementInput, movingBranch, idleBranch, moving. cbn zeta.
  set (c1 := if negb (Qeq_bool (movementX (keys (fst cv))) 0)
             then set_rotationTarget _ (fst cv) else fst cv).
  assert (Hc1 : keys c1 = keys (fst cv) /\ jumpPressed c1 = jumpPressed (fst cv)
                /\ jumpPhase c1 = jumpPhase (fst cv)
                /\ isRolling c1 = isRolling (fst cv)
                /\ rigidBody c1 = rigidBody (fst cv)
                /\ effects c1 = effects (fst cv)).
  { unfold c1.
    destruct (negb (Qeq_bool (movementX (keys (fst cv))) 0));
      repeat split; reflexivity. }
  destruct Hc1 as (Hk1 & Hp1 & Hl1 & Hr1 & Hb1 & He1).
  clearbody c1.
  destruct (_ || _); cbn [fst snd].
  - record_norm. rewrite Hl1, Hl. cbn [JumpPhase_eqb negb andb].
    match goal with |- context [jumpTrigger true ?i ?x] =>
      pose proof (jumpTrigger_idle true i x) as HJ;
      set (r := jumpTrigger true i x) in *
    end.
    record_norm_in HJ.
    destruct HJ as (J1 & J2 & J3 & J4 & J5); [congruence|].
    clearbody r. repeat peel_inner.
    repeat split; try congruence.
    eapply grows_trans; [|apply movementAnimation_grows].
    apply grows_same. congruence.
  - rewrite Hr1, Hr. cbn [negb andb].
    match goal with |- context [jumpTrigger true ?i ?x] =>
      pose proof (jumpTrigger_idle true i x) as HJ;
      set (r := jumpTrigger true i x) in *
    end.
    record_norm_in HJ.
    destruct HJ as (J1 & J2 & J3 & J4 & J5); [congruence|].
    clearbody r. repeat peel_inner.
    repeat split; try congruence.
    eapply grows_trans; [|apply idleAnimation_grows].
    apply grows_same. congruence.
Qed.

Lemma rollOverride_not_rolling M g cv :
  isRolling (fst cv) = false -> rollOverride M g cv = cv.
Proof.
  intro H. unfold rollOverride. rewrite H. cbn [andb].
  destruct (rollDirection (fst cv)), (rollSpeed (fst cv)), cv; reflexivity.
Qed.

(** The prelude only appends to the effect log. *)
Lemma updateFootsteps_shape_log M d p c rb :
  rigidBody c = Some rb ->
  exists l r fc e,
    updateFootsteps M d p c
    = Returns (set_effects (effects c ++ e) (set_footstepCooldown fc
                 (set_rightFoot r (set_leftFoot l c)))).
Proof.
  intro Hrb.
  destruct (updateFootsteps_shape M d p c rb Hrb) as (l & r & fc & e & H).
  destruct (updateFootsteps_grows _ _ _ _ _ H) as [e' He'].
  record_norm_in He'. subst e. exists l, r, fc, e'. exact H.
Qed.

Lemma update_runs_log M delta pose c rb g h :
  rigidBody c = Some rb ->
  checkGroundedRapier c = Returns g ->
  (if isCrouching c then checkCeilingClearance c else Returns true)
    = Returns h ->
  exists ag acd fc l r e,
    update M delta pose c
    = Done (applyFrame M delta pose
              (if crouchTransitioning c then true else g) h (linvel rb)
              (preludeWrite (if crouchTransitioning c then true else g)
                 ag acd fc l r (effects c ++ e) c)).
Proof.
  intros Hrb Hg Hh. unfold update. rewrite Hrb.
  destruct (updateFootsteps_shape_log M delta pose (tickCooldowns delta c) rb)
    as (l & r & fc & e & ->).
  { unfold tickCooldowns. record_norm. assumption. }
  match goal with |- context [checkGroundedRapier ?x] =>
    replace (checkGroundedRapier x) with (checkGroundedRapier c)
      by (unfold checkGroundedRapier, tickCooldowns; record_norm; reflexivity)
  end.
  rewrite Hg. unfold tickCooldowns. record_norm.
  match goal with |- context [checkCeilingClearance ?x] =>
    replace (checkCeilingClearance x) with (checkCeilingClearance c)
      by (unfold checkCeilingClearance; record_norm; reflexivity)
  end.
  rewrite Hh.
  exists (currentCharacterYOffset c),
         (Qmax (animationChangeCooldown c - delta) 0), fc, l, r, e.
  reflexivity.
Qed.

Lemma prelude_grows g ag acd fc l r e c :
  grows c (preludeWrite g ag acd fc l r (effects c ++ e) c).
Proof. exists e. reflexivity. Qed.

Lemma crouchLogic_standing delta c :
  key_crouch (keys c) = false -> isCrouching c = false ->
  snd (crouchDecision true (crouchTimer true delta c)) = false.
Proof.
  intros Hk Hc. unfold crouchDecision, crouchTimer. rewrite Hk, Hc.
  cbn [negb andb]. record_norm. rewrite Hk. reflexivity.
Qed.

Lemma crouchLogic_landingInputs h delta c :
  landingInputs (fst (crouchDecision h (crouchTimer h delta c)))
  = landingInputs c.
Proof. unfold landingInputs. reads. reflexivity. Qed.

Lemma crouchLogic_flags h delta c :
  wasGrounded (fst (crouchDecision h (crouchTimer h delta c))) = wasGrounded c
  /\ isCrouching (fst (crouchDecision h (crouchTimer h delta c)))
     = isCrouching c.
Proof. split; reads; reflexivity. Qed.

Lemma crouchLogic_grows h delta c :
  grows c (fst (crouchDecision h (crouchTimer h delta c))).
Proof.
  eapply grows_trans; [apply crouchTimer_grows | apply crouchDecision_grows].
Qed.

Lemma applyFrame_landing M delta pose vel c :
  wasGrounded c = false -> key_roll (keys c) = false ->
  key_crouch (keys c) = false -> isCrouching c = false ->
  isRolling c = false ->
  key_jump (keys c) && negb (jumpPressed c) = false ->
  hasBody c = true ->
  let c' := applyFrame M delta pose true true vel c in
  jumpPhase c' = phaseLand /\
  velocityOf c'
  = Some (if moving (keys c) then scaleXZ 0.2 vel
          else damp (scaleXZ 0.2 vel)) /\
  emitted (SetTimeout LandToNone 300) c c'.
Proof.
  intros Hw Hkr Hkc Hc Hr Hj Hb. cbn zeta. unfold applyFrame. cbn zeta.
  rewrite (crouchLogic_standing delta c Hkc Hc).
  pose proof (crouchLogic_landingInputs true delta c) as HI.
  destruct (crouchLogic_flags true delta c) as [HW HC].
  pose proof (crouchLogic_grows true delta c) as HG.
  set (c1 := fst (crouchDecision true (crouchTimer true delta c))) in *.
  clearbody c1. unfold landingInputs, hasBody in *.
  destruct (transitions_landing M pose (c1, vel)) as (T1 & T2 & T3 & T4);
    cbn [fst snd]; try congruence.
  cbn [fst snd] in *. unfold landingInputs in T3.
  set (r1 := transitions M pose true false (c1, vel)) in *. clearbody r1.
  destruct (movementInput_landed M false r1) as (M1 & M2 & M3 & M4 & M5);
    try congruence.
  set (r2 := movementInput M true false r1) in *. clearbody r2.
  rewrite rollOverride_not_rolling by assumption.
  split; [|split].
  - peel. assumption.
  - rewrite setLinvel_velocity by (unfold hasBody; congruence).
    rewrite M5, T2. replace (keys (fst r1)) with (keys c) by congruence.
    reflexivity.
  - eapply emitted_before; [|apply setLinvel_grows].
    eapply emitted_before; [|exact M4].
    eapply emitted_after; [exact HG | exact T4].
Qed.

Lemma fire_jumpStartToLoop c :
  jumpPhase c = phaseStart -> jumpPhase (fire JumpStartToLoop c) = phaseLoop.
Proof.
  intro H. unfold fire. rewrite H. cbn [JumpPhase_eqb]. through. reflexivity.
Qed.

Lemma fire_landToNone c :
  jumpPhase c = phaseLand -> jumpPhase (fire LandToNone c) = phaseNone.
Proof. intro H. unfold fire. rewrite H. reflexivity. Qed.

(** The two jump-phase callbacks re-check the phase they revert. *)
Lemma jump_callbacks_recheck c :
  (jumpPhase c <> phaseStart -> fire JumpStartToLoop c = c) /\
  (jumpPhase c <> phaseLand -> fire LandToNone c = c).
Proof.
  unfold fire. split; intro H; destruct (jumpPhase c); try reflexivity;
    exfalso; apply H; reflexivity.
Qed.

(** C5 -- jump and land, frame by frame.  On a grounded frame with the
    jump key down and [jumpPressed] clear, [update] writes the vertical
    velocity [JUMP_FORCE] (6 in the constructor's configuration), sets the
    phase to start and schedules, 200 ms ahead, the callback that turns
    start into loop.  On a frame with [wasGrounded] false and the ground
    ray hitting (standing character, no roll or crouch key, no new jump),
    the phase becomes land, the callback that turns land into none is
    scheduled 300 ms ahead, and the horizontal velocity written is the
    pre-land one times 0.2 when a movement key is held; with no movement
    key the idle damping of the same frame applies on top (times 0.85,
    snapped to 0 below 0.01). *)
Theorem jump_and_land M delta pose c rb g h :
  rigidBody c = Some rb ->
  checkGroundedRapier c = Returns g ->
  (if crouchTransitioning c then true else g) = true ->
  (if isCrouching c then checkCeilingClearance c else Returns true)
    = Returns h ->
  exists c',
    update M delta pose c = Done c' /\
    (key_jump (keys c) = true -> jumpPressed c = false ->
       jumpPhase c' = phaseStart /\ jumpPressed c' = true /\
       (exists v, velocityOf c' = Some v /\ v_y v = JUMP_FORCE (config c)) /\
       emitted (SetTimeout JumpStartToLoop 200) c c' /\
       jumpPhase (fire JumpStartToLoop c') = phaseLoop) /\
    (wasGrounded c = false -> key_roll (keys c) = false ->
     key_crouch (keys c) = false -> isCrouching c = false ->
     isRolling c = false ->
     key_jump (keys c) && negb (jumpPressed c) = false ->
       jumpPhase c' = phaseLand /\
       velocityOf c'
       = Some (if moving (keys c) then scaleXZ 0.2 (linvel rb)
               else damp (scaleXZ 0.2 (linvel rb))) /\
       emitted (SetTimeout LandToNone 300) c c' /\
       jumpPhase (fire LandToNone c') = phaseNone) /\
    JUMP_FORCE (defaultConfig M) = 6.
Proof.
  intros Hrb Hg Hgr Hh.
  destruct (update_runs_log M delta pose c rb g h Hrb Hg Hh)
    as (ag & acd & fc & l & r & e & Hu).
  rewrite Hgr in Hu.
  pose proof (prelude_grows true ag acd fc l r e c) as G5.
  set (c5 := preludeWrite true ag acd fc l r (effects c ++ e) c) in *.
  assert (J5 : jumpInputs c5 = jumpInputs c) by reflexivity.
  assert (L5 : landingInputs c5 = landingInputs c) by reflexivity.
  assert (W5 : wasGrounded c5 = wasGrounded c) by reflexivity.
  assert (C5 : isCrouching c5 = isCrouching c) by reflexivity.
  clearbody c5. unfold jumpInputs, landingInputs in J5, L5.
  eexists. split; [exact Hu|]. split; [|split; [|reflexivity]].
  - intros Hk Hp.
    destruct (applyFrame_jump M delta pose h (linvel rb) c5)
      as (A1 & A2 & (v & A3 & A4) & A5).
    + congruence.
    + congruence.
    + unfold hasBody. replace (isSome (rigidBody c5)) with
        (isSome (rigidBody c)) by congruence. rewrite Hrb. reflexivity.
    + cbn zeta in *. split; [assumption|]. split; [assumption|].
      split; [exists v; split; [assumption | congruence]|].
      split; [eapply emitted_after; eassumption|].
      apply fire_jumpStartToLoop. assumption.
  - intros Hw Hkr Hkc Hc Hr Hj.
    assert (Hh' : h = true) by (rewrite Hc in Hh; congruence). subst h.
    destruct (applyFrame_landing M delta pose (linvel rb) c5)
      as (A1 & A2 & A3); try congruence.
    + unfold hasBody. replace (isSome (rigidBody c5)) with
        (isSome (rigidBody c)) by congruence. rewrite Hrb. reflexivity.
    + cbn zeta in *. split; [assumption|].
      split; [rewrite A2; replace (keys c5) with (keys c) by congruence;
              reflexivity|].
      split; [eapply emitted_after; eassumption|].
      apply fire_landToNone. assumption.
Qed.


(** *** Concrete runs *)

Lemma roll_velocity_locked_while_grounded_witness :
  exists c' v,
    update facingZ frame standingPose rolling = Done c' /\
    velocityOf c' = Some v /\
    v_x v = Msin facingZ 0 * 4.8 /\ v_z v = Mcos facingZ 0 * 4.8.
Proof.
  destruct (roll_velocity_locked_while_grounded facingZ frame standingPose
              rolling (bodyOf rolling) 0 4.8 true true)
    as (c' & v & H1 & H2 & H3 & H4 & _).
  - vm_compute. reflexivity.
  - vm_compute. reflexivity.
  - vm_compute. reflexivity.
  - vm_compute. reflexivity.
  - vm_compute. reflexivity.
  - left. reflexivity.
  - vm_compute. reflexivity.
  - exists c', v. repeat split; assumption.
Defined.

(** C4, as stated, fails once the rolling character is off the ground:
    the roll is still active, the stored roll vector is [(0, 4.8)], and
    the frame writes back the body's own velocity [(0, -1, 2)]. *)
Lemma airborne_roll_keeps_body_velocity :
  rollState rollingOffLedge = (true, Some 0, Some 4.8) /\
  checkGroundedRapier rollingOffLedge = Returns false /\
  completed (update facingZ frame standingPose rollingOffLedge) = true /\
  velocityOf (next frame rollingOffLedge) = Some (vec 0 (-1) 2) /\
  ~ 2 == Mcos facingZ 0 * 4.8.
Proof.
  vm_compute. repeat split; try reflexivity. discriminate.
Qed.

Lemma crouch_follows_key_and_ceiling_witness :
  exists c',
    update facingZ frame standingPose enteringTunnel = Done c' /\
    isCrouching c' = true /\ ceilingClearanceTimer c' = 0.
Proof.
  destruct (crouch_follows_key_and_ceiling facingZ frame standingPose
              enteringTunnel (bodyOf enteringTunnel) true false)
    as (c' & H1 & _ & _ & H3 & _).
  - vm_compute. reflexivity.
  - vm_compute. reflexivity.
  - vm_compute. reflexivity.
  - vm_compute. discriminate.
  - exists c'. split; [assumption|]. apply H3; vm_compute; reflexivity.
Defined.

(** C3, as stated, fails for a standing character: under a ceiling within
    reach of the clearance ray and with no crouch key, the frame leaves
    it standing.  And the crouch held after a blocked check ends on a
    frame boundary: with frames of 0.3 s the character is still crouched
    0.3 s after the ceiling clears and stands after 0.6 s. *)
Lemma standing_character_ignores_low_ceiling :
  isCrouching underCeiling = false /\
  key_crouch (keys underCeiling) = false /\
  checkCeilingClearance underCeiling = Returns false /\
  completed (update facingZ frame standingPose underCeiling) = true /\
  isCrouching (next frame underCeiling) = false /\
  isCrouching inTunnel = true /\
  ceilingClearanceTimer inTunnel == 0 /\
  checkCeilingClearance outOfTunnel = Returns true /\
  isCrouching (next 0.3 outOfTunnel) = true /\
  isCrouching (next 0.3 (next 0.3 outOfTunnel)) = false.
Proof. vm_compute. repeat split; reflexivity. Qed.

Lemma jump_and_land_witness :
  (exists c',
     update facingZ frame standingPose (handleKeyDown " " standing) = Done c' /\
     jumpPhase c' = phaseStart /\
     exists v, velocityOf c' = Some v /\ v_y v = 6) /\
  (exists c',
     update facingZ frame standingPose (handleKeyDown "w" touchdown) = Done c' /\
     jumpPhase c' = phaseLand /\
     velocityOf c' = Some (scaleXZ 0.2 (vec 1 (-3) 2))).
Proof.
  split.
  - destruct (jump_and_land facingZ frame standingPose
                (handleKeyDown " " standing)
                (bodyOf (handleKeyDown " " standing)) true true)
      as (c' & H1 & HJ & _).
    + vm_compute. reflexivity.
    + vm_compute. reflexivity.
    + vm_compute. reflexivity.
    + vm_compute. reflexivity.
    + destruct HJ as (J1 & _ & (v & J3 & J4) & _);
        [vm_compute; reflexivity | vm_compute; reflexivity |].
      exists c'. split; [assumption|]. split; [assumption|].
      exists v. split; assumption.
  - destruct (jump_and_land facingZ frame standingPose
                (handleKeyDown "w" touchdown)
                (bodyOf (handleKeyDown "w" touchdown)) true true)
      as (c' & H1 & _ & HL & _).
    + vm_compute. reflexivity.
    + vm_compute. reflexivity.
    + vm_compute. reflexivity.
    + vm_compute. reflexivity.
    + destruct HL as (L1 & L2 & _); try (vm_compute; reflexivity).
      exists c'. split; [assumption|]. split; [assumption|]. exact L2.
Defined.

(** C5, as stated, fails on a landing frame with no movement key held:
    the pre-land horizontal velocity [(1, 2)] is written back as
    [(0.17, 0.34)], which is 17 percent of it, not 20. *)
Lemma landing_without_input_leaves_seventeen_percent :
  wasGrounded touchdown = false /\
  checkGroundedRapier touchdown = Returns true /\
  moving (keys touchdown) = false /\
  velocityOf touchdown = Some (vec 1 (-3) 2) /\
  jumpPhase (next frame touchdown) = phaseLand /\
  exists v,
    velocityOf (next frame touchdown) = Some v /\
    v_x v == 0.17 /\ v_z v == 0.34 /\
    ~ v_x v == 0.2 * 1 /\ ~ v_z v == 0.2 * 2.
Proof.
  vm_compute. repeat split; try reflexivity.
  eexists. repeat split; try reflexivity; discriminate.
Qed.

Lemma footstep_fires_on_rising_edge_witness :
  let r := processFoot facingZ standing liftedFoot (vec 0 0.1 0) frame 0.25 0 in
  ft_wasGrounded liftedFoot = false /\
  ft_wasGrounded (fr_track r) = true /\
  fr_hit (processFoot facingZ standing (fr_track r) (vec 0 0.1 0) frame 0.25 0)
  = None.
Proof.
  cbn zeta.
  destruct (footstep_fires_on_rising_edge facingZ standing liftedFoot
              (vec 0 0.1 0) frame 0.25 0) as (H1 & _ & _ & _ & H5).
  cbn zeta in H1, H5.
  assert (Hfire : fr_hit (processFoot facingZ standing liftedFoot
                            (vec 0 0.1 0) frame 0.25 0) <> None)
    by (vm_compute; discriminate).
  destruct (H1 Hfire) as (A1 & A2 & _).
  split; [assumption|]. split; [assumption|].
  apply (H5 Hfire).
Defined.

(** C9 -- the code at the failing input: a roll is started, crouch is
    pressed during it (crouch capsule, [isCrouching] set), and then the
    roll-end callback fires.  It tests nothing: it installs the standing
    capsule while the character is still crouching, and the next frame
    does not undo it.  Fired on a character that is not rolling at all it
    changes the capsule just the same, where the two jump-phase callbacks
    leave the state as it is. *)
Theorem roll_end_callback_overrides_crouch_capsule :
  In (SetTimeout RollEnd 800) (effects crouchedInRoll) /\
  isCrouching crouchedInRoll = true /\
  currentCapsuleHalfHeight crouchedInRoll == 0.35 /\
  isCrouching (fire RollEnd crouchedInRoll) = true /\
  currentCapsuleHalfHeight (fire RollEnd crouchedInRoll) == 0.7 /\
  isCrouching (next frame (fire RollEnd crouchedInRoll)) = true /\
  currentCapsuleHalfHeight (next frame (fire RollEnd crouchedInRoll)) == 0.7 /\
  isRolling crouched = false /\
  currentCapsuleHalfHeight crouched == 0.35 /\
  currentCapsuleHalfHeight (fire RollEnd crouched) == 0.7 /\
  fire JumpStartToLoop crouched = crouched /\
  fire LandToNone crouched = crouched.
Proof.
  vm_compute. repeat split; try reflexivity. tauto.
Qed.

(** C10 -- the code at the failing input: with the roll key and the jump
    key both down on a grounded frame, or the jump key pressed during a
    roll, the frame ends rolling and in jump phase start; the 200 ms
    callback then moves it to loop, still rolling. *)
Theorem jump_trigger_fires_during_roll :
  isRolling rollAndJump = true /\ jumpPhase rollAndJump = phaseStart /\
  isRolling jumpDuringRoll = true /\ jumpPhase jumpDuringRoll = phaseStart /\
  isRolling (fire JumpStartToLoop jumpDuringRoll) = true /\
  jumpPhase (fire JumpStartToLoop jumpDuringRoll) = phaseLoop.
Proof. vm_compute. repeat split; reflexivity. Qed.

(** The other writers of the jump phase keep it apart from a roll: the
    roll trigger clears the phase, and falling detection does not fire
    while rolling. *)
Lemma fallingDetection_not_while_rolling g s c :
  isRolling c = true ->
  jumpPhase (fallingDetection g s c) = jumpPhase c.
Proof.
  intro H. unfold fallingDetection. rewrite H. rewrite !andb_false_r.
  reflexivity.
Qed.

End CharacterProofs.

(** ** The stepper and the clock *)

Module TimelineProofs.
Import Physics PhysicsProofs Timeline.

Lemma count_S n : count (S n) == count n + 1.
Proof.
  unfold count. rewrite Nat2Z.inj_succ. unfold Z.succ.
  rewrite inject_Z_plus. reflexivity.
Qed.

Lemma count_sub_S a b : (S a <= b)%nat -> count (b - a) == count (b - S a) + 1.
Proof.
  intro H. replace (b - a)%nat with (S (b - S a)) by lia. apply count_S.
Qed.

(** The loop either consumes whole fixed steps and nothing else, or stops
    at the limit with at least the steps taken consumed. *)
Lemma stepLoop_time s :
  let s' := stepLoop s in
  let k := count (l_steps s' - l_steps s) in
  (l_warn s' = l_warn s /\ l_acc s' + k * fixedTimeStep == l_acc s) \/
  (l_warn s' = l_warn s ++ [limit_warning] /\ l_acc s' = 0 /\
   k * fixedTimeStep <= l_acc s).
Proof.
  funelim (stepLoop s); cbn zeta.
  - left. split; [reflexivity|]. rewrite Nat.sub_diag. unfold count. simpl. ring.
  - cbn zeta in H. cbn [l_world l_acc l_steps l_warn] in H.
    match goal with |- context [stepLoop ?x] =>
      pose proof (stepLoop_steps x) as Hs; set (s' := stepLoop x) in * end.
    cbn zeta in Hs. cbn [l_world l_acc l_steps l_warn] in Hs.
    destruct Hs as (_ & Hle & _).
    pose proof (count_sub_S _ _ Hle) as Hc.
    set (k1 := count (l_steps s' - l_steps s)) in *.
    set (k0 := count (l_steps s' - S (l_steps s))) in *.
    assert (E : k1 * fixedTimeStep == k0 * fixedTimeStep + fixedTimeStep)
      by (rewrite Hc; ring).
    set (p1 := k1 * fixedTimeStep) in *. set (p0 := k0 * fixedTimeStep) in *.
    set (f := fixedTimeStep) in *.
    clearbody p1 p0 f k1 k0 s'.
    destruct H as [[Hw He] | (Hw & Ha & Hk)].
    + left. split; [assumption|]. lra.
    + right. split; [assumption|]. split; [assumption|]. lra.
  - right. cbn [l_world l_acc l_steps l_warn].
    split; [reflexivity|]. split; [reflexivity|].
    replace (S (l_steps s) - l_steps s)%nat with 1%nat by lia.
    apply Qleb_le in Heq0.
    assert (E : count 1 == 1) by reflexivity. rewrite E.
    revert Heq0. generalize fixedTimeStep. intros f Hf. lra.
Qed.

(** One call of [step] on a manager with a world, by cases.  Either at
    most ten fixed steps were taken, nothing was logged, and no time was
    lost: what is left in the accumulator plus the steps taken is the old
    accumulator plus the clamped frame time.  Or eleven steps were taken,
    the warning was logged and the accumulator is 0: whatever the frame
    had beyond eleven steps is dropped. *)
Theorem step_conserves_time pm dt w :
  world pm = Some w ->
  let pm' := fst (step pm dt) in
  let n := stepsBetween pm pm' in
  let elapsed := accumulator pm + Qmin dt 0.25 in
  ((n <= 10)%nat /\ warnings pm' = warnings pm /\
   accumulator pm' + count n * fixedTimeStep == elapsed) \/
  (n = 11%nat /\ warnings pm' = warnings pm ++ [limit_warning] /\
   accumulator pm' = 0 /\ count 11 * fixedTimeStep <= elapsed).
Proof.
  intros Hw. unfold step, stepsBetween. rewrite Hw. cbn [fst world accumulator warnings].
  match goal with |- context [stepLoop ?s] =>
    pose proof (stepLoop_time s) as Ht;
    pose proof (stepLoop_steps s) as Hs;
    set (s' := stepLoop s) in * end.
  cbn zeta in Ht, Hs. cbn [l_world l_acc l_steps l_warn] in Ht, Hs.
  destruct Hs as (Hticks & _ & Hc).
  assert (Hn : (ticks (l_world s') - ticks w = l_steps s')%nat) by lia.
  rewrite Hn. rewrite Nat.sub_0_r in Ht.
  assert (Hneq : forall l : list string, l ++ [limit_warning] <> l).
  { intros l E. apply (f_equal (@List.length _)) in E.
    rewrite length_app in E. simpl in E. lia. }
  destruct Ht as [[Hw1 He] | (Hw1 & Ha & Hk)];
    destruct Hc as [[Hw2 Hb] | (Hw2 & _ & Hb)].
  - left. split; [lia|]. split; assumption.
  - exfalso. rewrite Hw1 in Hw2. symmetry in Hw2. apply Hneq in Hw2. exact Hw2.
  - exfalso. rewrite Hw1 in Hw2. apply Hneq in Hw2. exact Hw2.
  - right. simpl in Hb. rewrite Hb in *. repeat split; assumption.
Qed.

Lemma step_conserves_time_witness :
  let pm := init create in
  accumulator (fst (step pm (1 / 30))) + count 2 * fixedTimeStep
  == accumulator pm + Qmin (1 / 30) 0.25.
Proof.
  destruct (step_conserves_time (init create) (1 / 30) {| ticks := 0 |} eq_refl)
    as [(_ & _ & H) | (H & _)].
  - exact H.
  - vm_compute in H. discriminate.
Defined.

Lemma step_world pm dt w :
  world pm = Some w ->
  exists w', world (fst (step pm dt)) = Some w' /\ (ticks w <= ticks w')%nat.
Proof.
  intro Hw. unfold step. rewrite Hw. cbn [fst world].
  match goal with |- context [stepLoop ?s] =>
    pose proof (stepLoop_steps s) as Hs; set (s' := stepLoop s) in * end.
  cbn zeta in Hs. cbn [l_world l_steps] in Hs. destruct Hs as (Ht & _).
  eexists. split; [reflexivity | lia].
Qed.

Lemma count_add a b : count (a + b) == count a + count b.
Proof. unfold count. rewrite Nat2Z.inj_add, inject_Z_plus. reflexivity. Qed.

(** Over a run of frames the simulation never runs ahead of the clock:
    the time simulated (fixed steps taken, plus what waits in the
    accumulator) is at most the time fed in (the accumulator at the
    start, plus the clamped frame times). *)
Theorem run_never_ahead_of_clock dts : forall pm w,
  world pm = Some w ->
  let pm' := fst (run pm dts) in
  accumulator pm' + count (stepsBetween pm pm') * fixedTimeStep
  <= accumulator pm + clampedTotal dts.
Proof.
  induction dts as [|dt rest IH]; intros pm w Hw; cbn zeta.
  - simpl. unfold stepsBetween. rewrite Hw, Nat.sub_diag.
    change (count 0) with 0. lra.
  - cbn [run clampedTotal fold_right].
    pose proof (step_conserves_time pm dt w Hw) as Hs.
    destruct (step_world pm dt w Hw) as (w1 & Hw1 & Hle1).
    destruct (step pm dt) as [pm1 a] eqn:Es. cbn [fst] in Hs, Hw1.
    specialize (IH pm1 w1 Hw1). cbn zeta in IH, Hs.
    assert (Hw2 : exists w2, world (fst (run pm1 rest)) = Some w2 /\
                             (ticks w1 <= ticks w2)%nat).
    { clear - Hw1. revert pm1 w1 Hw1.
      induction rest as [|d r IHr]; intros pm1 w1 Hw1.
      - exists w1. split; [assumption | lia].
      - cbn [run]. destruct (step_world pm1 d w1 Hw1) as (w' & Hw' & Hl).
        destruct (step pm1 d) as [pm2 a2]. cbn [fst] in Hw'.
        destruct (IHr pm2 w' Hw') as (w2 & H2 & Hl2).
        destruct (run pm2 r) as [pm3 al]. cbn [fst] in *.
        exists w2. split; [assumption | lia]. }
    destruct Hw2 as (w2 & Hw2 & Hle2).
    destruct (run pm1 rest) as [pm2 al]. cbn [fst] in *.
    fold (clampedTotal rest) in *.
    assert (Hn : stepsBetween pm pm2
                 = (stepsBetween pm pm1 + stepsBetween pm1 pm2)%nat).
    { unfold stepsBetween. rewrite Hw, Hw1, Hw2. lia. }
    rewrite Hn, count_add.
    set (n1 := count (stepsBetween pm pm1)) in *.
    set (n2 := count (stepsBetween pm1 pm2)) in *.
    assert (E11 : stepsBetween pm pm1 = 11%nat -> n1 == count 11).
    { intro E. unfold n1. rewrite E. reflexivity. }
    assert (D : (n1 + n2) * fixedTimeStep
                == n1 * fixedTimeStep + n2 * fixedTimeStep) by ring.
    rewrite D.
    set (p1 := n1 * fixedTimeStep) in *. set (p2 := n2 * fixedTimeStep) in *.
    set (total := clampedTotal rest) in *.
    set (c := Qmin dt 0.25) in *.
    destruct Hs as [(_ & _ & He) | (E & _ & Ha & Hk)].
    + clearbody p1 p2 total c. lra.
    + assert (Hp : p1 == count 11 * fixedTimeStep).
      { unfold p1. rewrite (E11 E). reflexivity. }
      rewrite Ha in IH. clearbody p1 p2 total c.
      revert Hp Hk. generalize (count 11 * fixedTimeStep). intros q Hp Hk. lra.
Qed.

Lemma run_never_ahead_of_clock_witness :
  let pm' := fst (run (init create) [1 / 30; 1; 1 / 100]) in
  accumulator pm' + count (stepsBetween (init create) pm') * fixedTimeStep
  <= 0 + clampedTotal [1 / 30; 1; 1 / 100].
Proof.
  apply (run_never_ahead_of_clock [1 / 30; 1; 1 / 100] (init create)
           {| ticks := 0 |} eq_refl).
Defined.

Lemma run_alpha_bounds_witness :
  Forall (fun a => 0 <= a < 1) (snd (run (init create) [1 / 30; 1; 1 / 100])).
Proof.
  apply (run_alpha_bounds [1 / 30; 1; 1 / 100] (init create)).
  - repeat constructor; discriminate.
  - split; [discriminate | reflexivity].
Defined.

End TimelineProofs.

(** ** The manager's life cycle *)

Module LifecycleProofs.
Import Physics Lifecycle.
Import Character (Result, Returns, Throws).

Lemma consistent_call m c : consistent m -> consistent (call m c).
Proof.
  intros [Hi Hr]. destruct m as [[w i a ws] r]. cbn in *.
  destruct c as [|dt|]; cbn.
  - unfold init. cbn. destruct i; cbn.
    + split; assumption.
    + split; [split; [discriminate | reflexivity] | reflexivity].
  - unfold Physics.step. cbn. destruct w; cbn; split; try assumption.
    + split; [discriminate | intros _; apply Hi; discriminate].
    + intros _. apply Hr. discriminate.
  - unfold Physics.dispose. cbn. destruct w; cbn; split; try assumption.
    + split; [discriminate | intro H; exfalso; apply H; reflexivity].
    + intro H; exfalso; apply H; reflexivity.
Qed.

Lemma consistent_calls cs : consistent (calls cs).
Proof.
  unfold calls.
  assert (H : consistent create).
  { split; [split; [discriminate | intro H; exfalso; apply H; reflexivity]
           | intro H; exfalso; apply H; reflexivity]. }
  revert H. generalize create. induction cs as [|c cs IH]; intros m H.
  - exact H.
  - cbn. apply IH, consistent_call, H.
Qed.

(** Whatever sequence of [init()], [step()] and [dispose()] a manager
    has been through since its construction, [getWorld()] returns a world
    exactly when [isInitialized()] holds and throws otherwise; so the
    [getWorld()] that [GameScene.animate] calls under [isInitialized()],
    after the step, never throws. *)
Theorem getWorld_returns_iff_initialized cs :
  let m := calls cs in
  (isInitialized m = true -> exists w, getWorld m = Returns w) /\
  (isInitialized m = false -> getWorld m = Throws) /\
  (forall dt, animatePhysics m dt <> Throws).
Proof.
  cbn zeta. pose proof (consistent_calls cs) as Hc.
  assert (G : forall m, consistent m ->
            (isInitialized m = true -> exists w, getWorld m = Returns w) /\
            (isInitialized m = false -> getWorld m = Throws)).
  { intros m [Hi Hr]. unfold isInitialized, getWorld. split; intro H.
    - apply Hi in H. destruct (world (physics m)) as [w|] eqn:E;
        [|exfalso; apply H; reflexivity].
      rewrite Hr by discriminate. exists w. reflexivity.
    - destruct (world (physics m)) as [w|] eqn:E; [|reflexivity].
      assert (initialized (physics m) = true) by (apply Hi; discriminate).
      congruence. }
  destruct (G _ Hc) as [G1 G2]. split; [exact G1|]. split; [exact G2|].
  intros dt. unfold animatePhysics.
  destruct (isInitialized (calls cs)) eqn:E; [|discriminate].
  pose proof (consistent_call _ (CallStep dt) Hc) as Hc'. cbn [call] in Hc'.
  destruct (G _ Hc') as [G1' _].
  assert (Hi' : isInitialized (fst (step (calls cs) dt)) = true).
  { unfold isInitialized, step, Physics.step in *. cbn.
    destruct (world (physics (calls cs))); cbn; assumption. }
  destruct (G1' Hi') as (w & ->). discriminate.
Qed.

(** [dispose()] drops the world and clears the flag, so [getWorld()]
    throws afterwards, but it keeps the module handle, the accumulator
    and the log: a later [init()] makes a new world at step 0 that
    starts with the left-over time of the old one. *)
Theorem dispose_keeps_leftover_time m w :
  world (physics m) = Some w ->
  let m' := init (dispose m) in
  getWorld (dispose m) = Throws /\
  isInitialized (dispose m) = false /\
  getRAPIER (dispose m) = getRAPIER m /\
  world (physics m') = Some {| ticks := 0 |} /\
  accumulator (physics m') = accumulator (physics m) /\
  warnings (physics m') = warnings (physics m).
Proof.
  intro Hw. destruct m as [[w0 i a ws] r]. cbn in Hw. subst w0. cbn zeta.
  unfold init, dispose, Physics.dispose, Physics.init, getWorld, getRAPIER,
    isInitialized.
  cbn. repeat split; reflexivity.
Qed.

Lemma dispose_keeps_leftover_time_witness :
  let m := fst (step (init create) (1 / 100)) in
  accumulator (physics (init (dispose m))) == 1 / 100 /\
  world (physics (init (dispose m))) = Some {| ticks := 0 |}.
Proof.
  destruct (dispose_keeps_leftover_time (fst (step (init create) (1 / 100)))
              {| ticks := 0 |} eq_refl) as (_ & _ & _ & Hw & Ha & _).
  split; [rewrite Ha; vm_compute; reflexivity | exact Hw].
Defined.

End LifecycleProofs.

(** ** The keyboard manager *)

Module KeyboardProofs.
Import Keyboard.

Lemma mapGet_mapSet_same code v m : mapGet code (mapSet code v m) = Some v.
Proof.
  induction m as [|[k b] rest IH]; cbn.
  - rewrite String.eqb_refl. reflexivity.
  - destruct (String.eqb k code) eqn:E; cbn; rewrite E; [reflexivity | exact IH].
Qed.

Lemma mapGet_mapSet_other code code' v m :
  code' <> code -> mapGet code' (mapSet code v m) = mapGet code' m.
Proof.
  intro Hne. induction m as [|[k b] rest IH]; cbn.
  - destruct (String.eqb code code') eqn:E; [|reflexivity].
    apply String.eqb_eq in E. congruence.
  - destruct (String.eqb k code) eqn:E; cbn.
    + apply String.eqb_eq in E. subst k.
      destruct (String.eqb code code') eqn:E'; [|reflexivity].
      apply String.eqb_eq in E'. congruence.
    + rewrite IH. reflexivity.
Qed.

(** Pressing a key makes [isKeyPressed] true for its code, releasing it
    makes it false, and neither changes the answer for another code. *)
Theorem isKeyPressed_follows_last_event code m :
  isKeyPressed code (onKeyDown code m) = true /\
  isKeyPressed code (onKeyUp code m) = false /\
  (forall code', code' <> code ->
     isKeyPressed code' (onKeyDown code m) = isKeyPressed code' m /\
     isKeyPressed code' (onKeyUp code m) = isKeyPressed code' m).
Proof.
  unfold isKeyPressed, onKeyDown, onKeyUp, updateState. cbn [keys].
  rewrite !mapGet_mapSet_same. split; [reflexivity|]. split; [reflexivity|].
  intros code' Hne. rewrite !mapGet_mapSet_other by assumption.
  split; reflexivity.
Qed.

Lemma isKeyPressed_follows_last_event_witness :
  isKeyPressed "KeyW" (onKeyDown "KeyF" (onKeyDown "KeyW" create))
  = isKeyPressed "KeyW" (onKeyDown "KeyW" create).
Proof.
  destruct (isKeyPressed_follows_last_event "KeyF" (onKeyDown "KeyW" create))
    as (_ & _ & H).
  destruct (H "KeyW"%string) as [H1 _]; [discriminate | exact H1].
Defined.

(** Whatever events have been dispatched, the state object agrees with
    the key map: each action is on exactly when one of its codes is
    pressed.  An action bound to two codes therefore stays on until both
    are released. *)
Theorem state_in_sync_with_keys es :
  let m := replay es in
  let s := getState m in
  forward s = isKeyPressed "KeyW" m || isKeyPressed "ArrowUp" m /\
  backward s = isKeyPressed "KeyS" m || isKeyPressed "ArrowDown" m /\
  left s = isKeyPressed "KeyA" m || isKeyPressed "ArrowLeft" m /\
  right s = isKeyPressed "KeyD" m || isKeyPressed "ArrowRight" m /\
  run s = isKeyPressed "ShiftLeft" m || isKeyPressed "ShiftRight" m /\
  jump s = isKeyPressed "Space" m /\
  crouch s = isKeyPressed "ControlLeft" m || isKeyPressed "ControlRight" m /\
  dance s = isKeyPressed "KeyE" m /\
  walkBackward s = isKeyPressed "KeyQ" m /\
  roll s = isKeyPressed "KeyF" m.
Proof.
  cbn zeta. unfold replay.
  assert (H : forall m, updateState m = m -> 
            forall es, updateState (fold_left dispatch es m)
                       = fold_left dispatch es m).
  { intros m Hm es'. revert m Hm.
    induction es' as [|e es' IH]; intros m Hm; cbn; [exact Hm|].
    apply IH. destruct e; unfold dispatch, onKeyDown, onKeyUp, updateState;
      cbn [keys]; reflexivity. }
  specialize (H create eq_refl es).
  set (m := fold_left dispatch es create) in *. clearbody m.
  assert (Hs : state m = state (updateState m)) by (rewrite H; reflexivity).
  unfold getState, isKeyPressed. rewrite Hs.
  unfold updateState. cbn [state forward backward left right run jump crouch
                            dance walkBackward roll].
  repeat split; reflexivity.
Qed.

(** [dispose()] empties the key map and leaves the state object as it
    was: no code is pressed any more, while [getState()] still reports
    the actions that were on, until the next key event recomputes the
    state from the emptied map, as on a new manager. *)
Remark dispose_leaves_state_until_next_event m :
  (forall code, isKeyPressed code (dispose m) = false) /\
  getState (dispose m) = getState m /\
  (forall e, dispatch (dispose m) e = dispatch create e).
Proof.
  split; [intro code; reflexivity|]. split; [reflexivity|].
  intros [code|code]; reflexivity.
Qed.

End KeyboardProofs.

(** ** Rounding *)

Module FloatProofs.
Import Floats.

Lemma two_pos (z : Z) : 0 < 2 ^ z.
Proof. apply Qpower_0_lt. reflexivity. Qed.

Lemma two_le (n m : Z) : (n <= m)%Z -> 2 ^ n <= 2 ^ m.
Proof. intro H. apply Qpower_le_compat_l; [exact H | discriminate]. Qed.

Lemma two_lt (n m : Z) : (n < m)%Z -> 2 ^ n < 2 ^ m.
Proof. intro H. apply Qpower_lt_compat_l; [exact H | reflexivity]. Qed.

Lemma two_lt_inv (n m : Z) : 2 ^ n < 2 ^ m -> (n < m)%Z.
Proof. intro H. apply (Qpower_lt_compat_l_inv 2); [exact H | reflexivity]. Qed.

Lemma two_succ (z : Z) : 2 ^ (z + 1) == 2 * 2 ^ z.
Proof. rewrite Qpower_plus by discriminate. change (2 ^ 1) with 2. ring. Qed.

Lemma two_Z (n : Z) : (0 <= n)%Z -> 2 ^ n == inject_Z (2 ^ n).
Proof. intro H. rewrite Zpower_Qpower by exact H. reflexivity. Qed.

Lemma two_quot (k s : Z) : 2 ^ k / 2 ^ s == 2 ^ (k - s).
Proof. rewrite Qpower_minus by discriminate. reflexivity. Qed.

(** *** The binade *)

Lemma quotient_below (X D N P B : Q) :
  0 < D -> X * D == N -> N < P * B -> B <= D -> 0 < P -> X < P.
Proof. intros. nra. Qed.

Lemma quotient_above (X D N P B : Q) :
  0 < D -> X * D == N -> P * B <= N -> D < B -> 0 < P -> P <= X.
Proof. intros. nra. Qed.

Lemma ilog2_spec x : ~ x == 0 -> 2 ^ ilog2 x <= Qabs x < 2 ^ (ilog2 x + 1).
Proof.
  intro Hx. unfold ilog2.
  set (n := Z.abs (Qnum x)). set (d := Zpos (Qden x)).
  set (a := Z.log2 n). set (b := Z.log2 d).
  assert (Hn : (0 < n)%Z).
  { unfold n. destruct x as [p q]. unfold Qeq in Hx. cbn in *. lia. }
  assert (Hd : (0 < d)%Z) by (unfold d; lia).
  destruct (Z.log2_spec n Hn) as [A1 A2].
  destruct (Z.log2_spec d Hd) as [B1 B2].
  fold a in A1, A2. fold b in B1, B2.
  assert (Ha : (0 <= a)%Z) by apply Z.log2_nonneg.
  assert (Hb : (0 <= b)%Z) by apply Z.log2_nonneg.
  assert (Qd : 0 < inject_Z d)
    by (change 0 with (inject_Z 0); rewrite <- Zlt_Qlt; exact Hd).
  assert (En : Qabs x * inject_Z d == inject_Z n).
  { assert (E : Qabs x == inject_Z n / inject_Z d).
    { destruct x as [p q]. unfold n, d. cbn. apply Qmake_Qdiv. }
    rewrite E. field. intro X. rewrite X in Qd. discriminate. }
  rewrite Zle_Qle, <- two_Z in A1 by exact Ha.
  rewrite Zlt_Qlt, <- two_Z in A2 by lia.
  rewrite Zle_Qle, <- two_Z in B1 by exact Hb.
  rewrite Zlt_Qlt, <- two_Z in B2 by lia.
  replace (Z.succ a) with (a + 1)%Z in A2 by lia.
  replace (Z.succ b) with (b + 1)%Z in B2 by lia.
  destruct (Qle_bool (2 ^ (a - b)) (Qabs x)) eqn:C.
  - apply Qle_bool_iff in C. split; [exact C|].
    apply (quotient_below _ (inject_Z d) (inject_Z n) _ (2 ^ b));
      try assumption; [|apply two_pos].
    rewrite <- Qpower_plus by discriminate.
    replace (a - b + 1 + b)%Z with (a + 1)%Z by lia. exact A2.
  - assert (C' : Qabs x < 2 ^ (a - b)).
    { apply Qnot_le_lt. intro X. apply Qle_bool_iff in X. congruence. }
    replace (a - b - 1 + 1)%Z with (a - b)%Z by lia. split; [|exact C'].
    apply (quotient_above _ (inject_Z d) (inject_Z n) _ (2 ^ (b + 1)));
      try assumption; [|apply two_pos].
    rewrite <- Qpower_plus by discriminate.
    replace (a - b - 1 + (b + 1))%Z with a by lia. exact A1.
Qed.

Lemma ilog2_unique x e :
  2 ^ e <= Qabs x < 2 ^ (e + 1) -> ilog2 x = e.
Proof.
  intros [H1 H2].
  assert (Hx : ~ x == 0).
  { intro X. rewrite X in H1. pose proof (two_pos e). change (Qabs 0) with 0 in H1. lra. }
  destruct (ilog2_spec x Hx) as [S1 S2].
  assert (L1 : (e < ilog2 x + 1)%Z) by (apply two_lt_inv; lra).
  assert (L2 : (ilog2 x < e + 1)%Z) by (apply two_lt_inv; lra).
  lia.
Qed.

Lemma ilog2_below x m : ~ x == 0 -> Qabs x < 2 ^ (m + 1) -> (ilog2 x <= m)%Z.
Proof.
  intros Hx H. destruct (ilog2_spec x Hx) as [S1 _].
  assert (L : (ilog2 x < m + 1)%Z) by (apply two_lt_inv; lra). lia.
Qed.

Lemma ilog2_above x m : 2 ^ m <= Qabs x -> (m <= ilog2 x)%Z.
Proof.
  intro H.
  assert (Hx : ~ x == 0).
  { intro X. rewrite X in H. pose proof (two_pos m). change (Qabs 0) with 0 in H. lra. }
  destruct (ilog2_spec x Hx) as [_ S2].
  assert (L : (m < ilog2 x + 1)%Z) by (apply two_lt_inv; lra). lia.
Qed.

Lemma ilog2_comp x y : ~ y == 0 -> x == y -> ilog2 x = ilog2 y.
Proof.
  intros NZ E. apply ilog2_unique. rewrite E. apply ilog2_spec, NZ.
Qed.

(** *** The nearest integer *)

Lemma roundHalfEven_cases y :
  let f := Qfloor y in
  let r := y - inject_Z f in
  0 <= r < 1 /\
  ((r < 1 # 2 /\ roundHalfEven y = f) \/
   (1 # 2 < r /\ roundHalfEven y = (f + 1)%Z) \/
   (r == 1 # 2 /\ Z.even f = true /\ roundHalfEven y = f) \/
   (r == 1 # 2 /\ Z.even f = false /\ roundHalfEven y = (f + 1)%Z)).
Proof.
  cbn zeta. pose proof (Qfloor_le y) as F1. pose proof (Qlt_floor y) as F2.
  rewrite inject_Z_plus in F2. change (inject_Z 1) with 1 in F2.
  split; [split; lra|]. unfold roundHalfEven.
  destruct (Qcompare_spec (y - inject_Z (Qfloor y)) (1 # 2)) as [C|C|C].
  - destruct (Z.even (Qfloor y)) eqn:E.
    + right. right. left. repeat split; assumption.
    + right. right. right. repeat split; assumption.
  - left. split; [exact C | reflexivity].
  - right. left. split; [exact C | reflexivity].
Qed.

Lemma roundHalfEven_near y : Qabs (inject_Z (roundHalfEven y) - y) <= 1 # 2.
Proof.
  destruct (roundHalfEven_cases y) as [R C]. cbn zeta in *.
  apply Qabs_Qle_condition.
  destruct C as [[C ->]|[[C ->]|[(C & _ & ->)|(C & _ & ->)]]];
    rewrite ?inject_Z_plus; change (inject_Z 1) with 1; split; lra.
Qed.

Lemma roundHalfEven_mono x y : x <= y -> (roundHalfEven x <= roundHalfEven y)%Z.
Proof.
  intro H. pose proof (Qfloor_resp_le _ _ H) as F.
  destruct (roundHalfEven_cases x) as [Rx Cx].
  destruct (roundHalfEven_cases y) as [Ry Cy]. cbn zeta in *.
  destruct (Z.eq_dec (Qfloor x) (Qfloor y)) as [E|NE].
  - rewrite E in *.
    destruct Cx as [[Cx ->]|[[Cx ->]|[(Cx & Ex & ->)|(Cx & Ex & ->)]]];
    destruct Cy as [[Cy ->]|[[Cy ->]|[(Cy & Ey & ->)|(Cy & Ey & ->)]]];
      try lia; try congruence; exfalso; lra.
  - assert (L : (Qfloor x + 1 <= Qfloor y)%Z) by lia.
    destruct Cx as [[Cx ->]|[[Cx ->]|[(Cx & Ex & ->)|(Cx & Ex & ->)]]];
    destruct Cy as [[Cy ->]|[[Cy ->]|[(Cy & Ey & ->)|(Cy & Ey & ->)]]]; lia.
Qed.

Lemma roundHalfEven_Z k : roundHalfEven (inject_Z k) = k.
Proof.
  unfold roundHalfEven. rewrite Qfloor_Z.
  destruct (Qcompare_spec (inject_Z k - inject_Z k) (1 # 2)) as [C|C|C];
    try reflexivity; exfalso; lra.
Qed.

Lemma roundHalfEven_comp x y : x == y -> roundHalfEven x = roundHalfEven y.
Proof.
  intro E. apply Z.le_antisymm; apply roundHalfEven_mono; rewrite E; apply Qle_refl.
Qed.

(** *** Rounding to a grid *)

Lemma roundAt_mono s x y : x <= y -> roundAt s x <= roundAt s y.
Proof.
  intro H. unfold roundAt. pose proof (two_pos s) as P.
  apply Qmult_le_compat_r; [|lra].
  rewrite <- Zle_Qle. apply roundHalfEven_mono.
  apply Qmult_le_compat_r; [exact H|].
  apply Qlt_le_weak, Qinv_lt_0_compat, P.
Qed.

Lemma roundAt_comp s x y : x == y -> roundAt s x == roundAt s y.
Proof.
  intro E. unfold roundAt.
  rewrite (roundHalfEven_comp (x / 2 ^ s) (y / 2 ^ s)); [reflexivity|].
  rewrite E. reflexivity.
Qed.

Lemma roundAt_near s x : Qabs (roundAt s x - x) <= (1 # 2) * 2 ^ s.
Proof.
  unfold roundAt. pose proof (two_pos s) as P.
  pose proof (roundHalfEven_near (x / 2 ^ s)) as N.
  set (r := inject_Z (roundHalfEven (x / 2 ^ s))) in *.
  assert (E : r * 2 ^ s - x == (r - x / 2 ^ s) * 2 ^ s) by (field; lra).
  rewrite E, Qabs_Qmult, (Qabs_pos (2 ^ s)) by lra.
  apply Qmult_le_compat_r; [exact N | lra].
Qed.

(** A multiple of [2^k] is on every finer grid. *)
Lemma roundAt_grid s k c :
  (s <= k)%Z -> roundAt s (inject_Z c * 2 ^ k) == inject_Z c * 2 ^ k.
Proof.
  intro H. unfold roundAt. pose proof (two_pos s) as P.
  assert (E : inject_Z c * 2 ^ k / 2 ^ s == inject_Z (c * 2 ^ (k - s))).
  { rewrite inject_Z_mult, <- two_Z by lia. rewrite <- two_quot. field. lra. }
  rewrite (roundHalfEven_comp _ _ E), roundHalfEven_Z.
  rewrite inject_Z_mult, <- two_Z by lia. rewrite <- two_quot. field. lra.
Qed.

Lemma roundAt_below s k c x :
  (s <= k)%Z -> x <= inject_Z c * 2 ^ k -> roundAt s x <= inject_Z c * 2 ^ k.
Proof.
  intros H L. rewrite <- (roundAt_grid s k c H). apply roundAt_mono, L.
Qed.

Lemma roundAt_above s k c x :
  (s <= k)%Z -> inject_Z c * 2 ^ k <= x -> inject_Z c * 2 ^ k <= roundAt s x.
Proof.
  intros H L. rewrite <- (roundAt_grid s k c H). apply roundAt_mono, L.
Qed.

Lemma roundAt_zero s : roundAt s 0 == 0.
Proof.
  pose proof (roundAt_grid s s 0 (Z.le_refl s)) as H.
  change (inject_Z 0) with 0 in H.
  rewrite (roundAt_comp s 0 (0 * 2 ^ s)) by ring. rewrite H. ring.
Qed.

(** *** Rounding to a format *)

Section Format.
Variables prec emin : Z.
Hypothesis prec_pos : (0 < prec)%Z.

Let scale (x : Q) : Z := Z.max (ilog2 x - (prec - 1)) emin.

Lemma roundFloat_eq x : ~ x == 0 -> roundFloat prec emin x = roundAt (scale x) x.
Proof.
  intro H. unfold roundFloat.
  destruct (Qeq_bool x 0) eqn:E; [apply Qeq_bool_iff in E; contradiction|].
  reflexivity.
Qed.

Lemma roundFloat_zero x : x == 0 -> roundFloat prec emin x = 0.
Proof.
  intro H. unfold roundFloat. apply Qeq_bool_iff in H. rewrite H. reflexivity.
Qed.

Lemma roundFloat_comp x y : x == y -> roundFloat prec emin x == roundFloat prec emin y.
Proof.
  intro E. destruct (Qeq_dec y 0) as [Z|NZ].
  - rewrite !roundFloat_zero; [reflexivity | exact Z | rewrite E; exact Z].
  - rewrite !roundFloat_eq; [|exact NZ | rewrite E; exact NZ].
    unfold scale. rewrite (ilog2_comp x y NZ E). apply roundAt_comp, E.
Qed.

Lemma roundFloat_sign_pos x : 0 <= x -> 0 <= roundFloat prec emin x.
Proof.
  intro H. destruct (Qeq_dec x 0) as [Z|NZ].
  - rewrite roundFloat_zero by exact Z. apply Qle_refl.
  - rewrite roundFloat_eq by exact NZ.
    rewrite <- (roundAt_zero (scale x)). apply roundAt_mono, H.
Qed.

Lemma roundFloat_sign_neg x : x <= 0 -> roundFloat prec emin x <= 0.
Proof.
  intro H. destruct (Qeq_dec x 0) as [Z|NZ].
  - rewrite roundFloat_zero by exact Z. apply Qle_refl.
  - rewrite roundFloat_eq by exact NZ.
    rewrite <- (roundAt_zero (scale x)). apply roundAt_mono, H.
Qed.

(** Rounding keeps the order. *)
Lemma roundFloat_mono x y :
  x <= y -> roundFloat prec emin x <= roundFloat prec emin y.
Proof.
  intro H.
  destruct (Qlt_le_dec 0 x) as [Px|Nx].
  - (* 0 < x <= y *)
    assert (NZx : ~ x == 0) by lra. assert (NZy : ~ y == 0) by lra.
    rewrite !roundFloat_eq by assumption.
    destruct (ilog2_spec x NZx) as [X1 X2].
    destruct (ilog2_spec y NZy) as [Y1 Y2].
    rewrite Qabs_pos in X1, X2, Y1, Y2 by lra.
    assert (L : (ilog2 x <= ilog2 y)%Z).
    { assert (L : (ilog2 x < ilog2 y + 1)%Z) by (apply two_lt_inv; lra). lia. }
    destruct (Z.eq_dec (scale x) (scale y)) as [E|NE].
    + rewrite E. apply roundAt_mono, H.
    + assert (S1 : (scale x < scale y)%Z) by (unfold scale in *; lia).
      assert (S2 : (scale y <= ilog2 y)%Z) by (unfold scale in *; lia).
      assert (S3 : (ilog2 x + 1 <= ilog2 y)%Z) by (unfold scale in *; lia).
      pose proof (two_le _ _ S3) as T.
      apply Qle_trans with (inject_Z 1 * 2 ^ ilog2 y).
      * apply roundAt_below; [lia|]. change (inject_Z 1) with 1. lra.
      * apply roundAt_above; [lia|]. change (inject_Z 1) with 1. lra.
  - destruct (Qlt_le_dec y 0) as [Ny|Py].
    + (* x <= y < 0 *)
      assert (NZx : ~ x == 0) by lra. assert (NZy : ~ y == 0) by lra.
      rewrite !roundFloat_eq by assumption.
      destruct (ilog2_spec x NZx) as [X1 X2].
      destruct (ilog2_spec y NZy) as [Y1 Y2].
      rewrite Qabs_neg in X1, X2, Y1, Y2 by lra.
      assert (L : (ilog2 y <= ilog2 x)%Z).
      { assert (L : (ilog2 y < ilog2 x + 1)%Z) by (apply two_lt_inv; lra). lia. }
      destruct (Z.eq_dec (scale x) (scale y)) as [E|NE].
      * rewrite E. apply roundAt_mono, H.
      * assert (S1 : (scale y < scale x)%Z) by (unfold scale in *; lia).
        assert (S2 : (scale x <= ilog2 x)%Z) by (unfold scale in *; lia).
        assert (S3 : (ilog2 y + 1 <= ilog2 x)%Z) by (unfold scale in *; lia).
        pose proof (two_le _ _ S3) as T.
        apply Qle_trans with (inject_Z (-1) * 2 ^ ilog2 x).
        -- apply roundAt_below; [lia|]. change (inject_Z (-1)) with (-1). lra.
        -- apply roundAt_above; [lia|]. change (inject_Z (-1)) with (-1). lra.
    + apply Qle_trans with 0;
        [apply roundFloat_sign_neg, Nx | apply roundFloat_sign_pos, Py].
Qed.

(** The error of rounding a number below [2^(m+1)] in magnitude is at
    most half a unit of the last place of that binade. *)
Lemma roundFloat_near x m :
  (emin <= m - (prec - 1))%Z -> Qabs x < 2 ^ (m + 1) ->
  Qabs (roundFloat prec emin x - x) <= 2 ^ (m - prec).
Proof.
  intros He Hx. destruct (Qeq_dec x 0) as [Z|NZ].
  - rewrite roundFloat_zero by exact Z. rewrite Z.
    change (Qabs (0 - 0)) with 0. apply Qlt_le_weak, two_pos.
  - rewrite roundFloat_eq by exact NZ.
    eapply Qle_trans; [apply roundAt_near|].
    pose proof (ilog2_below x m NZ Hx) as L.
    assert (S : (scale x <= m - prec + 1)%Z) by (unfold scale; lia).
    pose proof (two_le _ _ S) as T. rewrite two_succ in T.
    revert T. generalize (2 ^ scale x) (2 ^ (m - prec)). intros; lra.
Qed.

End Format.

End FloatProofs.

(** ** Angles *)

Module AngleProofs.
Import Floats FloatProofs Angles.

(** Linear arithmetic with [Math_PI] and the powers of 2 as unknowns. *)
Ltac hide_powers :=
  repeat match goal with
  | |- context [2 ^ ?e] =>
      let p := fresh "p" in set (p := 2 ^ e) in *; clearbody p
  | H : context [2 ^ ?e] |- _ =>
      let p := fresh "p" in set (p := 2 ^ e) in *; clearbody p
  end.

Ltac arith :=
  hide_powers;
  try (let pi := fresh "pi" in set (pi := Math_PI) in *; clearbody pi);
  first [lra | split; lra].

Lemma Math_PI_bounds : 3.14 < Math_PI < 3.15.
Proof. split; reflexivity. Qed.

Lemma Qgtb_false a b : Qgtb a b = false <-> a <= b.
Proof. unfold Qgtb. apply Qltb_ge. Qed.

Lemma Qgtb_true a b : Qgtb a b = true <-> b < a.
Proof. unfold Qgtb. apply Qltb_lt. Qed.

Lemma binary64_mono x y : x <= y -> binary64 x <= binary64 y.
Proof. intro H. apply roundFloat_mono; [lia | exact H]. Qed.

Lemma binary64_comp x y : x == y -> binary64 x == binary64 y.
Proof. apply roundFloat_comp. Qed.

Lemma binary64_near x m :
  (-1022 <= m)%Z -> Qabs x < 2 ^ (m + 1) ->
  Qabs (binary64 x - x) <= 2 ^ (m - 53).
Proof. intros Hm Hx. apply roundFloat_near; try lia; exact Hx. Qed.

Lemma binary64_PI : binary64 Math_PI == Math_PI.
Proof. vm_compute. reflexivity. Qed.

Lemma binary64_minus_PI : binary64 (- Math_PI) == - Math_PI.
Proof. vm_compute. reflexivity. Qed.

Lemma binary64_below_PI x : x <= Math_PI -> binary64 x <= Math_PI.
Proof.
  intro H. apply Qle_trans with (binary64 Math_PI).
  - apply binary64_mono, H.
  - apply Qle_lteq. right. apply binary64_PI.
Qed.

Lemma binary64_above_minus_PI x : - Math_PI <= x -> - Math_PI <= binary64 x.
Proof.
  intro H. apply Qle_trans with (binary64 (- Math_PI)).
  - apply Qle_lteq. right. symmetry. apply binary64_minus_PI.
  - apply binary64_mono, H.
Qed.

Lemma turns_S fuel : turns (S fuel) == turns fuel + 1.
Proof.
  unfold turns. rewrite Nat2Z.inj_succ. unfold Z.succ.
  rewrite inject_Z_plus. reflexivity.
Qed.

Lemma turns_nonneg fuel : 0 <= turns fuel.
Proof.
  unfold turns. change 0 with (inject_Z 0). rewrite <- Zle_Qle. lia.
Qed.

Lemma turnedBy_start x p : turnedBy (Z.of_nat 0) (turns 0 * p) x x.
Proof.
  unfold turnedBy. change (turns 0) with 0. change (inject_Z (Z.of_nat 0)) with 0.
  setoid_replace (x - (x - 0 * (2 * Math_PI))) with 0 by ring.
  rewrite Qmult_0_l. apply Qle_refl.
Qed.

(** The rounding error of a binade of angles, small against a turn. *)
Lemma slack_small m : (m <= 51)%Z -> 0 < 2 ^ (m - 53) <= 1 # 4.
Proof.
  intro H. split; [apply two_pos|].
  change (1 # 4) with (2 ^ (-2)). apply two_le. lia.
Qed.

Lemma roomy m : (1 <= m)%Z -> 4 <= 2 ^ (m + 1).
Proof. intro H. change 4 with (2 ^ 2). apply two_le. lia. Qed.

(** One turn of the first loop. *)
Lemma turn_down m x :
  (1 <= m <= 51)%Z -> Math_PI < x -> x < 2 ^ (m + 1) ->
  let x' := binary64 (x - 2 * Math_PI) in
  - Math_PI <= x' /\ x' <= x - 6 /\
  Qabs (x' - (x - 2 * Math_PI)) <= 2 ^ (m - 53).
Proof.
  intros Hm Hx Hb. cbn zeta.
  destruct Math_PI_bounds as [P1 P2].
  pose proof (roomy m (proj1 Hm)) as R.
  destruct (slack_small m (proj2 Hm)) as [S1 S2].
  assert (N : Qabs (binary64 (x - 2 * Math_PI) - (x - 2 * Math_PI))
              <= 2 ^ (m - 53)).
  { apply binary64_near; [lia|]. apply Qabs_Qlt_condition.
    arith. }
  split; [|split; [|exact N]].
  - apply binary64_above_minus_PI. arith.
  - apply Qabs_Qle_condition in N. arith.
Qed.

Lemma turn_up m x :
  (1 <= m <= 51)%Z -> x < - Math_PI -> - 2 ^ (m + 1) < x ->
  let x' := binary64 (x + 2 * Math_PI) in
  x' <= Math_PI /\ x + 6 <= x' /\
  Qabs (x' - (x + 2 * Math_PI)) <= 2 ^ (m - 53).
Proof.
  intros Hm Hx Hb. cbn zeta.
  destruct Math_PI_bounds as [P1 P2].
  pose proof (roomy m (proj1 Hm)) as R.
  destruct (slack_small m (proj2 Hm)) as [S1 S2].
  assert (N : Qabs (binary64 (x + 2 * Math_PI) - (x + 2 * Math_PI))
              <= 2 ^ (m - 53)).
  { apply binary64_near; [lia|]. apply Qabs_Qlt_condition.
    arith. }
  split; [|split; [|exact N]].
  - apply binary64_below_PI. arith.
  - apply Qabs_Qle_condition in N. arith.
Qed.

Lemma wrapDown_returns m : forall fuel x,
  (1 <= m <= 51)%Z -> x < 2 ^ (m + 1) -> x <= 6 * turns fuel ->
  exists r (k : nat),
    wrapDown fuel x = Some r /\ r <= Math_PI /\
    (Math_PI < x -> - Math_PI <= r) /\ (x <= Math_PI -> r = x /\ k = 0%nat) /\
    (k <= fuel)%nat /\
    turnedBy (Z.of_nat k) (turns k * 2 ^ (m - 53)) r x.
Proof.
  induction fuel as [|fuel IH]; intros x Hm Hb Hf.
  - exists x, 0%nat. cbn [wrapDown].
    destruct Math_PI_bounds as [P1 P2].
    assert (L : x <= Math_PI) by (change (turns 0) with 0 in Hf; lra).
    apply Qgtb_false in L. rewrite L. apply Qgtb_false in L.
    split; [reflexivity|]. split; [exact L|]. split; [intro; lra|].
    split; [intros _; split; reflexivity|]. split; [lia|].
    apply turnedBy_start.
  - cbn [wrapDown]. destruct (Qgtb x Math_PI) eqn:C.
    + apply Qgtb_true in C.
      destruct (turn_down m x Hm C Hb) as (T1 & T2 & T3). cbn zeta in *.
      set (x' := binary64 (x - 2 * Math_PI)) in *.
      rewrite turns_S in Hf.
      destruct (IH x' Hm) as (r & k & E & R1 & R2 & R3 & R4 & R5);
        [lra | lra |].
      exists r, (S k). split; [exact E|]. split; [exact R1|].
      split; [|split; [intro; lra|split; [lia|]]].
      * intros _. destruct (Qlt_le_dec Math_PI x') as [G|G].
        -- apply R2, G.
        -- destruct (R3 G) as [-> _]. exact T1.
      * unfold turnedBy in *. rewrite turns_S, Nat2Z.inj_succ.
        unfold Z.succ. rewrite inject_Z_plus. change (inject_Z 1) with 1.
        fold (turns k) in *.
        apply Qabs_Qle_condition in R5. apply Qabs_Qle_condition in T3.
        apply Qabs_Qle_condition.
        unfold turns in *. arith.
    + apply Qgtb_false in C. exists x, 0%nat.
      split; [reflexivity|]. split; [exact C|]. split; [intro; lra|].
      split; [intros _; split; reflexivity|]. split; [lia|].
      apply turnedBy_start.
Qed.

Lemma wrapUp_returns m : forall fuel x,
  (1 <= m <= 51)%Z -> - 2 ^ (m + 1) < x -> - (6 * turns fuel) <= x ->
  exists r (k : nat),
    wrapUp fuel x = Some r /\ - Math_PI <= r /\
    (x < - Math_PI -> r <= Math_PI) /\ (- Math_PI <= x -> r = x /\ k = 0%nat) /\
    (k <= fuel)%nat /\
    turnedBy (- Z.of_nat k) (turns k * 2 ^ (m - 53)) r x.
Proof.
  induction fuel as [|fuel IH]; intros x Hm Hb Hf.
  - exists x, 0%nat. cbn [wrapUp].
    destruct Math_PI_bounds as [P1 P2].
    assert (L : - Math_PI <= x) by (change (turns 0) with 0 in Hf; lra).
    apply Qltb_ge in L. rewrite L. apply Qltb_ge in L.
    split; [reflexivity|]. split; [exact L|]. split; [intro; lra|].
    split; [intros _; split; reflexivity|]. split; [lia|].
    apply turnedBy_start.
  - cbn [wrapUp]. destruct (Qltb x (- Math_PI)) eqn:C.
    + apply Qltb_lt in C.
      destruct (turn_up m x Hm C Hb) as (T1 & T2 & T3). cbn zeta in *.
      set (x' := binary64 (x + 2 * Math_PI)) in *.
      rewrite turns_S in Hf.
      destruct (IH x' Hm) as (r & k & E & R1 & R2 & R3 & R4 & R5);
        [lra | lra |].
      exists r, (S k). split; [exact E|]. split; [exact R1|].
      split; [|split; [intro; lra|split; [lia|]]].
      * intros _. destruct (Qlt_le_dec x' (- Math_PI)) as [G|G].
        -- apply R2, G.
        -- destruct (R3 G) as [-> _]. exact T1.
      * unfold turnedBy in *. rewrite turns_S, Nat2Z.inj_succ.
        unfold Z.succ. rewrite inject_Z_opp, inject_Z_plus in *.
        change (inject_Z 1) with 1.
        apply Qabs_Qle_condition in R5. apply Qabs_Qle_condition in T3.
        apply Qabs_Qle_condition.
        unfold turns in *. arith.
    + apply Qltb_ge in C. exists x, 0%nat.
      split; [reflexivity|]. split; [exact C|]. split; [intro; lra|].
      split; [intros _; split; reflexivity|]. split; [lia|].
      apply turnedBy_start.
Qed.

Lemma wrapDown_more fuel : forall x r more,
  wrapDown fuel x = Some r -> wrapDown (fuel + more) x = Some r.
Proof.
  induction fuel as [|fuel IH]; intros x r more; cbn [wrapDown Nat.add].
  - destruct (Qgtb x Math_PI) eqn:C; [discriminate|].
    intro H. destruct more; cbn [wrapDown]; rewrite C; exact H.
  - destruct (Qgtb x Math_PI); [apply IH | trivial].
Qed.

Lemma wrapUp_more fuel : forall x r more,
  wrapUp fuel x = Some r -> wrapUp (fuel + more) x = Some r.
Proof.
  induction fuel as [|fuel IH]; intros x r more; cbn [wrapUp Nat.add].
  - destruct (Qltb x (- Math_PI)) eqn:C; [discriminate|].
    intro H. destruct more; cbn [wrapUp]; rewrite C; exact H.
  - destruct (Qltb x (- Math_PI)); [apply IH | trivial].
Qed.

Lemma wrapUp_inside fuel x : - Math_PI <= x -> wrapUp fuel x = Some x.
Proof.
  intro H. apply Qltb_ge in H. destruct fuel; cbn [wrapUp]; rewrite H; reflexivity.
Qed.

Lemma wrapDown_inside fuel x : x <= Math_PI -> wrapDown fuel x = Some x.
Proof.
  intro H. apply Qgtb_false in H.
  destruct fuel; cbn [wrapDown]; rewrite H; reflexivity.
Qed.

Lemma normalizeAngle_returns m fuel angle :
  (1 <= m <= 51)%Z -> Qabs angle < 2 ^ (m + 1) ->
  Qabs angle <= 6 * turns fuel ->
  exists r (k : Z),
    normalizeAngle fuel angle = Some r /\
    - Math_PI <= r <= Math_PI /\
    (- Math_PI <= angle <= Math_PI -> r = angle) /\
    (Z.abs k <= Z.of_nat fuel)%Z /\
    turnedBy k (inject_Z (Z.abs k) * 2 ^ (m - 53)) r angle.
Proof.
  intros Hm Hb Hf. unfold normalizeAngle.
  apply Qabs_Qlt_condition in Hb. apply Qabs_Qle_condition in Hf.
  destruct Hb as [Hb1 Hb2]. destruct Hf as [Hf1 Hf2].
  destruct (wrapDown_returns m fuel angle Hm Hb2 Hf2)
    as (r & k & E & R1 & R2 & R3 & R4 & R5).
  rewrite E. destruct (Qlt_le_dec Math_PI angle) as [G|G].
  - specialize (R2 G). rewrite wrapUp_inside by exact R2.
    exists r, (Z.of_nat k). split; [reflexivity|]. split; [split; assumption|].
    split; [intros [_ X]; exfalso; lra|].
    rewrite Z.abs_eq by lia. split; [lia | exact R5].
  - destruct (R3 G) as [-> _].
    destruct (wrapUp_returns m fuel angle Hm Hb1 Hf1)
      as (r' & k' & E' & U1 & U2 & U3 & U4 & U5).
    exists r', (- Z.of_nat k')%Z. split; [exact E'|]. split; [split|].
    + exact U1.
    + destruct (Qlt_le_dec angle (- Math_PI)) as [L|L].
      * apply U2, L.
      * destruct (U3 L) as [-> _]. exact G.
    + split; [intros [X _]; apply U3, X|].
      rewrite Z.abs_opp, Z.abs_eq by lia. split; [lia | exact U5].
Qed.

Lemma normalizeAngle_inside fuel x :
  - Math_PI <= x <= Math_PI -> normalizeAngle fuel x = Some x.
Proof.
  intros [L U]. unfold normalizeAngle.
  rewrite wrapDown_inside by exact U. apply wrapUp_inside, L.
Qed.

(** For an angle below [2^(m+1)] in magnitude, [m] up to 51, and [fuel]
    turns where a sixth of the magnitude is enough, [normalizeAngle]
    returns: an angle of [[-PI, PI]], its argument when that is in the
    range already, and otherwise the argument less [k] whole turns up to
    the rounding of the [k] subtractions, each at most [2^(m-53)].  More
    fuel gives the same angle, and normalizing the result again returns
    it at once. *)
Theorem normalizeAngle_range m fuel angle :
  (1 <= m <= 51)%Z -> Qabs angle < 2 ^ (m + 1) ->
  Qabs angle <= 6 * turns fuel ->
  exists r (k : Z),
    normalizeAngle fuel angle = Some r /\
    - Math_PI <= r <= Math_PI /\
    (- Math_PI <= angle <= Math_PI -> r = angle) /\
    (Z.abs k <= Z.of_nat fuel)%Z /\
    turnedBy k (inject_Z (Z.abs k) * 2 ^ (m - 53)) r angle /\
    (forall more, normalizeAngle (fuel + more) angle = Some r) /\
    (forall any, normalizeAngle any r = Some r).
Proof.
  intros Hm Hb Hf.
  destruct (normalizeAngle_returns m fuel angle Hm Hb Hf)
    as (r & k & E & R & I & K & T).
  exists r, k. do 5 (split; [assumption|]). split.
  - intro more. unfold normalizeAngle in *.
    destruct (wrapDown fuel angle) as [a|] eqn:D; [|discriminate].
    rewrite (wrapDown_more _ _ _ more D). apply wrapUp_more, E.
  - intro any. apply normalizeAngle_inside, R.
Qed.

Lemma normalizeAngle_range_witness :
  exists r, normalizeAngle 2 7 = Some r /\ - Math_PI <= r <= Math_PI.
Proof.
  destruct (normalizeAngle_range 2 2 7) as (r & k & E & R & _).
  - lia.
  - reflexivity.
  - vm_compute. discriminate.
  - exists r. split; [exact E | exact R].
Defined.

Lemma wrapDown_stuck angle : forall fuel x,
  Math_PI < angle -> binary64 (angle - 2 * Math_PI) == angle ->
  x == angle -> wrapDown fuel x = None.
Proof.
  induction fuel as [|fuel IH]; intros x Hgt Habs Hx; cbn [wrapDown].
  - assert (G : Math_PI < x) by (rewrite Hx; exact Hgt).
    apply Qgtb_true in G. rewrite G. reflexivity.
  - assert (G : Math_PI < x) by (rewrite Hx; exact Hgt).
    apply Qgtb_true in G. rewrite G.
    apply IH; [exact Hgt | exact Habs |].
    rewrite <- Habs. apply binary64_comp. rewrite Hx. reflexivity.
Qed.

Lemma wrapUp_stuck angle : forall fuel x,
  angle < - Math_PI -> binary64 (angle + 2 * Math_PI) == angle ->
  x == angle -> wrapUp fuel x = None.
Proof.
  induction fuel as [|fuel IH]; intros x Hlt Habs Hx; cbn [wrapUp].
  - assert (G : x < - Math_PI) by (rewrite Hx; exact Hlt).
    apply Qltb_lt in G. rewrite G. reflexivity.
  - assert (G : x < - Math_PI) by (rewrite Hx; exact Hlt).
    apply Qltb_lt in G. rewrite G.
    apply IH; [exact Hlt | exact Habs |].
    rewrite <- Habs. apply binary64_comp. rewrite Hx. reflexivity.
Qed.

(** An angle outside [[-PI, PI]], of the range of the finite numbers, so
    large that taking a turn off it rounds back to the angle itself
    keeps [normalizeAngle] in its loop: the call has not returned after
    any number of turns. *)
Theorem normalizeAngle_loops_on_absorbed_turn angle :
  Qabs angle < 2 ^ 1024 ->
  (Math_PI < angle /\ binary64 (angle - 2 * Math_PI) == angle) \/
  (angle < - Math_PI /\ binary64 (angle + 2 * Math_PI) == angle) ->
  forall fuel, normalizeAngle fuel angle = None.
Proof.
  intros _ [[H1 H2]|[H1 H2]] fuel; unfold normalizeAngle.
  - rewrite (wrapDown_stuck angle fuel angle H1 H2); reflexivity.
  - rewrite wrapDown_inside by (destruct Math_PI_bounds; lra).
    apply (wrapUp_stuck angle fuel angle H1 H2). reflexivity.
Qed.

Lemma normalizeAngle_loops_on_absorbed_turn_witness :
  normalizeAngle 1000 1e17 = None /\ normalizeAngle 1000 (-1e17) = None.
Proof.
  split; apply normalizeAngle_loops_on_absorbed_turn;
    [reflexivity | left | reflexivity | right];
    split; vm_compute; reflexivity.
Defined.

(** *** Rounding errors of angles *)

Lemma near4 x : Qabs x < 4 -> Qabs (binary64 x - x) <= 2 ^ (-52).
Proof. intro H. apply (binary64_near x 1); [lia | exact H]. Qed.

Lemma near8 x : Qabs x < 8 -> Qabs (binary64 x - x) <= 2 ^ (-51).
Proof. intro H. apply (binary64_near x 2); [lia | exact H]. Qed.

Lemma near16 x : Qabs x < 16 -> Qabs (binary64 x - x) <= 2 ^ (-50).
Proof. intro H. apply (binary64_near x 3); [lia | exact H]. Qed.

Ltac small_powers :=
  change (2 ^ (-52)) with (1 # 4503599627370496) in *;
  change (2 ^ (-51)) with (1 # 2251799813685248) in *;
  change (2 ^ (-50)) with (1 # 1125899906842624) in *;
  change (2 ^ (-49)) with (1 # 562949953421312) in *;
  change (2 ^ (-48)) with (1 # 281474976710656) in *;
  change (2 ^ (-47)) with (1 # 140737488355328) in *.

Ltac bounds H := apply Qabs_Qle_condition in H.

(** The middle of [lerpAngle], between the calls of [normalizeAngle]. *)
Lemma lerpAngle_middle S E t :
  - Math_PI <= S <= Math_PI -> - Math_PI <= E <= Math_PI -> 0 <= t <= 1 ->
  let SE :=
    if Qgtb (Qabs (binary64 (E - S))) Math_PI then
      if Qgtb E S then (binary64 (S + 2 * Math_PI), E)
      else (S, binary64 (E + 2 * Math_PI))
    else (S, E) in
  let d := binary64 (snd SE - fst SE) in
  let a := binary64 (fst SE + binary64 (d * t)) in
  Qabs d <= Math_PI + 2 ^ (-49) /\
  (exists j : Z, (-1 <= j <= 1)%Z /\
     Qabs (d - (E - S - inject_Z j * (2 * Math_PI))) <= 2 ^ (-49)) /\
  (exists j : Z, (0 <= j <= 1)%Z /\
     Qabs (a - (S + d * t + inject_Z j * (2 * Math_PI))) <= 2 ^ (-48)) /\
  Qabs a < 16.
Proof.
  intros [S1 S2] [E1 E2] [T1 T2]. cbn zeta.
  destruct Math_PI_bounds as [P1 P2].
  assert (Tail : forall S' E' (j j' : Z),
    (-1 <= j <= 1)%Z -> (0 <= j' <= 1)%Z ->
    Qabs (S' - (S + inject_Z j' * (2 * Math_PI))) <= 2 ^ (-50) ->
    - Math_PI - 2 ^ (-50) <= E' - S' <= Math_PI + 2 ^ (-50) ->
    Qabs (E' - S' - (E - S - inject_Z j * (2 * Math_PI))) <= 2 ^ (-50) ->
    let d := binary64 (E' - S') in
    let a := binary64 (S' + binary64 (d * t)) in
    Qabs d <= Math_PI + 2 ^ (-49) /\
    Qabs (d - (E - S - inject_Z j * (2 * Math_PI))) <= 2 ^ (-49) /\
    Qabs (a - (S + d * t + inject_Z j' * (2 * Math_PI))) <= 2 ^ (-48) /\
    Qabs a < 16).
  { intros S' E' j j' Hj Hj' HS HD HE. cbn zeta.
    assert (Jq : 0 <= inject_Z j' * (2 * Math_PI) <= 2 * Math_PI).
    { assert (X : 0 <= inject_Z j' <= 1).
      { change 0 with (inject_Z 0). change 1 with (inject_Z 1).
        rewrite <- !Zle_Qle. exact Hj'. }
      revert X P1. generalize (inject_Z j') Math_PI. intros; split; nra. }
    set (o' := inject_Z j' * (2 * Math_PI)) in *. clearbody o'.
    set (o := inject_Z j * (2 * Math_PI)) in *. clearbody o.
    pose proof (near4 (E' - S')) as Nd.
    set (d := binary64 (E' - S')) in *.
    small_powers.
    assert (Nd' : Qabs (d - (E' - S')) <= 1 # 4503599627370496).
    { apply Nd. apply Qabs_Qlt_condition. arith. }
    clear Nd. bounds Nd'. bounds HS. bounds HE.
    assert (Hd : - (Math_PI + (1 # 562949953421312)) <= d
                 <= Math_PI + (1 # 562949953421312)) by arith.
    assert (Hdt : - (Math_PI + (1 # 562949953421312)) <= d * t
                  <= Math_PI + (1 # 562949953421312)).
    { destruct Hd as [D1 D2]. revert D1 D2 P1 T1 T2.
      generalize Math_PI. intros; split; nra. }
    pose proof (near4 (d * t)) as Np.
    set (dt := d * t) in *.
    assert (Np' : Qabs (binary64 dt - dt) <= 2 ^ (-52)).
    { apply Np. apply Qabs_Qlt_condition. arith. }
    clear Np. small_powers. bounds Np'.
    set (p := binary64 dt) in *.
    pose proof (near16 (S' + p)) as Na.
    assert (Na' : Qabs (binary64 (S' + p) - (S' + p)) <= 2 ^ (-50)).
    { apply Na. apply Qabs_Qlt_condition. arith. }
    clear Na. small_powers. bounds Na'.
    set (a := binary64 (S' + p)) in *.
    split; [apply Qabs_Qle_condition; exact Hd|].
    split; [apply Qabs_Qle_condition; arith|].
    split; [apply Qabs_Qle_condition; arith|].
    apply Qabs_Qlt_condition. arith. }
  assert (Wrap : forall (j j' : Z) d a,
    (-1 <= j <= 1)%Z -> (0 <= j' <= 1)%Z ->
    Qabs d <= Math_PI + 2 ^ (-49) /\
    Qabs (d - (E - S - inject_Z j * (2 * Math_PI))) <= 2 ^ (-49) /\
    Qabs (a - (S + d * t + inject_Z j' * (2 * Math_PI))) <= 2 ^ (-48) /\
    Qabs a < 16 ->
    Qabs d <= Math_PI + 2 ^ (-49) /\
    (exists j : Z, (-1 <= j <= 1)%Z /\
       Qabs (d - (E - S - inject_Z j * (2 * Math_PI))) <= 2 ^ (-49)) /\
    (exists j : Z, (0 <= j <= 1)%Z /\
       Qabs (a - (S + d * t + inject_Z j * (2 * Math_PI))) <= 2 ^ (-48)) /\
    Qabs a < 16).
  { intros j j' d a Hj Hj' (A & B & C & D). split; [exact A|].
    split; [exists j; split; assumption|].
    split; [exists j'; split; assumption | exact D]. }
  destruct (Qgtb (Qabs (binary64 (E - S))) Math_PI) eqn:Far.
  - apply Qgtb_true in Far.
    assert (Out : ~ (- Math_PI <= E - S <= Math_PI)).
    { intros [A B]. apply binary64_below_PI in B.
      apply binary64_above_minus_PI in A.
      assert (X : Qabs (binary64 (E - S)) <= Math_PI)
        by (apply Qabs_Qle_condition; split; assumption).
      lra. }
    destruct (Qgtb E S) eqn:Up; cbn [fst snd].
    + apply Qgtb_true in Up.
      assert (G : Math_PI < E - S).
      { apply Qnot_le_lt. intro X. apply Out. split; [lra | exact X]. }
      pose proof (near16 (S + 2 * Math_PI)) as N.
      assert (N' : Qabs (binary64 (S + 2 * Math_PI) - (S + 2 * Math_PI))
                   <= 2 ^ (-50)).
      { apply N. apply Qabs_Qlt_condition. arith. }
      clear N.
      apply (Wrap 1%Z 1%Z); try lia. apply (Tail _ E 1%Z 1%Z); try lia.
      * change (inject_Z 1) with 1.
        setoid_replace (S + 1 * (2 * Math_PI)) with (S + 2 * Math_PI) by ring.
        exact N'.
      * small_powers. bounds N'. arith.
      * change (inject_Z 1) with 1. small_powers. bounds N'.
        apply Qabs_Qle_condition. arith.
    + apply Qgtb_false in Up.
      assert (G : E - S < - Math_PI).
      { apply Qnot_le_lt. intro X. apply Out. split; [exact X | lra]. }
      pose proof (near16 (E + 2 * Math_PI)) as N.
      assert (N' : Qabs (binary64 (E + 2 * Math_PI) - (E + 2 * Math_PI))
                   <= 2 ^ (-50)).
      { apply N. apply Qabs_Qlt_condition. arith. }
      clear N.
      apply (Wrap (-1)%Z 0%Z); try lia. apply (Tail S _ (-1)%Z 0%Z); try lia.
      * change (inject_Z 0) with 0. small_powers.
        apply Qabs_Qle_condition. arith.
      * small_powers. bounds N'. arith.
      * change (inject_Z (-1)) with (-1). small_powers. bounds N'.
        apply Qabs_Qle_condition. arith.
  - apply Qgtb_false in Far. cbn [fst snd].
    (* the rounded difference is within PI; so is the exact one, up to rounding *)
    pose proof (near8 (E - S)) as N.
    assert (N' : Qabs (binary64 (E - S) - (E - S)) <= 2 ^ (-51)).
    { apply N. apply Qabs_Qlt_condition. arith. }
    clear N. bounds Far.
    apply (Wrap 0%Z 0%Z); try lia. apply (Tail S E 0%Z 0%Z); try lia.
    + change (inject_Z 0) with 0. small_powers.
      apply Qabs_Qle_condition. arith.
    + small_powers. bounds N'. arith.
    + change (inject_Z 0) with 0. small_powers.
      apply Qabs_Qle_condition. arith.
Qed.

Lemma few_turns (k : Z) r a :
  - Math_PI <= r <= Math_PI -> Qabs a < 16 ->
  turnedBy k (inject_Z (Z.abs k) * 2 ^ (-50)) r a ->
  turnedBy k (3 * 2 ^ (-50)) r a.
Proof.
  intros [R1 R2] Ha H. unfold turnedBy in *.
  apply Qabs_Qlt_condition in Ha.
  eapply Qle_trans; [exact H|].
  assert (K : (Z.abs k <= 3)%Z).
  { assert (K : (Z.abs k < 4)%Z).
    { rewrite Zlt_Qlt. bounds H. small_powers. change (inject_Z 4) with 4.
      unfold Math_PI in *.
      destruct (Z.abs_spec k) as [[_ A]|[_ A]]; rewrite A in *;
        rewrite ?inject_Z_opp in *; lra. }
    lia. }
  rewrite Zle_Qle in K. change (inject_Z 3) with 3 in K.
  small_powers. lra.
Qed.

Lemma turns_three fuel : (3 <= fuel)%nat -> 16 <= 6 * turns fuel.
Proof.
  intro H. unfold turns.
  assert (X : 3 <= inject_Z (Z.of_nat fuel)).
  { change 3 with (inject_Z 3). rewrite <- Zle_Qle. lia. }
  lra.
Qed.

(** For start and end angles as [normalizeAngle] takes them, a factor
    [t] of [[0, 1]] and at least three turns of fuel, [lerpAngle]
    returns an angle of [[-PI, PI]].  With [S] and [E] the normalized
    start and end, it interpolates along the rounded difference [d]: the
    shorter way round from [S] to [E], which is [E - S] or that a turn up
    or down, of magnitude [PI] at most, up to [2^-49]; and the result is
    [S + d * t], whole turns and [2^-47] apart. *)
Theorem lerpAngle_takes_shorter_way m fuel start end_ t :
  (1 <= m <= 51)%Z ->
  Qabs start < 2 ^ (m + 1) -> Qabs end_ < 2 ^ (m + 1) ->
  Qabs start <= 6 * turns fuel -> Qabs end_ <= 6 * turns fuel ->
  (3 <= fuel)%nat -> 0 <= t <= 1 ->
  exists S E d r (k : Z),
    normalizeAngle fuel start = Some S /\
    normalizeAngle fuel end_ = Some E /\
    lerpAngle fuel start end_ t = Some r /\
    - Math_PI <= r <= Math_PI /\
    Qabs d <= Math_PI + 2 ^ (-49) /\
    (exists j : Z, (-1 <= j <= 1)%Z /\ turnedBy j (2 ^ (-49)) d (E - S)) /\
    turnedBy k (2 ^ (-47)) r (S + d * t).
Proof.
  intros Hm Hs He Fs Fe Hf Ht. unfold lerpAngle.
  destruct (normalizeAngle_returns m fuel start Hm Hs Fs)
    as (S & ks & ES & RS & _).
  destruct (normalizeAngle_returns m fuel end_ Hm He Fe)
    as (E & ke & EE & RE & _).
  rewrite ES, EE.
  pose proof (lerpAngle_middle S E t RS RE Ht) as M. cbn zeta in M.
  set (SE := if Qgtb (Qabs (binary64 (E - S))) Math_PI
             then if Qgtb E S then (binary64 (S + 2 * Math_PI), E)
                  else (S, binary64 (E + 2 * Math_PI))
             else (S, E)) in *.
  destruct SE as [S' E']. cbn [fst snd] in M.
  set (d := binary64 (E' - S')) in *.
  set (a := binary64 (S' + binary64 (d * t))) in *.
  destruct M as (Md & (j & Hj & Mj) & (j' & Hj' & Ma) & Mb).
  destruct (normalizeAngle_returns 3 fuel a) as (r & k & Er & Rr & _ & _ & Tr).
  { lia. }
  { exact Mb. }
  { apply Qle_trans with 16; [apply Qlt_le_weak, Mb | apply turns_three, Hf]. }
  change (2 ^ (3 - 53)) with (2 ^ (-50)) in Tr.
  apply (few_turns k r a Rr Mb) in Tr.
  exists S, E, d, r, (k - j')%Z.
  split; [reflexivity|]. split; [reflexivity|]. split; [exact Er|].
  split; [exact Rr|]. split; [exact Md|].
  split; [exists j; split; [exact Hj | exact Mj]|].
  unfold turnedBy in *. unfold Z.sub. rewrite inject_Z_plus, inject_Z_opp.
  bounds Tr. bounds Ma. apply Qabs_Qle_condition.
  set (dt := d * t) in *. clearbody dt.
  set (kq := inject_Z k) in *. set (jq := inject_Z j') in *.
  clearbody kq jq. small_powers. unfold Math_PI in *. split; lra.
Qed.

Lemma lerpAngle_takes_shorter_way_witness :
  exists r, lerpAngle 3 3 (-3) (1 # 10) = Some r /\ - Math_PI <= r <= Math_PI.
Proof.
  destruct (lerpAngle_takes_shorter_way 1 3 3 (-3) (1 # 10))
    as (S & E & d & r & k & _ & _ & H & R & _).
  - lia.
  - reflexivity.
  - reflexivity.
  - vm_compute. discriminate.
  - vm_compute. discriminate.
  - lia.
  - split; vm_compute; discriminate.
  - exists r. split; [exact H | exact R].
Defined.

End AngleProofs.

(** ** Pointer and render position *)

Module ViewProofs.
Import Character Angles View.

Lemma clamp_range v lo hi : lo <= hi -> lo <= clamp v lo hi <= hi.
Proof.
  intro H. unfold clamp. split.
  - apply Q.le_max_l.
  - apply Q.max_lub; [exact H | apply Q.le_min_l].
Qed.

(** Whatever mouse, pointer-lock and camera-mode events arrive, the
    vertical look offset stays within [[-PI/3, PI/3]]. *)
Theorem vertical_look_stays_within_sixty_degrees es :
  let p := fold_left pointerEvent es newPointer in
  - Math_PI / 3 <= mouseVerticalOffset p <= Math_PI / 3.
Proof.
  cbn zeta.
  assert (H0 : - Math_PI / 3 <= mouseVerticalOffset newPointer <= Math_PI / 3)
    by (split; vm_compute; discriminate).
  revert H0. generalize newPointer.
  induction es as [|e es IH]; intros p Hp; [exact Hp|].
  cbn [fold_left]. apply IH. destruct e as [dx dy|b|m]; cbn [pointerEvent].
  - unfold handleMouseMove. destruct (_ || _); [exact Hp|].
    cbn [mouseVerticalOffset]. apply clamp_range. vm_compute. discriminate.
  - exact Hp.
  - exact Hp.
Qed.

Lemma between_lerp a b t : 0 <= t <= 1 -> between a b (a + (b - a) * t).
Proof.
  intros [H0 H1]. unfold between.
  destruct (Qlt_le_dec a b) as [L|L].
  - rewrite Q.min_l, Q.max_r by lra. split; nra.
  - rewrite Q.min_r, Q.max_l by lra. split; nra.
Qed.

(** The position given to the scene graph lies, coordinate by
    coordinate, between the previous and the current body position when
    the alpha is in [[0, 1]]; it is the previous position for alpha 0 and
    the current one for alpha 1 or on the first frame; and the current
    position always becomes the next frame's previous one. *)
Theorem interpolation_between_positions position alpha r :
  let r' := interpolate position alpha r in
  prevPosition r' = position /\
  (lengthSq (prevPosition r) == 0 -> containerPosition r' = position) /\
  (~ lengthSq (prevPosition r) == 0 ->
   (0 <= alpha <= 1 ->
    between (v_x (prevPosition r)) (v_x position) (v_x (containerPosition r')) /\
    between (v_y (prevPosition r)) (v_y position) (v_y (containerPosition r')) /\
    between (v_z (prevPosition r)) (v_z position) (v_z (containerPosition r'))) /\
   (alpha == 0 -> sameVec (containerPosition r') (prevPosition r)) /\
   (alpha == 1 -> sameVec (containerPosition r') position)).
Proof.
  cbn zeta. unfold interpolate. cbn [prevPosition containerPosition].
  split; [reflexivity|]. split.
  - intro H. apply Qeq_bool_iff in H. rewrite H. reflexivity.
  - intro H. destruct (Qeq_bool _ 0) eqn:E;
      [apply Qeq_bool_iff in E; contradiction|].
    unfold lerpVectors. cbn [v_x v_y v_z]. split; [|split].
    + intro Ha. repeat split; apply between_lerp; assumption.
    + intro Ha. unfold sameVec. cbn [v_x v_y v_z]. rewrite Ha.
      repeat split; ring.
    + intro Ha. unfold sameVec. cbn [v_x v_y v_z]. rewrite Ha.
      repeat split; ring.
Qed.

(** As the scene calls [update], without an alpha, the position shown in
    a frame is the body position of the frame before. *)
Theorem displayed_position_lags_one_frame p1 p2 r :
  ~ lengthSq p1 == 0 ->
  let r2 := renderFrame p2 (renderFrame p1 r) in
  sameVec (containerPosition r2) p1 /\ prevPosition r2 = p2.
Proof.
  intro H. cbn zeta. unfold renderFrame, interpolate.
  cbn [prevPosition containerPosition].
  destruct (Qeq_bool (lengthSq p1) 0) eqn:E;
    [apply Qeq_bool_iff in E; contradiction|].
  split; [|reflexivity].
  unfold sameVec, lerpVectors. cbn [v_x v_y v_z]. repeat split; ring.
Qed.

Lemma displayed_position_lags_one_frame_witness :
  sameVec (containerPosition
             (renderFrame {| v_x := 0; v_y := 1; v_z := 1 |}
                (renderFrame {| v_x := 0; v_y := 2; v_z := 0 |}
                   {| prevPosition := zeroVec; currentPosition := zeroVec;
                      containerPosition := zeroVec |})))
          {| v_x := 0; v_y := 2; v_z := 0 |}.
Proof.
  apply (displayed_position_lags_one_frame
           {| v_x := 0; v_y := 2; v_z := 0 |} {| v_x := 0; v_y := 1; v_z := 1 |}).
  vm_compute. discriminate.
Defined.

Lemma interpolation_between_positions_witness :
  let r := {| prevPosition := {| v_x := 0; v_y := 2; v_z := 0 |};
              currentPosition := {| v_x := 0; v_y := 2; v_z := 0 |};
              containerPosition := {| v_x := 0; v_y := 2; v_z := 0 |} |} in
  between 2 1
    (v_y (containerPosition
            (interpolate {| v_x := 0; v_y := 1; v_z := 1 |} (1 / 2) r))).
Proof.
  cbn zeta.
  destruct (interpolation_between_positions
              {| v_x := 0; v_y := 1; v_z := 1 |} (1 / 2)
              {| prevPosition := {| v_x := 0; v_y := 2; v_z := 0 |};
                 currentPosition := {| v_x := 0; v_y := 2; v_z := 0 |};
                 containerPosition := {| v_x := 0; v_y := 2; v_z := 0 |} |})
    as (_ & _ & H).
  destruct H as (H & _); [vm_compute; discriminate|].
  destruct H as (_ & H & _); [split; vm_compute; discriminate|].
  exact H.
Defined.

End ViewProofs.

(** ** The particle pool *)

Module ParticleProofs.
Import Character Floats FloatProofs Particles.

Lemma length_setAt {A} i (v : A) l : List.length (setAt i v l) = List.length l.
Proof.
  revert i. induction l as [|h t IH]; intros [|i]; cbn; try reflexivity.
  rewrite IH. reflexivity.
Qed.




Lemma updateAt_shaped pow delta s i : shaped s -> shaped (updateAt pow delta s i).
Proof.
  intros (H1 & H2 & H3 & H4 & H5 & H6). unfold updateAt.
  destruct (nth_error (active s) i) as [[|]|]; try (repeat split; assumption).
  destruct (nth_error (lifetimes s) i); try (repeat split; assumption).
  destruct (nth_error (initialScales s) i); try (repeat split; assumption).
  destruct (nth_error (sprites s) i) eqn:Es;
    [destruct (nth_error (velocities s) i)|];
    [destruct (Qleb _ 0)| |];
    unfold shaped; cbn [sprites velocities lifetimes initialScales active cursor];
    rewrite ?length_setAt; repeat split; try assumption.
  all: destruct H1 as [H1 | H1]; [left; assumption | rewrite H1 in Es; destruct i; discriminate].
Qed.






Lemma update_shaped pow delta s : shaped s -> shaped (update pow delta s).
Proof.
  unfold update. generalize (seq 0 MAX_PARTICLES). intro l. revert s.
  induction l as [|i l IH]; intros s H; cbn; [exact H|].
  apply IH, updateAt_shaped, H.
Qed.

Lemma update_cursor pow delta s : cursor (update pow delta s) = cursor s.
Proof.
  unfold update. generalize (seq 0 MAX_PARTICLES). intro l. revert s.
  induction l as [|i l IH]; intros s; cbn; [reflexivity|].
  rewrite IH. unfold updateAt.
  destruct (nth_error (active s) i) as [[|]|]; try reflexivity.
  destruct (nth_error (lifetimes s) i); try reflexivity.
  destruct (nth_error (initialScales s) i); try reflexivity.
  destruct (nth_error (sprites s) i); [destruct (nth_error (velocities s) i)|];
    [destruct (Qleb _ 0)| |]; reflexivity.
Qed.

Lemma spawn_shaped M rnd o s : shaped s -> shaped (spawn M rnd o s).
Proof.
  intros (H1 & H2 & H3 & H4 & H5 & H6). unfold spawn.
  destruct (List.length (sprites s) =? 0)%nat eqn:E;
    [repeat split; assumption|].
  apply Nat.eqb_neq in E.
  assert (Hs : List.length (sprites s) = MAX_PARTICLES).
  { destruct H1 as [H1|H1]; [exact H1 | rewrite H1 in E; cbn in E; lia]. }
  assert (Hm : ((cursor s + 1) mod MAX_PARTICLES < MAX_PARTICLES)%nat)
    by (apply Nat.mod_upper_bound; discriminate).
  destruct (nth_error (sprites s) (cursor s));
    [destruct (nth_error (velocities s) (cursor s))|];
    unfold shaped; cbn [sprites velocities lifetimes initialScales active cursor];
    rewrite ?length_setAt; repeat split; try assumption; left; assumption.
Qed.

Lemma create_shaped : shaped create.
Proof.
  unfold shaped, create. cbn [sprites velocities lifetimes initialScales active cursor].
  rewrite !repeat_length. repeat split; try reflexivity.
  - left. reflexivity.
  - unfold MAX_PARTICLES. lia.
Qed.

Lemma dispose_shaped s : shaped s -> shaped (dispose s).
Proof.
  intros (H1 & H2 & H3 & H4 & H5 & H6). repeat split; try assumption.
  right. reflexivity.
Qed.

(** The pool is a ring of 48 particles: whatever is spawned, updated or
    disposed of, no array grows or shrinks (the sprites apart, which
    [dispose] empties) and the cursor stays an index; a spawn on a live
    pool moves the cursor one slot on, wrapping after the last, so the
    49th particle takes the slot of the first. *)
Theorem pool_is_a_ring_of_48 M pow cs :
  let s := fold_left (poolCall M pow) cs create in
  shaped s /\
  (forall rnd o, sprites s <> [] ->
     cursor (spawn M rnd o s) = ((cursor s + 1) mod 48)%nat) /\
  (forall rnd o, sprites s = [] -> spawn M rnd o s = s).
Proof.
  cbn zeta.
  assert (H : shaped (fold_left (poolCall M pow) cs create)).
  { generalize create_shaped. generalize create.
    induction cs as [|c cs IH]; intros s Hs; cbn; [exact Hs|].
    apply IH. destruct c; cbn.
    - apply spawn_shaped, Hs.
    - apply update_shaped, Hs.
    - apply dispose_shaped, Hs. }
  split; [exact H|]. split.
  - intros rnd o Hne. unfold spawn.
    destruct (sprites _) as [|sp rest] eqn:E; [congruence|].
    cbn [List.length Nat.eqb].
    destruct (nth_error (sp :: rest) _);
      [destruct (nth_error (velocities _) _)|]; reflexivity.
  - intros rnd o He. unfold spawn. rewrite He. reflexivity.
Qed.






(** *** Entries of the typed arrays *)













End ParticleProofs.

(** ** The controller: handlers, animation, capsule, footsteps, frames *)

Module ControllerProofs.
Import Character Scenario CharacterProofs Footfalls.

(** The controller keeps one flag per action: releasing a key clears the
    action even when it was pressed with another key bound to the same
    action, which may still be held. *)
Theorem key_up_releases_action_of_other_key key1 key2 c :
  isOneOf key1 ["r"]%string = false ->
  keySwitch true key1 noKeys = keySwitch true key2 noKeys ->
  keys (handleKeyUp key2 (handleKeyDown key1 c)) = keys (handleKeyUp key1 c).
Proof.
  intros Hr Hsame. unfold handleKeyUp, handleKeyDown. rewrite Hr.
  unfold set_key. record_norm.
  revert Hsame. unfold keySwitch.
  repeat match goal with
  | |- context [isOneOf key1 ?l] =>
      let b := fresh "b" in set (b := isOneOf key1 l); clearbody b
  | |- context [isOneOf key2 ?l] =>
      let b := fresh "d" in set (b := isOneOf key2 l); clearbody b
  end.
  destruct (keys c). unfold noKeys. cbn.
  repeat match goal with
  | |- context [if ?b then _ else _] => destruct b
  end; cbn; intro H; try reflexivity; discriminate H.
Qed.

Lemma key_up_releases_action_of_other_key_witness :
  key_forward (keys (handleKeyUp "arrowup" (handleKeyDown "w" standing)))
  = false.
Proof.
  rewrite (key_up_releases_action_of_other_key "w" "arrowup" standing);
    vm_compute; reflexivity.
Defined.

Lemma setAnimation_effects a c :
  effects (setAnimation a c) = effects c \/
  effects (setAnimation a c)
  = effects c ++ [ConsoleWarn (notFoundMessage (animationMap a))].
Proof.
  unfold setAnimation.
  destruct (Anim_eqb _ _); [left; reflexivity|].
  destruct (_ && _); [left; reflexivity|].
  destruct (negb (hasAction c (animationMap a))); [right; reflexivity|].
  left. destruct (negb _); record_norm; reflexivity.
Qed.

(** An attack starts only in combat mode and when none is running.  The
    left and the right button schedule the end of the attack 600 ms
    later, and that callback clears the flag; any other button sets the
    flag and schedules nothing.  While the flag is set every further
    mouse button is ignored. *)
Theorem attack_needs_left_or_right_button button c :
  let c' := handleMouseDown button c in
  (combatMode c = false \/ isAttacking c = true -> c' = c) /\
  (combatMode c = true -> isAttacking c = false ->
   isAttacking c' = true /\
   (forall b, handleMouseDown b c' = c') /\
   (button = 0%nat \/ button = 2%nat ->
      (exists log, effects c' = effects c ++ log ++ [SetTimeout AttackEnd 600]) /\
      isAttacking (fire AttackEnd c') = false) /\
   (button <> 0%nat -> button <> 2%nat ->
      c' = set_isAttacking true c)).
Proof.
  cbn zeta. unfold handleMouseDown. split.
  - intros [H | H]; rewrite H; [|rewrite orb_true_r]; reflexivity.
  - intros Hc Ha. rewrite Hc, Ha. cbn [negb orb].
    assert (Hatt : forall a x, isAttacking (emit x (setAnimation a (set_isAttacking true c))) = true).
    { intros a x. unfold emit. record_norm.
      rewrite (setAnimation_keeps isAttacking) by (intros; reflexivity).
      reflexivity. }
    assert (Hcm : forall a x, combatMode (emit x (setAnimation a (set_isAttacking true c))) = true).
    { intros a x. unfold emit. record_norm.
      rewrite (setAnimation_keeps combatMode) by (intros; reflexivity).
      record_norm. exact Hc. }
    split; [|split; [|split]].
    + destruct (button =? 0)%nat; [apply Hatt|].
      destruct (button =? 2)%nat; [apply Hatt | reflexivity].
    + intro b.
      destruct (button =? 0)%nat; [rewrite Hatt, orb_true_r; reflexivity|].
      destruct (button =? 2)%nat; [rewrite Hatt, orb_true_r; reflexivity|].
      record_norm. rewrite orb_true_r. reflexivity.
    + assert (Hlog : forall a,
                exists log,
                  effects (emit (SetTimeout AttackEnd 600)
                             (setAnimation a (set_isAttacking true c)))
                  = effects c ++ log ++ [SetTimeout AttackEnd 600]).
      { intro a. unfold emit at 1. record_norm.
        destruct (setAnimation_effects a (set_isAttacking true c)) as [E|E];
          rewrite E; record_norm.
        - exists []. reflexivity.
        - eexists. rewrite <- app_assoc. reflexivity. }
      intros [-> | ->]; cbn [Nat.eqb]; (split; [apply Hlog | reflexivity]).
    + intros H0 H2. apply Nat.eqb_neq in H0, H2. rewrite H0, H2. reflexivity.
Qed.

Lemma attack_needs_left_or_right_button_witness :
  let c := handleKeyDown "r" (constructor facingZ None) in
  isAttacking (handleMouseDown 1 c) = true /\
  effects (handleMouseDown 1 c) = effects c /\
  handleMouseDown 0 (handleMouseDown 1 c) = handleMouseDown 1 c.
Proof.
  cbn zeta.
  destruct (attack_needs_left_or_right_button 1
              (handleKeyDown "r" (constructor facingZ None)))
    as [_ H].
  destruct H as (H1 & H2 & _ & H4);
    [vm_compute; reflexivity | vm_compute; reflexivity |].
  split; [exact H1|]. split; [|apply H2].
  rewrite H4; [record_norm; reflexivity | discriminate | discriminate].
Defined.

(** [setAnimation] returns at once when the requested animation is
    already the current one, whether an action is playing or not.  The
    controller is constructed with [currentAnimation = "idle"] and no
    action, so the [setAnimation("idle")] at the end of [loadModel]
    starts nothing. *)
Theorem loadModel_starts_no_action clips leftBone rightBone c :
  currentAnimation c = idle ->
  let c' := loadModel clips leftBone rightBone c in
  currentAnimation c' = idle /\
  currentAction c' = currentAction c /\
  effects c' = effects c /\
  actions c' = clips.
Proof.
  intro H. cbn zeta. unfold loadModel. cbn zeta.
  match goal with |- context [setAnimation idle ?x] =>
    assert (E : setAnimation idle x = x)
      by (unfold setAnimation; record_norm; rewrite H; reflexivity);
    rewrite !E
  end.
  destruct (enableFootstepParticles _); record_norm; repeat split; assumption.
Qed.

Lemma loadModel_starts_no_action_witness :
  currentAction (loadModel clips true true (constructor facingZ None)) = None.
Proof.
  destruct (loadModel_starts_no_action clips true true
              (constructor facingZ None) eq_refl) as (_ & H & _).
  exact H.
Defined.

Lemma Anim_eqb_eq a b : Anim_eqb a b = true <-> a = b.
Proof. destruct a, b; cbn; split; intro H; try reflexivity; discriminate. Qed.

(** Animation requests and the change cooldown.  A request for a
    priority animation (jump start, loop, land, roll) whose clip is
    loaded always switches.  A request for another animation that
    switches arms the cooldown, and until it has run down every further
    request for a non-priority animation is dropped, in the same frame
    too. *)
Theorem animation_switch_blocks_the_next a c :
  (priorityAnimations a = true -> hasAction c (animationMap a) = true ->
   currentAnimation (setAnimation a c) = a) /\
  (priorityAnimations a = false ->
   currentAnimation c <> a -> currentAnimation (setAnimation a c) = a ->
   animationChangeCooldown (setAnimation a c) = 0.1 /\
   currentAction (setAnimation a c) = Some (animationMap a) /\
   forall b, priorityAnimations b = false ->
     setAnimation b (setAnimation a c) = setAnimation a c).
Proof.
  split.
  - intros Hp Ha. unfold setAnimation.
    destruct (Anim_eqb (currentAnimation c) a) eqn:E.
    + apply Anim_eqb_eq. exact E.
    + rewrite Hp, Ha. cbn [negb andb]. record_norm. reflexivity.
  - intros Hp Hne Hsw.
    assert (Hneq : Anim_eqb (currentAnimation c) a = false).
    { destruct (Anim_eqb (currentAnimation c) a) eqn:E; [|reflexivity].
      apply Anim_eqb_eq in E. contradiction. }
    assert (Hshape : setAnimation a c
                     = set_animationChangeCooldown 0.1
                         (set_currentAnimation a
                            (set_currentAction (Some (animationMap a)) c))).
    { revert Hsw. unfold setAnimation. rewrite Hneq, Hp. cbn [negb andb].
      destruct (Qgtb (animationChangeCooldown c) 0);
        [intro X; contradiction (Hne X)|].
      destruct (negb (hasAction c (animationMap a)));
        [unfold emit; record_norm; intro X; contradiction (Hne X)|].
      reflexivity. }
    rewrite Hshape. record_norm. split; [reflexivity|]. split; [reflexivity|].
    intros b Hb. unfold setAnimation at 1. record_norm.
    destruct (Anim_eqb a b); [reflexivity|]. rewrite Hb. reflexivity.
Qed.

Lemma animation_switch_blocks_the_next_witness :
  let c := handleKeyDown "e" standing in
  setAnimation idle (setAnimation dance c) = setAnimation dance c.
Proof.
  cbn zeta.
  destruct (animation_switch_blocks_the_next dance (handleKeyDown "e" standing))
    as [_ H].
  destruct H as (_ & _ & H);
    [reflexivity | vm_compute; discriminate | vm_compute; reflexivity |].
  apply H. reflexivity.
Defined.

Lemma capsule_resized c t rb w col :
  rigidBody c = Some rb -> world c = Some w -> collider c = Some col ->
  Qltb (Qabs (currentCapsuleHalfHeight c - t)) 0.01 = false ->
  updateCapsuleCollider t c
  = set_animationGroupY
      (currentCharacterYOffset c + (currentCapsuleHalfHeight c - t))
      (set_currentCharacterYOffset
         (currentCharacterYOffset c + (currentCapsuleHalfHeight c - t))
         (set_rigidBody
            (Some {| translation :=
                       {| v_x := v_x (translation rb);
                          v_y := v_y (translation rb)
                                 - (currentCapsuleHalfHeight c - t);
                          v_z := v_z (translation rb) |};
                     linvel := linvel rb |})
            (set_currentCapsuleHalfHeight t
               (set_collider (Some (capsule t (capsuleRadius (config c))))
                  c)))).
Proof.
  intros Hrb Hw Hcol Hd. unfold updateCapsuleCollider.
  rewrite Hrb, Hw, Hcol. cbv zeta. rewrite Hd. record_norm. reflexivity.
Qed.

(** Resizing the capsule and resizing it back (crouch and stand up, roll
    and roll end) returns the body to its height and the model to its
    offset, when the two half heights differ by at least the 0.01
    threshold. *)
Theorem capsule_resize_round_trip c h1 rb w col :
  rigidBody c = Some rb -> world c = Some w -> collider c = Some col ->
  0.01 <= Qabs (currentCapsuleHalfHeight c - h1) ->
  let h0 := currentCapsuleHalfHeight c in
  let c' := updateCapsuleCollider h0 (updateCapsuleCollider h1 c) in
  exists rb',
    rigidBody c' = Some rb' /\
    v_y (translation rb') == v_y (translation rb) /\
    v_x (translation rb') = v_x (translation rb) /\
    v_z (translation rb') = v_z (translation rb) /\
    linvel rb' = linvel rb /\
    currentCapsuleHalfHeight c' = h0 /\
    currentCharacterYOffset c' == currentCharacterYOffset c /\
    animationGroupY c' = currentCharacterYOffset c' /\
    collider c' = Some (capsule h0 (capsuleRadius (config c))).
Proof.
  intros Hrb Hw Hcol Hd. cbn zeta.
  assert (Hd' : 0.01 <= Qabs (h1 - currentCapsuleHalfHeight c)).
  { rewrite <- Qabs_opp.
    setoid_replace (- (h1 - currentCapsuleHalfHeight c))
      with (currentCapsuleHalfHeight c - h1) by ring.
    exact Hd. }
  apply Qltb_ge in Hd, Hd'.
  rewrite (capsule_resized c h1 rb w col Hrb Hw Hcol Hd).
  erewrite capsule_resized;
    [| record_norm; reflexivity | record_norm; exact Hw
     | record_norm; reflexivity | record_norm; exact Hd'].
  record_norm.
  eexists. split; [reflexivity|]. cbn [translation linvel v_x v_y v_z].
  repeat split; try reflexivity; ring.
Qed.

Lemma capsule_resize_round_trip_witness :
  let c := spawned (planeWorld None) 1 in
  let c' := updateCapsuleCollider (currentCapsuleHalfHeight c)
              (updateCapsuleCollider 0.35 c) in
  currentCharacterYOffset c' == currentCharacterYOffset c.
Proof.
  cbn zeta.
  destruct (capsule_resize_round_trip (spawned (planeWorld None) 1) 0.35
              {| translation := {| v_x := 0; v_y := 1; v_z := 0 |};
                 linvel := zeroVec |}
              (planeWorld None) (capsule (1.4 / 2) 0.3)
              eq_refl eq_refl eq_refl)
    as (rb' & _ & _ & _ & _ & _ & _ & H & _).
  - vm_compute. discriminate.
  - exact H.
Defined.

(** A hit reported by [castFootRay] lies straight below the ray's origin
    (0.05 above the given position) at the reported distance, which is at
    most the ray length 0.35; its slope factor is in [[0, 1]], and is 0
    when the binding reports no normal. *)
Theorem castFootRay_hit_geometry c pos h :
  fst (castFootRay c pos) = Some h ->
  hitToi h <= 0.35 /\
  0 <= slopeFactor h <= 1 /\
  slopeFactor h == 1 - Qmax 0 (Qmin 1 (v_y (hitNormal h))) /\
  v_x (point h) == v_x pos /\
  v_y (point h) == v_y pos + 0.05 - hitToi h /\
  v_z (point h) == v_z pos /\
  snd (castFootRay c pos) = [].
Proof.
  unfold castFootRay.
  destruct (world c) as [w|]; [|discriminate].
  destruct (rigidBody c); [|discriminate]. cbn zeta.
  destruct (castRayAndGetNormal w _ _ _) as [[hit|]|]; try discriminate.
  destruct (hitToiOf hit) as [t|]; [|discriminate].
  destruct (Qleb t 0.35) eqn:E; [|discriminate].
  cbn [fst snd]. intro H. injection H as <-.
  cbn [hitToi slopeFactor point hitNormal v_x v_y v_z down].
  apply Qleb_le in E. split; [exact E|].
  set (n := match nullish (nullish (normal hit) (normal1 hit)) (normal2 hit)
            with Some n => n | None => up end).
  assert (Hm : 0 <= Qmax 0 (Qmin 1 (v_y n)) <= 1).
  { split; [apply Q.le_max_l|].
    apply Q.max_lub; [discriminate | apply Q.le_min_l]. }
  split; [revert Hm; generalize (Qmax 0 (Qmin 1 (v_y n))); intros; lra|].
  split; [reflexivity|].
  repeat split; try reflexivity; ring.
Qed.

Lemma castFootRay_hit_geometry_witness :
  exists h,
    fst (castFootRay standing (vec 0 0.1 0)) = Some h /\
    v_y (point h) == 0.1 + 0.05 - hitToi h.
Proof.
  assert (H : fst (castFootRay standing (vec 0 0.1 0))
              = Some {| hitToi := 0.1 + 0.05; slopeFactor := 1 - Qmax 0 (Qmin 1 1);
                        point := vec (0 + 0 * (0.1 + 0.05))
                                     (0.1 + 0.05 + -1 * (0.1 + 0.05))
                                     (0 + 0 * (0.1 + 0.05));
                        hitNormal := up |})
    by (vm_compute; reflexivity).
  eexists. split; [exact H|].
  destruct (castFootRay_hit_geometry standing (vec 0 0.1 0) _ H)
    as (_ & _ & _ & _ & Hy & _).
  exact Hy.
Defined.

(** The burst of a landing has one or two particles whenever the
    controller has a body: one per foot whose ray hits, else one at the
    hit below the character, else one at the bottom of the capsule. *)
Theorem landing_burst_has_one_or_two_particles pose c rb :
  rigidBody c = Some rb ->
  (1 <= List.length (fst (landingHits pose c)) <= 2)%nat.
Proof.
  intro Hrb. unfold landingHits. rewrite Hrb.
  destruct (ft_bone (leftFoot c));
    [destruct (castFootRay c (leftFootWorldPosition pose)) as [[lh|] ll]|];
    (destruct (ft_bone (rightFoot c));
      [destruct (castFootRay c (rightFootWorldPosition pose)) as [[rh|] rl]|]);
    cbn [optList app List.length Nat.eqb fst snd];
    try (destruct (castFootRay c (characterWorldPosition pose)) as [[ch|] cl]);
    cbn [optList app List.length Nat.eqb fst snd]; lia.
Qed.

Lemma landing_burst_has_one_or_two_particles_witness :
  (1 <= List.length (fst (landingHits standingPose standing)) <= 2)%nat.
Proof.
  apply (landing_burst_has_one_or_two_particles standingPose standing
           (bodyOf standing)).
  vm_compute. reflexivity.
Defined.

(** *** One footstep per frame *)

Lemma processFoot_fired M c ft pos delta fc cd :
  fr_hit (processFoot M c ft pos delta fc cd) <> None ->
  fr_cooldown (processFoot M c ft pos delta fc cd) = fc.
Proof.
  unfold processFoot.
  destruct (negb (ft_bone ft)); [intro H; contradiction H; reflexivity|].
  destruct (negb (ft_initialized ft)); [intro H; contradiction H; reflexivity|].
  destruct (castFootRay c pos) as [hit log].
  destruct (_ && _); cbn [fr_hit fr_cooldown];
    [reflexivity | intro H; contradiction H; reflexivity].
Qed.

Lemma processFoot_cooling M c ft pos delta fc cd :
  0 < cd -> fr_hit (processFoot M c ft pos delta fc cd) = None.
Proof.
  intro Hcd. unfold processFoot.
  destruct (negb (ft_bone ft)); [reflexivity|].
  destruct (negb (ft_initialized ft)); [reflexivity|].
  destruct (castFootRay c pos) as [hit log].
  apply Qleb_gt in Hcd. rewrite Hcd, andb_false_r. reflexivity.
Qed.

Lemma processFoot_log M c ft pos delta fc cd :
  Forall (fun e => exists m, e = ConsoleWarn m)
         (fr_log (processFoot M c ft pos delta fc cd)).
Proof.
  unfold processFoot.
  destruct (negb (ft_bone ft)); [constructor|].
  destruct (negb (ft_initialized ft)); [constructor|].
  destruct (castFootRay c pos) as [hit log] eqn:E. cbn [fr_log].
  replace log with (snd (castFootRay c pos)) by (rewrite E; reflexivity).
  unfold castFootRay.
  destruct (world c) as [w|]; [|constructor].
  destruct (rigidBody c); [|constructor]. cbn zeta.
  destruct (castRayAndGetNormal w _ _ _) as [[h|]|]; cbn [snd];
    try constructor.
  - destruct (hitToiOf h); [destruct (Qleb _ _)|]; constructor.
  - eexists. reflexivity.
  - constructor.
Qed.

Lemma warnings_silent log :
  Forall (fun e => exists m, e = ConsoleWarn m) log ->
  filter isSound log = [] /\ filter isParticle log = [].
Proof.
  induction 1 as [|e l [m ->] _ [IH1 IH2]]; cbn; [split; reflexivity|].
  split; assumption.
Qed.

Lemma feet_fire_once M c1 c2 ft1 ft2 p1 p2 delta fc cd :
  0 < fc ->
  (List.length
     (optList (fr_hit (processFoot M c1 ft1 p1 delta fc cd)) ++
      optList (fr_hit (processFoot M c2 ft2 p2 delta fc
                         (fr_cooldown (processFoot M c1 ft1 p1 delta fc cd)))))
   <= 1)%nat.
Proof.
  intro Hfc.
  destruct (fr_hit (processFoot M c1 ft1 p1 delta fc cd)) as [lh|] eqn:El.
  - rewrite processFoot_fired by (rewrite El; discriminate).
    rewrite processFoot_cooling by exact Hfc. cbn [optList app List.length]. lia.
  - cbn [optList app].
    destruct (fr_hit (processFoot M c2 ft2 p2 delta fc _));
      cbn [optList List.length]; lia.
Qed.

(** One call of [updateFootsteps] plays at most one footstep sound and
    spawns at most one particle: a foot that fires sets the cooldown, a
    positive number, before the other foot is looked at, and what else
    the call logs are warnings of the foot ray. *)
Theorem at_most_one_footstep_per_frame M delta pose c c' :
  updateFootsteps M delta pose c = Returns c' ->
  exists log,
    effects c' = effects c ++ log /\
    (List.length (filter isSound log) <= 1)%nat /\
    (List.length (filter isParticle log) <= 1)%nat.
Proof.
  unfold updateFootsteps.
  destruct (_ || _).
  { intro H. injection H as <-. exists []. rewrite app_nil_r.
    repeat split; cbn; lia. }
  destruct (rigidBody c) as [rb|]; [|discriminate]. cbv zeta.
  match goal with |- context [Qmax (?a / ?b) ?m] =>
    set (fc := Qmax (a / b) m) end.
  assert (Hfc : 0 < fc).
  { unfold fc. eapply Qlt_le_trans; [|apply Q.le_max_r].
    destruct (Qgtb _ _); reflexivity. }
  clearbody fc.
  record_norm.
  match goal with
  | |- context [processFoot M ?c1 (rightFoot c) ?p delta fc
                  (fr_cooldown (processFoot M c ?ft ?q delta fc ?cd))] =>
      pose proof (feet_fire_once M c c1 ft (rightFoot c) q p delta fc cd Hfc)
        as Hone;
      pose proof (warnings_silent _ (processFoot_log M c ft q delta fc cd))
        as [Ls Lp];
      pose proof (warnings_silent _
                    (processFoot_log M c1 (rightFoot c) p delta fc
                       (fr_cooldown (processFoot M c ft q delta fc cd))))
        as [Rs Rp];
      set (r := processFoot M c1 (rightFoot c) p delta fc
                  (fr_cooldown (processFoot M c ft q delta fc cd))) in *;
      set (l := processFoot M c ft q delta fc cd) in *
  end.
  clearbody r. clearbody l.
  set (hits := optList (fr_hit l) ++ optList (fr_hit r)) in *.
  assert (Hmap : forall hs, filter isSound (map spawn hs) = [] /\
                   List.length (filter isParticle (map spawn hs))
                   = List.length hs).
  { induction hs as [|h hs [I1 I2]]; cbn; [split; reflexivity|].
    split; [exact I1 | rewrite I2; reflexivity]. }
  destruct (Hmap hits) as [Ms Mp]. clearbody hits.
  destruct (isSome (fr_hit l) || isSome (fr_hit r)).
  - unfold playFootstepSound. record_norm.
    destruct (negb (enableFootstepAudio (config c)));
      unfold emit; record_norm;
      (destruct (enableFootstepParticles (config c) && footstepParticles c);
       intro H; injection H as <-; record_norm;
       eexists; (split; [rewrite <- ?app_assoc; reflexivity|]);
       rewrite ?filter_app, ?Ls, ?Lp, ?Rs, ?Rp, ?Ms;
       cbn [app filter isSound isParticle List.length];
       rewrite ?Mp; split; lia).
  - intro H. injection H as <-. record_norm. eexists.
    split; [rewrite <- app_assoc; reflexivity|].
    rewrite !filter_app, Ls, Lp, Rs, Rp. cbn. lia.
Qed.

Lemma at_most_one_footstep_per_frame_witness :
  exists c' log,
    updateFootsteps facingZ frame standingPose stepping = Returns c' /\
    effects c' = effects stepping ++ log /\
    List.length (filter isSound log) = 1%nat /\
    List.length (filter isParticle log) = 1%nat.
Proof.
  destruct (updateFootsteps facingZ frame standingPose stepping) as [c'|] eqn:E;
    [|vm_compute in E; discriminate].
  destruct (at_most_one_footstep_per_frame facingZ frame standingPose stepping
              c' E) as (log & H & _).
  exists c', log. split; [reflexivity|]. split; [exact H|].
  vm_compute in E. injection E as <-. vm_compute in H.
  injection H as <-. split; reflexivity.
Defined.

(** *** Frame bookkeeping *)

Lemma fallingDetection_sets g s c : wasGrounded (fallingDetection g s c) = g.
Proof. unfold fallingDetection. record_norm. reflexivity. Qed.

Lemma applyFrame_wasGrounded M delta pose g h vel c :
  wasGrounded (applyFrame M delta pose g h vel c) = g.
Proof.
  unfold applyFrame. cbn zeta. repeat peel. apply fallingDetection_sets.
Qed.

Lemma applyFrame_isGrounded M delta pose g h vel c :
  isGrounded (applyFrame M delta pose g h vel c) = isGrounded c.
Proof. unfold applyFrame. cbn zeta. repeat peel. reflexivity. Qed.

Lemma applyFrame_keys M delta pose g h vel c :
  keys (applyFrame M delta pose g h vel c) = keys c.
Proof. unfold applyFrame. cbn zeta. repeat peel. reflexivity. Qed.

Lemma applyFrame_config M delta pose g h vel c :
  config (applyFrame M delta pose g h vel c) = config c.
Proof. unfold applyFrame. cbn zeta. repeat peel. reflexivity. Qed.

Lemma applyFrame_world M delta pose g h vel c :
  world (applyFrame M delta pose g h vel c) = world c.
Proof. unfold applyFrame. cbn zeta. repeat peel. reflexivity. Qed.

Lemma applyFrame_isAttacking M delta pose g h vel c :
  isAttacking (applyFrame M delta pose g h vel c) = isAttacking c.
Proof. unfold applyFrame. cbn zeta. repeat peel. reflexivity. Qed.

Lemma applyFrame_combatMode M delta pose g h vel c :
  combatMode (applyFrame M delta pose g h vel c) = combatMode c.
Proof. unfold applyFrame. cbn zeta. repeat peel. reflexivity. Qed.

Lemma updateFootsteps_inputs M d p c c' :
  updateFootsteps M d p c = Returns c' -> inputs c' = inputs c.
Proof.
  intro H. destruct (rigidBody c) as [rb|] eqn:Hrb.
  - destruct (updateFootsteps_shape M d p c rb Hrb) as (l & r & fc & e & E).
    rewrite E in H. injection H as <-. reflexivity.
  - revert H. unfold updateFootsteps. rewrite Hrb.
    destruct (_ || _); [|discriminate]. intro H. injection H as <-.
    reflexivity.
Qed.

(** A frame update never writes the keys, the configuration, the world
    handle, the attack flag or the combat mode, whether it runs to its
    end or a ray cast throws half way: these change only in the input
    handlers and the attack callback. *)
Theorem update_never_writes_inputs M delta pose c :
  inputs (after (update M delta pose c)) = inputs c.
Proof.
  unfold update. destruct (rigidBody c) as [rb|]; [|reflexivity].
  assert (H0 : inputs (tickCooldowns delta c) = inputs c) by reflexivity.
  destruct (updateFootsteps M delta pose (tickCooldowns delta c)) as [c2|] eqn:E2;
    [|exact H0].
  apply updateFootsteps_inputs in E2.
  destruct (checkGroundedRapier c2) as [hit|]; [|cbn [after]; congruence].
  set (g := if crouchTransitioning c2 then true else hit).
  assert (H3 : inputs (set_isGrounded g c2) = inputs c) by (rewrite <- H0, <- E2; reflexivity).
  destruct (if isCrouching (set_isGrounded g c2)
            then checkCeilingClearance (set_isGrounded g c2)
            else Returns true) as [h|]; [|exact H3].
  cbn [after]. rewrite <- H3. unfold inputs.
  rewrite applyFrame_keys, applyFrame_config, applyFrame_world,
    applyFrame_isAttacking, applyFrame_combatMode. reflexivity.
Qed.

Lemma movementInput_rotation M g s cv :
  rotationTarget (fst (movementInput M g s cv))
  = if negb (Qeq_bool (movementX (keys (fst cv))) 0)
    then rotationTarget (fst cv)
         + ROTATION_SPEED (config (fst cv)) * movementX (keys (fst cv))
    else rotationTarget (fst cv).
Proof.
  unfold movementInput, movingBranch, idleBranch. cbn zeta.
  destruct (negb (Qeq_bool (movementX (keys (fst cv))) 0)); cbn [orb fst snd].
  - repeat peel_inner. record_norm. reflexivity.
  - destruct (negb (Qeq_bool (movementZ _) 0)); cbn [fst snd];
      repeat peel_inner; record_norm; reflexivity.
Qed.

Lemma applyFrame_rotation M delta pose g h vel c :
  rotationTarget (applyFrame M delta pose g h vel c)
  = if negb (Qeq_bool (movementX (keys c)) 0)
    then rotationTarget c + ROTATION_SPEED (config c) * movementX (keys c)
    else rotationTarget c.
Proof.
  unfold applyFrame. cbn zeta. do 3 peel. rewrite movementInput_rotation.
  repeat peel. reflexivity.
Qed.

(** What a completed frame records.  The ground contact of the frame
    (the ground ray, or [true] during a crouch transition) is stored in
    both [isGrounded] and [wasGrounded], so the landing code cannot run
    again before the contact has been lost.  With a turn key held the
    heading changes by [ROTATION_SPEED] per call, whatever the frame
    time: the rate of turn follows the frame rate. *)
Theorem frame_records_contact_and_turn M delta pose c rb g h :
  rigidBody c = Some rb ->
  checkGroundedRapier c = Returns g ->
  (if isCrouching c then checkCeilingClearance c else Returns true)
    = Returns h ->
  exists c',
    update M delta pose c = Done c' /\
    isGrounded c' = (if crouchTransitioning c then true else g) /\
    wasGrounded c' = isGrounded c' /\
    rotationTarget c'
    = (if negb (Qeq_bool (movementX (keys c)) 0)
       then rotationTarget c + ROTATION_SPEED (config c) * movementX (keys c)
       else rotationTarget c).
Proof.
  intros Hrb Hg Hh.
  destruct (update_runs M delta pose c rb g h Hrb Hg Hh)
    as (ag & acd & fc & l & r & e & Hu).
  eexists. split; [exact Hu|].
  rewrite applyFrame_wasGrounded, applyFrame_isGrounded, applyFrame_rotation.
  split; [reflexivity|]. split; reflexivity.
Qed.

Lemma frame_records_contact_and_turn_witness :
  exists c',
    update facingZ frame standingPose (handleKeyDown "a" standing) = Done c' /\
    wasGrounded c' = true /\
    rotationTarget c' == rotationTarget standing + MdegToRad facingZ 0.5.
Proof.
  destruct (frame_records_contact_and_turn facingZ frame standingPose
              (handleKeyDown "a" standing)
              (bodyOf (handleKeyDown "a" standing)) true true)
    as (c' & H1 & H2 & H3 & H4).
  - vm_compute. reflexivity.
  - vm_compute. reflexivity.
  - vm_compute. reflexivity.
  - exists c'. split; [exact H1|]. split.
    + rewrite H3, H2. vm_compute. reflexivity.
    + rewrite H4. vm_compute. reflexivity.
Defined.

(** *** The cooldown a footstep sets *)

Lemma processFoot_cooldown M c ft pos delta fc cd :
  fr_cooldown (processFoot M c ft pos delta fc cd) = cd \/
  (cd <= 0 /\ fr_cooldown (processFoot M c ft pos delta fc cd) = fc).
Proof.
  unfold processFoot.
  destruct (negb (ft_bone ft)); [left; reflexivity|].
  destruct (negb (ft_initialized ft)); [left; reflexivity|].
  destruct (castFootRay c pos) as [hit log].
  destruct (Qleb cd 0) eqn:E.
  - destruct (_ && _); cbn [fr_cooldown]; [right | left; reflexivity].
    split; [apply Qleb_le; exact E | reflexivity].
  - rewrite andb_false_r. cbn [andb fr_cooldown]. left. reflexivity.
Qed.

Lemma finalCooldown_range (running : bool) (x : Q) :
  let fc := Qmax ((if running then 0.2 else 0.25) / Qmax (Qmin x 1.5) 0.5)
                 (if running then 0.12 else 0.18) in
  (2 # 15) <= fc <= 0.5.
Proof.
  cbn zeta.
  set (d := Qmax (Qmin x 1.5) 0.5).
  assert (Hlo : 0.5 <= d) by apply Q.le_max_r.
  assert (Hhi : d <= 1.5).
  { unfold d. apply Q.max_lub; [apply Q.le_min_r | discriminate]. }
  clearbody d.
  assert (Hd : 0 < d) by lra.
  split.
  - eapply Qle_trans; [|apply Q.le_max_l].
    apply Qle_shift_div_l; [exact Hd|]. destruct running; lra.
  - apply Q.max_lub.
    + apply Qle_shift_div_r; [exact Hd|]. destruct running; lra.
    + destruct running; discriminate.
Qed.

(** [updateFootsteps] either leaves [footstepCooldown] as it is, or, with
    the cooldown run out, sets it to a time between 2/15 s and 0.5 s,
    whatever the speed of the body: the floor of 0.12 s for running never
    binds, the speed factor being capped at 1.5.  [RUN_SPEED] is not
    zero, so that the division is the source's. *)
Theorem footstep_cooldown_bounds M delta pose c c' :
  ~ RUN_SPEED (config c) == 0 ->
  updateFootsteps M delta pose c = Returns c' ->
  footstepCooldown c' = footstepCooldown c \/
  (footstepCooldown c <= 0 /\ (2 # 15) <= footstepCooldown c' <= 0.5).
Proof.
  intros _. unfold updateFootsteps.
  destruct (_ || _).
  { intro H. injection H as <-. left. reflexivity. }
  destruct (rigidBody c) as [rb|]; [|discriminate]. cbv zeta.
  match goal with |- context [Qmax ((if ?b then _ else _) / Qmax (Qmin ?x _) _) _] =>
    pose proof (finalCooldown_range b x) as Hfc; cbv zeta in Hfc
  end.
  match goal with |- context [Qmax (?a / ?b) ?m] =>
    set (fc := Qmax (a / b) m) in * end.
  clearbody fc.
  record_norm.
  match goal with
  | |- context [processFoot M ?c1 (rightFoot c) ?p delta fc
                  (fr_cooldown (processFoot M c ?ft ?q delta fc ?cd))] =>
      pose proof (processFoot_cooldown M c ft q delta fc cd) as Hl;
      pose proof (processFoot_cooldown M c1 (rightFoot c) p delta fc
                    (fr_cooldown (processFoot M c ft q delta fc cd))) as Hr;
      set (r := processFoot M c1 (rightFoot c) p delta fc
                  (fr_cooldown (processFoot M c ft q delta fc cd))) in *;
      set (l := processFoot M c ft q delta fc cd) in *
  end.
  clearbody r. clearbody l.
  assert (Hend : fr_cooldown r = footstepCooldown c \/
                 (footstepCooldown c <= 0 /\ (2 # 15) <= fr_cooldown r <= 0.5)).
  { destruct Hl as [Hl | [Hl1 Hl2]], Hr as [Hr | [Hr1 Hr2]].
    - left. congruence.
    - right. rewrite Hr2. split; [rewrite <- Hl; exact Hr1 | exact Hfc].
    - right. rewrite Hr, Hl2. split; [exact Hl1 | exact Hfc].
    - right. rewrite Hr2. split; [exact Hl1 | exact Hfc]. }
  clear Hl Hr.
  destruct (isSome (fr_hit l) || isSome (fr_hit r)).
  - unfold playFootstepSound. record_norm.
    destruct (negb (enableFootstepAudio (config c)));
      unfold emit; record_norm;
      (destruct (enableFootstepParticles (config c) && footstepParticles c);
       intro H; injection H as <-; record_norm; exact Hend).
  - intro H. injection H as <-. record_norm. exact Hend.
Qed.

Lemma footstep_cooldown_bounds_witness :
  exists c',
    updateFootsteps facingZ frame standingPose stepping = Returns c' /\
    footstepCooldown stepping <= 0 /\
    (2 # 15) <= footstepCooldown c' <= 0.5 /\
    ~ footstepCooldown c' == footstepCooldown stepping.
Proof.
  destruct (updateFootsteps facingZ frame standingPose stepping) as [c'|] eqn:E;
    [|vm_compute in E; discriminate].
  assert (Hrun : ~ RUN_SPEED (config stepping) == 0)
    by (vm_compute; discriminate).
  pose proof (footstep_cooldown_bounds facingZ frame standingPose stepping
                c' Hrun E) as H.
  exists c'. split; [reflexivity|].
  vm_compute in E. injection E as <-.
  destruct H as [H | [H1 H2]].
  - vm_compute in H. discriminate H.
  - split; [exact H1|]. split; [exact H2|]. vm_compute. discriminate.
Defined.

End ControllerProofs.

(** ** The clip of a footstep sound *)

Module ClipProofs.
Import Clips.

Lemma pick_range n r : (0 < n)%nat -> 0 <= r < 1 -> (pick n r < n)%nat.
Proof.
  intros Hn [H0 H1]. unfold pick.
  set (k := inject_Z (Z.of_nat n)).
  assert (Hk : 0 < k).
  { unfold k. change 0 with (inject_Z 0). rewrite <- Zlt_Qlt. lia. }
  assert (Hlo : 0 <= r * k) by nra.
  assert (Hhi : r * k < k) by nra.
  pose proof (Qfloor_le (r * k)) as F1.
  pose proof (Qlt_floor (r * k)) as F2.
  assert (Hz : (0 <= Qfloor (r * k))%Z).
  { apply (Qfloor_resp_le 0 (r * k)) in Hlo. exact Hlo. }
  assert (Hlt : inject_Z (Qfloor (r * k)) < k) by lra.
  unfold k in *. rewrite <- Zlt_Qlt in Hlt. lia.
Qed.

Lemma chooseLoop_spec n last draws a :
  (a < 5)%nat ->
  let r := chooseLoop n last draws a in
  (a < snd r <= 5)%nat /\
  fst r = pick n (draws (snd r - 1)%nat) /\
  (forall k, (a <= k < snd r - 1)%nat -> last = Some (pick n (draws k))) /\
  (last = Some (fst r) -> snd r = 5%nat).
Proof.
  funelim (chooseLoop n last draws a); intro Ha; cbn zeta.
  1: { specialize (H l). cbn zeta in H. destruct H as (H1 & H2 & H3 & H4).
       split; [lia|]. split; [exact H2|]. split; [|exact H4].
       intros k Hk. destruct (Nat.eq_dec k attempts) as [->|Hne].
       - unfold sameIndex in Heq0. destruct last as [i|]; [|discriminate].
         apply Nat.eqb_eq in Heq0. congruence.
       - apply H3. lia. }
  all: cbn [fst snd]; split; [lia|];
    replace (S attempts - 1)%nat with attempts by lia;
    split; [reflexivity|]; split; [intros k Hk; lia|]; intro Hl;
    first [ lia
          | exfalso; unfold sameIndex in *; rewrite Hl in *;
            rewrite Nat.eqb_refl in *; discriminate ].
Qed.

(** The clip of a footstep sound, with four clips and draws of
    [Math.random()] in [[0, 1)]: the index is below 4, at most five draws
    are made, the index is the last draw's, and the clip of the previous
    footstep is chosen again only when five draws in a row gave it. *)
Theorem footstep_clip_avoids_repeats last draws :
  (forall k, 0 <= draws k < 1) ->
  exists i,
    chooseIndex true footstepSoundPaths last draws = Some i /\
    (i < 4)%nat /\
    let attempts := snd (chooseLoop 4 last draws 0) in
    (1 <= attempts <= 5)%nat /\
    i = pick 4 (draws (attempts - 1)%nat) /\
    (last = Some i ->
     attempts = 5%nat /\ forall k, (k < 5)%nat -> pick 4 (draws k) = i).
Proof.
  intro Hd. unfold chooseIndex, footstepSoundPaths.
  cbn [negb orb List.length Nat.eqb].
  eexists. split; [reflexivity|].
  destruct (chooseLoop_spec 4 last draws 0) as (H1 & H2 & H3 & H4); [lia|].
  cbn zeta. split; [rewrite H2; apply pick_range; [lia | apply Hd]|].
  split; [lia|]. split; [exact H2|].
  intro Hl. specialize (H4 Hl). split; [exact H4|].
  intros k Hk. destruct (Nat.eq_dec k 4) as [->|Hne].
  - rewrite H2, H4. reflexivity.
  - specialize (H3 k). rewrite H4 in H3.
    assert (E : last = Some (pick 4 (draws k))) by (apply H3; lia).
    rewrite Hl in E. injection E as E. symmetry. exact E.
Qed.

Lemma footstep_clip_avoids_repeats_witness :
  let last := Some 2%nat in
  let draws := fun k => if (k =? 0)%nat then 0.6 else 0.3 in
  (forall k, 0 <= draws k < 1) /\
  exists i,
    chooseIndex true footstepSoundPaths last draws = Some i /\
    (i < 4)%nat /\
    let attempts := snd (chooseLoop 4 last draws 0) in
    (1 <= attempts <= 5)%nat /\
    i = pick 4 (draws (attempts - 1)%nat) /\
    (last = Some i ->
     attempts = 5%nat /\ forall k, (k < 5)%nat -> pick 4 (draws k) = i).
Proof.
  intros last draws.
  assert (Hd : forall k, 0 <= draws k < 1).
  { intro k. unfold draws. destruct (k =? 0)%nat; split; vm_compute;
      first [reflexivity | intro X; discriminate X]. }
  split; [exact Hd|].
  exact (footstep_clip_avoids_repeats last draws Hd).
Defined.

End ClipProofs.
